(** * DuckTube: the MotherDuck video player and the encoder configuration

    A shallow embedding of [frontend/src/MotherDuckVideoPlayer.js] (the React
    component that queries the pixel table and paints frames on a canvas) and
    of [ducktube/spec.json] (the connector's configuration schema), with the
    properties of the design document checked against them.

    Conventions of the embedding.
    - JavaScript numbers that hold integers are [Z]; [null] is [None].
    - The SQL text sent to the store is embedded as the function it computes
      on the table, a [list PixelRecord]; SQL [NULL] is [None].  The
      [CAST(... AS INTEGER)] of the queries only fixes the JavaScript
      representation of the columns and is the identity on integers.
    - Two queries splice a url into their text between single quotes,
      unescaped.  The spliced text is the string literal of the url only
      when the url has no single quote in it ([quote_free]); the functions
      below are the queries for such urls.  What is proved of the content
      of their answers is stated for [quote_free] urls, and the urls the
      component splices are shown to be video urls of the table.
    - React state is one record; a handler is a function on it; the state
      updates of one handler are committed together, then the effects whose
      dependencies changed are run in the order the component declares them.
    - An [await] splits a function in two: the part before it registers a
      pending operation, the part after it runs when the operation settles. *)

From Stdlib Require Import ZArith List Bool String Ascii Lia QArith.
From Stdlib Require Import Sorting.Permutation Sorting.Sorted.
Import ListNotations.
Local Open Scope string_scope.
Local Open Scope list_scope.
Local Open Scope Z_scope.

(** ** The row store *)

Module Store.

(** One row of [ducktube.main.video_frames] (the README's VIDEO_FRAMES
    entity).  [value], [r], [g] and [b] are the nullable columns. *)
Record PixelRecord := {
  frame_id : Z;
  x : Z;
  y : Z;
  value : option Z;
  r : option Z;
  g : option Z;
  b : option Z;
  video_url : string;
  processed_at : Z
}.

Definition Table := list PixelRecord.

(** The template literals [WHERE video_url = '${videoUrl}'] and
    [AND video_url = '${selectedVideo}'] put the url into the SQL text as it
    is.  Between the two quotes the text is the SQL string literal that
    denotes the url exactly when the url has no single quote of its own; a
    url with one ends the literal early and the rest of it is read as
    SQL. *)
Fixpoint quote_free (url : string) : bool :=
  match url with
  | EmptyString => true
  | String c url' => negb (Ascii.eqb c "'") && quote_free url'
  end.

(** [WHERE video_url = '${videoUrl}'] for a [quote_free] url: the records
    whose [video_url] is the url.  For another url the condition sent is
    not this one. *)
Definition where_video (url : string) (t : Table) : Table :=
  filter (fun p => String.eqb (video_url p) url) t.

(** SQL [MAX] over a non-nullable integer column: [NULL] on no rows. *)
Fixpoint sql_max (l : list Z) : option Z :=
  match l with
  | [] => None
  | z :: l' =>
      match sql_max l' with
      | None => Some z
      | Some m => Some (Z.max z m)
      end
  end.

(** The non-[NULL] values of a nullable column; aggregates ignore [NULL]. *)
Fixpoint non_null (l : list (option Z)) : list Z :=
  match l with
  | [] => []
  | Some z :: l' => z :: non_null l'
  | None :: l' => non_null l'
  end.

(** SQL [COUNT(DISTINCT c)]. *)
Definition count_distinct (l : list Z) : Z :=
  Z.of_nat (List.length (nodup Z.eq_dec l)).

(** [e + 1] on a nullable operand. *)
Definition sql_succ (o : option Z) : option Z := option_map (fun z => z + 1) o.

(** The row of the metadata query of [loadVideoMetadata]. *)
Record MetaRow := {
  m_width : option Z;
  m_height : option Z;
  m_total_frames : Z;
  m_mode : string
}.

(** [CASE WHEN MAX(r) IS NOT NULL THEN 'color'
          WHEN MAX(value) <= 1 THEN 'binary'
          ELSE 'grayscale' END];
    a comparison with [NULL] is not true, so the second branch is not taken
    when no value is observed. *)
Definition mode_case (max_r max_value : option Z) : string :=
  match max_r with
  | Some _ => "color"
  | None =>
      match max_value with
      | Some m => if m <=? 1 then "binary" else "grayscale"
      | None => "grayscale"
      end
  end.

(** [SELECT MAX(x)+1, MAX(y)+1, COUNT(DISTINCT frame_id), CASE ... END
     FROM video_frames WHERE video_url = '${videoUrl}'] for a [quote_free]
    url: an aggregate without [GROUP BY], hence exactly one row. *)
Definition metadata_query (t : Table) (url : string) : MetaRow :=
  let rows := where_video url t in
  {| m_width := sql_succ (sql_max (map x rows));
     m_height := sql_succ (sql_max (map y rows));
     m_total_frames := count_distinct (map frame_id rows);
     m_mode := mode_case (sql_max (non_null (map r rows)))
                         (sql_max (non_null (map value rows))) |}.

(** A row of the frame query of [loadFrame]. *)
Record Pixel := {
  px_x : Z;
  px_y : Z;
  px_value : option Z;
  px_r : option Z;
  px_g : option Z;
  px_b : option Z
}.

Definition pixel_of (p : PixelRecord) : Pixel :=
  {| px_x := x p; px_y := y p; px_value := value p;
     px_r := r p; px_g := g p; px_b := b p |}.

(** [ORDER BY y, x] *)
Definition yx_leb (p q : Pixel) : bool :=
  (px_y p <? px_y q) || ((px_y p =? px_y q) && (px_x p <=? px_x q)).

Fixpoint insert_yx (p : Pixel) (l : list Pixel) : list Pixel :=
  match l with
  | [] => [p]
  | q :: l' => if yx_leb p q then p :: l else q :: insert_yx p l'
  end.

Definition order_by_yx (l : list Pixel) : list Pixel :=
  fold_right insert_yx [] l.

(** [SELECT x, y, value, r, g, b FROM video_frames
     WHERE frame_id = ${frameId} AND video_url = '${selectedVideo}'
     ORDER BY y, x] for a [quote_free] url; the frame id is a number. *)
Definition frame_query (t : Table) (f : Z) (url : string) : list Pixel :=
  order_by_yx
    (map pixel_of
       (filter (fun p => (frame_id p =? f) && String.eqb (video_url p) url) t)).

(** [ORDER BY video_url] on strings. *)
Fixpoint insert_url (u : string) (l : list string) : list string :=
  match l with
  | [] => [u]
  | v :: l' => if String.leb u v then u :: l else v :: insert_url u l'
  end.

(** [SELECT DISTINCT video_url FROM video_frames ORDER BY video_url] *)
Definition videos_query (t : Table) : list string :=
  fold_right insert_url [] (nodup string_dec (map video_url t)).

End Store.

(** ** The canvas

    The 2D canvas is the browser's, not the repository's; what the player
    uses of it is modelled after the HTML standard: a bitmap of
    [cwidth] x [cheight] pixels, a current [fillStyle], and [fillRect], which
    paints the part of a rectangle that lies on the bitmap. *)

Module Canvas.

Inductive Color :=
| Transparent
| RGB (red green blue : Z).

Definition white : Color := RGB 255 255 255.   (* '#FFFFFF' *)
Definition black : Color := RGB 0 0 0.         (* '#000000' *)

Definition clamp255 (z : Z) : Z := Z.max 0 (Z.min 255 z).

(** The colour a CSS [rgb(r,g,b)] string with integer components parses to:
    components are clamped to 0..255. *)
Definition css_rgb (cr cg cb : Z) : Color :=
  RGB (clamp255 cr) (clamp255 cg) (clamp255 cb).

Record Canvas2D := {
  cwidth : Z;
  cheight : Z;
  fillStyle : Color;
  bitmap : Z -> Z -> Color
}.

(** A canvas whose width or height has just been set: transparent bitmap,
    context state reset (the default [fillStyle] is black). *)
Definition blank (w h : Z) : Canvas2D :=
  {| cwidth := w; cheight := h; fillStyle := black;
     bitmap := fun _ _ => Transparent |}.

Definition on_bitmap (c : Canvas2D) (px py : Z) : bool :=
  (0 <=? px) && (px <? cwidth c) && (0 <=? py) && (py <? cheight c).

Definition getPixel (c : Canvas2D) (px py : Z) : option Color :=
  if on_bitmap c px py then Some (bitmap c px py) else None.

Definition with_fillStyle (col : Color) (c : Canvas2D) : Canvas2D :=
  {| cwidth := cwidth c; cheight := cheight c; fillStyle := col;
     bitmap := bitmap c |}.

(** [p] lies in the span that starts at [a] and extends by [len] (which may
    be negative). *)
Definition in_span (a len p : Z) : bool :=
  (Z.min a (a + len) <=? p) && (p <? Z.max a (a + len)).

(** [ctx.fillRect(x, y, w, h)] on integer arguments. *)
Definition fillRect (c : Canvas2D) (rx ry rw rh : Z) : Canvas2D :=
  {| cwidth := cwidth c; cheight := cheight c; fillStyle := fillStyle c;
     bitmap := fun px py =>
       if in_span rx rw px && in_span ry rh py && on_bitmap c px py
       then fillStyle c
       else bitmap c px py |}.

(** A JavaScript number that is either an integer or not finite ([None]:
    NaN or an infinity). *)
Definition Num := option Z.

(** [fillRect] returns without painting when an argument is not finite. *)
Definition fillRect_num (c : Canvas2D) (rx ry rw rh : Num) : Canvas2D :=
  match rx, ry, rw, rh with
  | Some rx', Some ry', Some rw', Some rh' => fillRect c rx' ry' rw' rh'
  | _, _, _, _ => c
  end.

(** [a / b] where [b] is a number or [null].  A zero or [null] divisor gives
    NaN or an infinity.  Otherwise the quotient is taken as exact, which it
    is for the canvas the player renders ([canvas.width] is four times
    [canvasSize.width]); the embedding says nothing of fractional pixel
    sizes. *)
Definition js_div (a : Z) (b : option Z) : Num :=
  match b with
  | Some d => if d =? 0 then None else Some (a / d)
  | None => None
  end.

Definition js_mul (a : Z) (n : Num) : Num := option_map (Z.mul a) n.

(** The [width] or [height] of a canvas element whose attribute is [attr]:
    a negative attribute is not a valid dimension and the default is used. *)
Definition dom_dim (attr dflt : Z) : Z := if attr <? 0 then dflt else attr.

End Canvas.

(** ** The player component *)

Module Player.
Import Store Canvas.

(** [MDConnection.create({ mdToken })] *)
Record MDConnection := { mdToken : string }.

Record CanvasSize := { width : option Z; height : option Z }.

Record Metadata := {
  target_width : option Z;
  target_height : option Z;
  fps : Z;
  mode : string
}.

(** An interval registered with [setInterval]: its id, its delay in
    milliseconds, and the [totalFrames] its callback closed over. *)
Record Timer := { timer_id : positive; timer_delay : Q; timer_total : Z }.

(** What runs after [loadVideoMetadata] returns: nothing more
    ([handleVideoSelect]), or the [finally] of [connectToMotherDuck]. *)
Inductive Cont := KReturn | KConnect.

(** The operations a handler can be suspended on. *)
Inductive Pending :=
| PInit (c : MDConnection)                         (* connection.isInitialized() *)
| PVideos (c : MDConnection)                       (* query of loadAvailableVideos *)
| PMeta (c : MDConnection) (url : string) (k : Cont) (* query of loadVideoMetadata *)
| PFrame (c : MDConnection) (frameId : Z) (url : string). (* query of loadFrame *)

(** How a pending operation settles. *)
Inductive Outcome := Fulfilled | Rejected.

(** The component's [useState] cells and refs, and the part of the browser
    and of the store it acts on. *)
Record State := {
  conn : option MDConnection;
  canvasSize : CanvasSize;
  currentFrame : Z;
  isPlaying : bool;
  totalFrames : Z;
  pixels : list Pixel;
  isLoading : bool;
  metadata : option Metadata;
  videoUrls : list string;
  selectedVideo : string;
  token : string;
  frameInterval : option positive;   (* frameInterval.current *)
  canvas : option Canvas2D;          (* canvasRef.current *)
  timers : list Timer;               (* the intervals the browser runs *)
  next_timer : positive;             (* the id setInterval returns next *)
  console : list string;             (* console.error *)
  inflight : list Pending;           (* operations not yet settled *)
  store : Table                      (* ducktube.main.video_frames *)
}.

Definition set_conn (v : option MDConnection) (s : State) : State :=
  {| conn := v; canvasSize := canvasSize s; currentFrame := currentFrame s;
     isPlaying := isPlaying s; totalFrames := totalFrames s;
     pixels := pixels s; isLoading := isLoading s; metadata := metadata s;
     videoUrls := videoUrls s; selectedVideo := selectedVideo s;
     token := token s; frameInterval := frameInterval s; canvas := canvas s;
     timers := timers s; next_timer := next_timer s; console := console s;
     inflight := inflight s; store := store s |}.

Definition set_canvasSize (v : CanvasSize) (s : State) : State :=
  {| conn := conn s; canvasSize := v; currentFrame := currentFrame s;
     isPlaying := isPlaying s; totalFrames := totalFrames s;
     pixels := pixels s; isLoading := isLoading s; metadata := metadata s;
     videoUrls := videoUrls s; selectedVideo := selectedVideo s;
     token := token s; frameInterval := frameInterval s; canvas := canvas s;
     timers := timers s; next_timer := next_timer s; console := console s;
     inflight := inflight s; store := store s |}.

Definition set_currentFrame (v : Z) (s : State) : State :=
  {| conn := conn s; canvasSize := canvasSize s; currentFrame := v;
     isPlaying := isPlaying s; totalFrames := totalFrames s;
     pixels := pixels s; isLoading := isLoading s; metadata := metadata s;
     videoUrls := videoUrls s; selectedVideo := selectedVideo s;
     token := token s; frameInterval := frameInterval s; canvas := canvas s;
     timers := timers s; next_timer := next_timer s; console := console s;
     inflight := inflight s; store := store s |}.

Definition set_isPlaying (v : bool) (s : State) : State :=
  {| conn := conn s; canvasSize := canvasSize s;
     currentFrame := currentFrame s; isPlaying := v;
     totalFrames := totalFrames s; pixels := pixels s;
     isLoading := isLoading s; metadata := metadata s;
     videoUrls := videoUrls s; selectedVideo := selectedVideo s;
     token := token s; frameInterval := frameInterval s; canvas := canvas s;
     timers := timers s; next_timer := next_timer s; console := console s;
     inflight := inflight s; store := store s |}.

Definition set_totalFrames (v : Z) (s : State) : State :=
  {| conn := conn s; canvasSize := canvasSize s;
     currentFrame := currentFrame s; isPlaying := isPlaying s;
     totalFrames := v; pixels := pixels s; isLoading := isLoading s;
     metadata := metadata s; videoUrls := videoUrls s;
     selectedVideo := selectedVideo s; token := token s;
     frameInterval := frameInterval s; canvas := canvas s;
     timers := timers s; next_timer := next_timer s; console := console s;
     inflight := inflight s; store := store s |}.

Definition set_pixels (v : list Pixel) (s : State) : State :=
  {| conn := conn s; canvasSize := canvasSize s;
     currentFrame := currentFrame s; isPlaying := isPlaying s;
     totalFrames := totalFrames s; pixels := v; isLoading := isLoading s;
     metadata := metadata s; videoUrls := videoUrls s;
     selectedVideo := selectedVideo s; token := token s;
     frameInterval := frameInterval s; canvas := canvas s;
     timers := timers s; next_timer := next_timer s; console := console s;
     inflight := inflight s; store := store s |}.

Definition set_isLoading (v : bool) (s : State) : State :=
  {| conn := conn s; canvasSize := canvasSize s;
     currentFrame := currentFrame s; isPlaying := isPlaying s;
     totalFrames := totalFrames s; pixels := pixels s; isLoading := v;
     metadata := metadata s; videoUrls := videoUrls s;
     selectedVideo := selectedVideo s; token := token s;
     frameInterval := frameInterval s; canvas := canvas s;
     timers := timers s; next_timer := next_timer s; console := console s;
     inflight := inflight s; store := store s |}.

Definition set_metadata (v : option Metadata) (s : State) : State :=
  {| conn := conn s; canvasSize := canvasSize s;
     currentFrame := currentFrame s; isPlaying := isPlaying s;
     totalFrames := totalFrames s; pixels := pixels s;
     isLoading := isLoading s; metadata := v; videoUrls := videoUrls s;
     selectedVideo := selectedVideo s; token := token s;
     frameInterval := frameInterval s; canvas := canvas s;
     timers := timers s; next_timer := next_timer s; console := console s;
     inflight := inflight s; store := store s |}.

Definition set_videoUrls (v : list string) (s : State) : State :=
  {| conn := conn s; canvasSize := canvasSize s;
     currentFrame := currentFrame s; isPlaying := isPlaying s;
     totalFrames := totalFrames s; pixels := pixels s;
     isLoading := isLoading s; metadata := metadata s; videoUrls := v;
     selectedVideo := selectedVideo s; token := token s;
     frameInterval := frameInterval s; canvas := canvas s;
     timers := timers s; next_timer := next_timer s; console := console s;
     inflight := inflight s; store := store s |}.

Definition set_selectedVideo (v : string) (s : State) : State :=
  {| conn := conn s; canvasSize := canvasSize s;
     currentFrame := currentFrame s; isPlaying := isPlaying s;
     totalFrames := totalFrames s; pixels := pixels s;
     isLoading := isLoading s; metadata := metadata s;
     videoUrls := videoUrls s; selectedVideo := v; token := token s;
     frameInterval := frameInterval s; canvas := canvas s;
     timers := timers s; next_timer := next_timer s; console := console s;
     inflight := inflight s; store := store s |}.

Definition set_token (v : string) (s : State) : State :=
  {| conn := conn s; canvasSize := canvasSize s;
     currentFrame := currentFrame s; isPlaying := isPlaying s;
     totalFrames := totalFrames s; pixels := pixels s;
     isLoading := isLoading s; metadata := metadata s;
     videoUrls := videoUrls s; selectedVideo := selectedVideo s; token := v;
     frameInterval := frameInterval s; canvas := canvas s;
     timers := timers s; next_timer := next_timer s; console := console s;
     inflight := inflight s; store := store s |}.

Definition set_frameInterval (v : option positive) (s : State) : State :=
  {| conn := conn s; canvasSize := canvasSize s;
     currentFrame := currentFrame s; isPlaying := isPlaying s;
     totalFrames := totalFrames s; pixels := pixels s;
     isLoading := isLoading s; metadata := metadata s;
     videoUrls := videoUrls s; selectedVideo := selectedVideo s;
     token := token s; frameInterval := v; canvas := canvas s;
     timers := timers s; next_timer := next_timer s; console := console s;
     inflight := inflight s; store := store s |}.

Definition set_canvas (v : option Canvas2D) (s : State) : State :=
  {| conn := conn s; canvasSize := canvasSize s;
     currentFrame := currentFrame s; isPlaying := isPlaying s;
     totalFrames := totalFrames s; pixels := pixels s;
     isLoading := isLoading s; metadata := metadata s;
     videoUrls := videoUrls s; selectedVideo := selectedVideo s;
     token := token s; frameInterval := frameInterval s; canvas := v;
     timers := timers s; next_timer := next_timer s; console := console s;
     inflight := inflight s; store := store s |}.

Definition set_timers (v : list Timer) (s : State) : State :=
  {| conn := conn s; canvasSize := canvasSize s;
     currentFrame := currentFrame s; isPlaying := isPlaying s;
     totalFrames := totalFrames s; pixels := pixels s;
     isLoading := isLoading s; metadata := metadata s;
     videoUrls := videoUrls s; selectedVideo := selectedVideo s;
     token := token s; frameInterval := frameInterval s; canvas := canvas s;
     timers := v; next_timer := next_timer s; console := console s;
     inflight := inflight s; store := store s |}.

Definition set_next_timer (v : positive) (s : State) : State :=
  {| conn := conn s; canvasSize := canvasSize s;
     currentFrame := currentFrame s; isPlaying := isPlaying s;
     totalFrames := totalFrames s; pixels := pixels s;
     isLoading := isLoading s; metadata := metadata s;
     videoUrls := videoUrls s; selectedVideo := selectedVideo s;
     token := token s; frameInterval := frameInterval s; canvas := canvas s;
     timers := timers s; next_timer := v; console := console s;
     inflight := inflight s; store := store s |}.

Definition set_console (v : list string) (s : State) : State :=
  {| conn := conn s; canvasSize := canvasSize s;
     currentFrame := currentFrame s; isPlaying := isPlaying s;
     totalFrames := totalFrames s; pixels := pixels s;
     isLoading := isLoading s; metadata := metadata s;
     videoUrls := videoUrls s; selectedVideo := selectedVideo s;
     token := token s; frameInterval := frameInterval s; canvas := canvas s;
     timers := timers s; next_timer := next_timer s; console := v;
     inflight := inflight s; store := store s |}.

Definition set_inflight (v : list Pending) (s : State) : State :=
  {| conn := conn s; canvasSize := canvasSize s;
     currentFrame := currentFrame s; isPlaying := isPlaying s;
     totalFrames := totalFrames s; pixels := pixels s;
     isLoading := isLoading s; metadata := metadata s;
     videoUrls := videoUrls s; selectedVideo := selectedVideo s;
     token := token s; frameInterval := frameInterval s; canvas := canvas s;
     timers := timers s; next_timer := next_timer s; console := console s;
     inflight := v; store := store s |}.

(** [useState] initial values, refs at [null], nothing pending. *)
Definition initial (t : Table) : State :=
  {| conn := None;
     canvasSize := {| width := Some 160; height := Some 90 |};
     currentFrame := 0; isPlaying := false; totalFrames := 0; pixels := [];
     isLoading := false; metadata := None; videoUrls := [];
     selectedVideo := EmptyString; token := EmptyString; frameInterval := None; canvas := None;
     timers := []; next_timer := 1%positive; console := []; inflight := [];
     store := t |}.

Definition console_error (msg : string) (s : State) : State :=
  set_console (console s ++ [msg]) s.

Definition suspend (p : Pending) (s : State) : State :=
  set_inflight (inflight s ++ [p]) s.

(** *** Values of untyped parameters *)

(** [loadVideoMetadata] is called with arguments of more than one type. *)
Inductive JsValue :=
| JsUndefined
| JsString (str : string)
| JsConnection (c : MDConnection).

Definition truthy (v : JsValue) : bool :=
  match v with
  | JsUndefined => false
  | JsString str => negb (String.eqb str EmptyString)
  | JsConnection _ => true
  end.

(** [`${v}`] *)
Definition template (v : JsValue) : string :=
  match v with
  | JsUndefined => "undefined"
  | JsString str => str
  | JsConnection _ => "[object Object]"
  end.

(** *** renderFrame *)

(** The assignment to [ctx.fillStyle] in the body of [pixels.forEach]; a
    string that is not a colour ([rgb(null,null,null)]) leaves [fillStyle]
    as it is, and so does a mode that is none of the three. *)
Definition set_fillStyle (md : string) (p : Pixel) (c : Canvas2D) : Canvas2D :=
  if String.eqb md "binary" then
    match px_value p with
    | Some 1 => with_fillStyle black c
    | _ => with_fillStyle white c
    end
  else if String.eqb md "grayscale" then
    match px_value p with
    | Some v => with_fillStyle (css_rgb v v v) c
    | None => c
    end
  else if String.eqb md "color" then
    match px_r p, px_g p, px_b p with
    | Some cr, Some cg, Some cb => with_fillStyle (css_rgb cr cg cb) c
    | _, _, _ => c
    end
  else c.

(** The body of [pixels.forEach]. *)
Definition draw_pixel (md : string) (pixelSize : Num) (c : Canvas2D)
    (p : Pixel) : Canvas2D :=
  fillRect_num (set_fillStyle md p c)
    (js_mul (px_x p) pixelSize) (js_mul (px_y p) pixelSize)
    pixelSize pixelSize.

Definition renderFrame (s : State) : State :=
  match canvas s with
  | None => s
  | Some cv =>
      if (List.length (pixels s) =? 0)%nat then s
      else
        match metadata s with
        | None => s
        | Some meta =>
            let pixelSize := js_div (cwidth cv) (width (canvasSize s)) in
            let bg := fillRect (with_fillStyle white cv)
                        0 0 (cwidth cv) (cheight cv) in
            set_canvas
              (Some (fold_left (draw_pixel (mode meta) pixelSize)
                       (pixels s) bg)) s
        end
  end.

(** *** loadFrame *)

(** Up to the [await]. *)
Definition loadFrame (frameId : Z) (s : State) : State :=
  match conn s with
  | None => s
  | Some c =>
      if String.eqb (selectedVideo s) EmptyString then s
      else suspend (PFrame c frameId (selectedVideo s)) s
  end.

(** After the [await]: [setPixels(result.data.toRows())], or the [catch]. *)
Definition loadFrame_settled (o : Outcome) (frameId : Z) (url : string)
    (s : State) : State :=
  match o with
  | Fulfilled => set_pixels (frame_query (store s) frameId url) s
  | Rejected => console_error "Error loading frame:" s
  end.

(** *** loadVideoMetadata *)

Definition run_cont (k : Cont) (s : State) : State :=
  match k with
  | KReturn => s
  | KConnect => set_isLoading false s
  end.

(** Up to the [await].  A [connection] that is truthy but no connection has
    no [evaluateQuery]: the call throws a TypeError inside the [try], which
    the [catch] logs. *)
Definition loadVideoMetadata (connection videoUrl : JsValue) (k : Cont)
    (s : State) : State :=
  if negb (truthy connection) then run_cont k s
  else
    match connection with
    | JsConnection c => suspend (PMeta c (template videoUrl) k) s
    | _ => run_cont k (console_error "Error loading video metadata:" s)
    end.

(** After the [await]. *)
Definition loadVideoMetadata_settled (o : Outcome) (url : string) (k : Cont)
    (s : State) : State :=
  run_cont k
    match o with
    | Fulfilled =>
        let meta := metadata_query (store s) url in
        set_currentFrame 0
          (set_totalFrames (m_total_frames meta)
             (set_canvasSize
                {| width := m_width meta; height := m_height meta |}
                (set_metadata
                   (Some {| target_width := m_width meta;
                            target_height := m_height meta;
                            fps := 25;
                            mode := m_mode meta |}) s)))
    | Rejected => console_error "Error loading video metadata:" s
    end.

(** *** loadAvailableVideos and connectToMotherDuck *)

Definition loadAvailableVideos (c : MDConnection) (s : State) : State :=
  suspend (PVideos c) s.

Definition loadAvailableVideos_settled (o : Outcome) (c : MDConnection)
    (s : State) : State :=
  match o with
  | Fulfilled =>
      let urls := videos_query (store s) in
      let s1 := set_videoUrls urls s in
      match urls with
      | u :: _ =>
          loadVideoMetadata (JsConnection c) (JsString u) KConnect
            (set_selectedVideo u s1)
      | [] => run_cont KConnect s1
      end
  | Rejected => run_cont KConnect (console_error "Error loading video list:" s)
  end.

Definition connectToMotherDuck (s : State) : State :=
  suspend (PInit {| mdToken := token s |}) (set_isLoading true s).

Definition connectToMotherDuck_settled (o : Outcome) (c : MDConnection)
    (s : State) : State :=
  match o with
  | Fulfilled => loadAvailableVideos c (set_conn (Some c) s)
  | Rejected =>
      set_isLoading false (console_error "Error connecting to MotherDuck:" s)
  end.

(** *** Playback *)

(** [metadata?.fps || 25] *)
Definition effective_fps (m : option Metadata) : Z :=
  match m with
  | Some meta => if fps meta =? 0 then 25 else fps meta
  | None => 25
  end.

Definition playVideo (s : State) : State :=
  match frameInterval s with
  | Some _ => s
  | None =>
      if totalFrames s =? 0 then s
      else
        let t := {| timer_id := next_timer s;
                    timer_delay :=
                      Qdiv (inject_Z 1000)
                           (inject_Z (effective_fps (metadata s)));
                    timer_total := totalFrames s |} in
        set_frameInterval (Some (timer_id t))
          (set_next_timer (Pos.succ (next_timer s))
             (set_timers (timers s ++ [t])
                (set_isPlaying true s)))
  end.

Definition clearInterval (id : positive) (s : State) : State :=
  set_timers (filter (fun t => negb (Pos.eqb (timer_id t) id)) (timers s)) s.

Definition pauseVideo (s : State) : State :=
  set_isPlaying false
    match frameInterval s with
    | Some id => set_frameInterval None (clearInterval id s)
    | None => s
    end.

(** The interval's callback: [setCurrentFrame(prev => (prev + 1) % totalFrames)]
    with the [totalFrames] of the closure; [%] is the truncated remainder. *)
Definition tick (t : Timer) (s : State) : State :=
  set_currentFrame (Z.rem (currentFrame s + 1) (timer_total t)) s.

(** The slider's [onChange]. *)
Definition seek (n : Z) (s : State) : State := set_currentFrame n s.

(** [setSelectedVideo(url); await loadVideoMetadata(url)]: one argument. *)
Definition handleVideoSelect (url : string) (s : State) : State :=
  loadVideoMetadata (JsString url) JsUndefined KReturn
    (set_selectedVideo url s).

(** *** Rendering and effects *)

(** [width={canvasSize.width * 4}]: [null * 4] is [0]. *)
Definition canvas_attr (n : option Z) : Z :=
  match n with
  | Some z => z * 4
  | None => 0
  end.

(** The canvas element after a render: present when [conn] is set, with the
    bitmap reset when a dimension changed. *)
Definition sync_canvas (s : State) : State :=
  match conn s with
  | None => set_canvas None s
  | Some _ =>
      let w := dom_dim (canvas_attr (width (canvasSize s))) 300 in
      let h := dom_dim (canvas_attr (height (canvasSize s))) 150 in
      match canvas s with
      | Some cv =>
          if (cwidth cv =? w) && (cheight cv =? h) then s
          else set_canvas (Some (blank w h)) s
      | None => set_canvas (Some (blank w h)) s
      end
  end.

Definition conn_eqb (a b : option MDConnection) : bool :=
  match a, b with
  | None, None => true
  | Some c, Some d => String.eqb (mdToken c) (mdToken d)
  | _, _ => false
  end.

(** The dependencies [currentFrame, loadFrame] of the first effect;
    [loadFrame] is renewed when [conn] or [selectedVideo] changes. *)
Definition loadFrame_deps_changed (old new : State) : bool :=
  negb ((currentFrame old =? currentFrame new)
        && conn_eqb (conn old) (conn new)
        && String.eqb (selectedVideo old) (selectedVideo new)).

(** A render after the state went from [old] to [new]: the canvas element
    is brought up to date, then [loadFrame(currentFrame)] runs if its
    dependencies changed, then [renderFrame()] runs if [fresh], that is if
    [setPixels], [setCanvasSize] or [setMetadata] stored a new array or
    object. *)
Definition commit (fresh : bool) (old new : State) : State :=
  let s1 := sync_canvas new in
  let s2 := if loadFrame_deps_changed old s1
            then loadFrame (currentFrame s1) s1 else s1 in
  if fresh then renderFrame s2 else s2.

(** *** Events *)

Inductive Event :=
| TypeToken (t : string)          (* the token input's onChange *)
| Submit                          (* the form's onSubmit *)
| Settle (n : nat) (o : Outcome)  (* the n-th pending operation settles *)
| SelectVideo (url : string)      (* the select's onChange *)
| ClickPlayPause                  (* the button's onClick *)
| Play                            (* playVideo() *)
| Pause                           (* pauseVideo() *)
| Seek (n : Z)                    (* the slider's onChange *)
| Tick (id : positive).           (* an interval fires *)

Definition remove_nth {A : Type} (n : nat) (l : list A) : list A :=
  firstn n l ++ skipn (S n) l.

Definition settle (p : Pending) (o : Outcome) (s : State) : State :=
  match p with
  | PInit c => connectToMotherDuck_settled o c s
  | PVideos c => loadAvailableVideos_settled o c s
  | PMeta _ url k => loadVideoMetadata_settled o url k s
  | PFrame _ frameId url => loadFrame_settled o frameId url s
  end.

(** Whether settling stores a new [pixels], [canvasSize] or [metadata]. *)
Definition settles_fresh (p : Pending) (o : Outcome) : bool :=
  match p, o with
  | PMeta _ _ _, Fulfilled => true
  | PFrame _ _ _, Fulfilled => true
  | _, _ => false
  end.

Definition connected (s : State) : bool :=
  match conn s with
  | Some _ => true
  | None => false
  end.

(** The controls are rendered only when connected, the form only when not;
    [disabled] controls, values outside the slider's range and the option
    already selected raise no event.  [Play] and [Pause] are calls of
    [playVideo] and [pauseVideo] whatever the button shows. *)
Definition step (s : State) (e : Event) : State :=
  match e with
  | TypeToken t => if connected s then s else set_token t s
  | Submit =>
      if connected s || isLoading s || String.eqb (token s) EmptyString then s
      else commit false s (connectToMotherDuck s)
  | Settle n o =>
      match nth_error (inflight s) n with
      | Some p =>
          commit (settles_fresh p o) s
            (settle p o (set_inflight (remove_nth n (inflight s)) s))
      | None => s
      end
  | SelectVideo url =>
      if connected s && existsb (String.eqb url) (videoUrls s)
         && negb (String.eqb url (selectedVideo s))
      then commit false s (handleVideoSelect url s) else s
  | ClickPlayPause =>
      if connected s && negb (totalFrames s =? 0)
      then commit false s (if isPlaying s then pauseVideo s else playVideo s)
      else s
  | Play => commit false s (playVideo s)
  | Pause => commit false s (pauseVideo s)
  | Seek n =>
      if connected s && negb (totalFrames s =? 0)
         && (0 <=? n) && (n <=? Z.max 0 (totalFrames s - 1))
      then commit false s (seek n s) else s
  | Tick id =>
      match find (fun t => Pos.eqb (timer_id t) id) (timers s) with
      | Some t => commit false s (tick t s)
      | None => s
      end
  end.

Definition run (s : State) (es : list Event) : State := fold_left step es s.

End Player.

(** ** The encoder configuration

    [ducktube/spec.json] declares the connector's configuration as a JSON
    Schema (draft-07).  The schema is transcribed as data; [valid] is what
    the schema's keywords mean for a configuration object. *)

Module Config.
Import Store.

Inductive Json :=
| JNull
| JBool (v : bool)
| JInt (z : Z)
| JStr (str : string)
| JOther.   (* a number that is no integer, an array, an object *)

(** A JSON object, as its members in order. *)
Definition Object := list (string * Json).

Fixpoint lookup (key : string) (o : Object) : option Json :=
  match o with
  | [] => None
  | (k, v) :: o' => if String.eqb k key then Some v else lookup key o'
  end.

Inductive JType := TString | TInteger.

Record Property := {
  p_type : JType;
  p_default : option Json;
  p_minimum : option Z;
  p_maximum : option Z;
  p_enum : option (list string);
  p_pattern : option string
}.

Record Schema := {
  required : list string;
  additionalProperties : bool;
  properties : list (string * Property)
}.

Definition integer_property (dflt : Z) (lo hi : option Z) : Property :=
  {| p_type := TInteger; p_default := Some (JInt dflt); p_minimum := lo;
     p_maximum := hi; p_enum := None; p_pattern := None |}.

(** The [connectionSpecification] of spec.json. *)
Definition connectionSpecification : Schema :=
  {| required := ["url"];
     additionalProperties := false;
     properties :=
       [ ("url",
          {| p_type := TString; p_default := None; p_minimum := None;
             p_maximum := None; p_enum := None;
             p_pattern := Some "^https?://" |});
         ("target_width", integer_property 160 (Some 16) None);
         ("target_height", integer_property 90 (Some 9) None);
         ("mode",
          {| p_type := TString; p_default := Some (JStr "binary");
             p_minimum := None; p_maximum := None;
             p_enum := Some ["binary"; "grayscale"; "color"];
             p_pattern := None |});
         ("threshold", integer_property 128 (Some 0) (Some 255));
         ("max_duration", integer_property 10 (Some 1) None) ] |}.

(** The patterns in use are a sequence of characters, each possibly followed
    by [?], possibly anchored by a leading [^]. *)
Fixpoint pattern_items (p : string) : list (ascii * bool) :=
  match p with
  | EmptyString => []
  | String c (String "?"%char p') => (c, true) :: pattern_items p'
  | String c p' => (c, false) :: pattern_items p'
  end.

Fixpoint match_here (items : list (ascii * bool)) (str : string) : bool :=
  match items with
  | [] => true
  | (c, optional) :: items' =>
      match str with
      | String d str' => Ascii.eqb c d && match_here items' str'
      | EmptyString => false
      end
      || (optional && match_here items' str)
  end.

Fixpoint match_anywhere (items : list (ascii * bool)) (str : string) : bool :=
  match_here items str
  || match str with
     | String _ str' => match_anywhere items str'
     | EmptyString => false
     end.

Definition pattern_test (p str : string) : bool :=
  match p with
  | String "^"%char p' => match_here (pattern_items p') str
  | _ => match_anywhere (pattern_items p) str
  end.

Definition holds {A : Type} (o : option A) (f : A -> bool) : bool :=
  match o with
  | Some a => f a
  | None => true
  end.

(** A member's value against its property: [type], then the keywords that
    apply to that type. *)
Definition valid_value (p : Property) (v : Json) : bool :=
  match p_type p, v with
  | TInteger, JInt z =>
      holds (p_minimum p) (fun lo => lo <=? z)
      && holds (p_maximum p) (fun hi => z <=? hi)
  | TString, JStr str =>
      holds (p_enum p) (existsb (String.eqb str))
      && holds (p_pattern p) (fun pat => pattern_test pat str)
  | _, _ => false
  end.

Fixpoint property_of (key : string) (ps : list (string * Property))
    : option Property :=
  match ps with
  | [] => None
  | (k, p) :: ps' => if String.eqb k key then Some p else property_of key ps'
  end.

Definition valid_member (sch : Schema) (kv : string * Json) : bool :=
  match property_of (fst kv) (properties sch) with
  | Some p => valid_value p (snd kv)
  | None => additionalProperties sch
  end.

Definition is_some {A : Type} (o : option A) : bool :=
  match o with
  | Some _ => true
  | None => false
  end.

Definition valid (sch : Schema) (cfg : Object) : bool :=
  forallb (fun key => is_some (lookup key cfg)) (required sch)
  && forallb (valid_member sch) cfg.

(** A member's value, or the schema's default. *)
Definition int_option (key : string) (cfg : Object) : Z :=
  match lookup key cfg with
  | Some (JInt z) => z
  | _ =>
      match property_of key (properties connectionSpecification) with
      | Some {| p_default := Some (JInt z) |} => z
      | _ => 0
      end
  end.

Definition mode_option (cfg : Object) : string :=
  match lookup "mode" cfg with
  | Some (JStr str) => str
  | _ => "binary"
  end.

(** A decoded frame of the source video: its index, its time in seconds from
    the start, its size and its samples. *)
Record Sample := { luminance : Z; s_r : Z; s_g : Z; s_b : Z }.

Record RasterFrame := {
  rf_id : Z;
  rf_time : Z;
  rf_width : Z;
  rf_height : Z;
  rf_sample : Z -> Z -> Sample
}.

Inductive Error := ConfigError.

Record Job := {
  job_error : option Error;
  frames_processed : nat;
  records : list PixelRecord
}.

(** Modelled from the spec: the encoder (the connector's Python code is not
    among the sources).  Section 4.1: a frame is resized to the target size
    by nearest neighbour; binary mode emits a record with value 1 where the
    luminance exceeds the threshold, grayscale one record per pixel with the
    luminance, color one record per pixel with the RGB triple. *)
Definition encode_pixel (cfg : Object) (f : RasterFrame) (px py : Z)
    : list PixelRecord :=
  let smp := rf_sample f (px * rf_width f / int_option "target_width" cfg)
                         (py * rf_height f / int_option "target_height" cfg) in
  let rec v cr cg cb :=
    {| frame_id := rf_id f; x := px; y := py; value := v; r := cr; g := cg;
       b := cb; video_url :=
         match lookup "url" cfg with Some (JStr u) => u | _ => EmptyString end;
       processed_at := 0 |} in
  let m := mode_option cfg in
  if String.eqb m "binary" then
    if int_option "threshold" cfg <? luminance smp
    then [rec (Some 1) None None None] else []
  else if String.eqb m "grayscale" then
    [rec (Some (luminance smp)) None None None]
  else
    [rec None (Some (s_r smp)) (Some (s_g smp)) (Some (s_b smp))].

Definition range (n : Z) : list Z := map Z.of_nat (seq 0 (Z.to_nat n)).

Definition encode (cfg : Object) (f : RasterFrame) : list PixelRecord :=
  flat_map (fun py =>
    flat_map (fun px => encode_pixel cfg f px py)
      (range (int_option "target_width" cfg)))
    (range (int_option "target_height" cfg)).

(** Modelled from the spec: the encode job (not among the sources).
    Sections 4.1 and 7: an invalid configuration is rejected with
    ConfigError before any frame is processed; frames later than
    [max_duration] seconds are dropped, the others encoded. *)
Definition run_job (cfg : Object) (frames : list RasterFrame) : Job :=
  if valid connectionSpecification cfg then
    let kept :=
      filter (fun f => rf_time f <=? int_option "max_duration" cfg) frames in
    {| job_error := None;
       frames_processed := List.length kept;
       records := flat_map (encode cfg) kept |}
  else
    {| job_error := Some ConfigError; frames_processed := 0; records := [] |}.

End Config.

(** ** Vocabulary of the properties *)

Module Props.
Import Store Canvas Player.

(** [m] is the largest element of [l]. *)
Definition is_max (l : list Z) (m : Z) : Prop :=
  In m l /\ forall z, In z l -> z <= m.


(** The records of video [url] in [t]. *)
Definition of_video (t : Table) (url : string) (p : PixelRecord) : Prop :=
  In p t /\ video_url p = url.

(** The block of [k] x [k] canvas pixels that [draw_pixel] fills for row [p]
    contains the canvas pixel [(cx, cy)]. *)
Definition covers (k : Z) (p : Pixel) (cx cy : Z) : bool :=
  in_span (px_x p * k) k cx && in_span (px_y p * k) k cy.

(** The colour [set_fillStyle] assigns for a row, when it assigns one. *)
Definition row_color (md : string) (p : Pixel) : option Color :=
  if String.eqb md "binary" then
    match px_value p with
    | Some 1 => Some black
    | _ => Some white
    end
  else if String.eqb md "grayscale" then
    option_map (fun v => css_rgb v v v) (px_value p)
  else if String.eqb md "color" then
    match px_r p, px_g p, px_b p with
    | Some cr, Some cg, Some cb => Some (css_rgb cr cg cb)
    | _, _, _ => None
    end
  else None.

(** Every row carries the payload of the mode. *)
Definition carries_payload (md : string) (rows : list Pixel) : Prop :=
  forall p, In p rows -> row_color md p <> None.

(** [x] in [0, w) and [y] in [0, h). *)
Definition in_range (w h : Z) (p : Pixel) : bool :=
  (0 <=? px_x p) && (px_x p <? w) && (0 <=? px_y p) && (px_y p <? h).

(** The canvas the component renders for a [w] x [h] video. *)
Definition canvas_for (w h : Z) (cv : Canvas2D) : Prop :=
  cwidth cv = w * 4 /\ cheight cv = h * 4.

(** The mode of section 3 of the design document: color if any [r] is
    present, else binary if all observed values are 0 or 1, else
    grayscale. *)
Definition documented_mode (rows : list PixelRecord) : string :=
  if existsb (fun p => match r p with Some _ => true | None => false end) rows
  then "color"
  else if forallb (fun p => match value p with
                            | Some v => (v =? 0) || (v =? 1)
                            | None => true
                            end) rows
       then "binary"
       else "grayscale".

(** The pixel of the component's canvas, if any. *)
Definition shown (s : State) (cx cy : Z) : option Color :=
  match canvas s with
  | Some cv => getPixel cv cx cy
  | None => None
  end.

(** The canvas shows the background everywhere. *)
Definition all_background (s : State) : Prop :=
  exists cv, canvas s = Some cv
    /\ forall cx cy, on_bitmap cv cx cy = true -> bitmap cv cx cy = white.

(** The background of section 4.3 of the design document, as the player
    draws it: value 0 in binary mode is drawn white and in grayscale mode
    rgb(0,0,0); the color background is black. *)
Definition documented_background (md : string) : Color :=
  if String.eqb md "binary" then white else black.

(** Two canvases of the same size show the same pixels. *)
Definition agree (c1 c2 : Canvas2D) : Prop :=
  cwidth c1 = cwidth c2 /\ cheight c1 = cheight c2
  /\ forall cx cy, on_bitmap c1 cx cy = true ->
                   bitmap c1 cx cy = bitmap c2 cx cy.

(** Something was written to the console. *)
Definition logged (before after : State) : Prop :=
  (List.length (console before) < List.length (console after))%nat.

(** What a render leaves alone: every cell but the canvas and the list of
    pending operations. *)
Definition core (s : State) :=
  (conn s, canvasSize s, currentFrame s, isPlaying s, totalFrames s,
   pixels s, isLoading s, metadata s, videoUrls s, selectedVideo s, token s,
   frameInterval s, timers s, next_timer s, console s, store s).

(** The frame whose rows event [e] delivers in state [s], if it delivers
    any: the fetch that settles, fulfilled. *)
Definition arrival (s : State) (e : Event) : option (Z * string) :=
  match e with
  | Settle n Fulfilled =>
      match nth_error (inflight s) n with
      | Some (PFrame _ frameId url) => Some (frameId, url)
      | _ => None
      end
  | _ => None
  end.

(** The last frame delivered along [es], [acc] if none is. *)
Fixpoint last_arrival (s : State) (es : list Event) (acc : option (Z * string))
    : option (Z * string) :=
  match es with
  | [] => acc
  | e :: es' =>
      last_arrival (step s e) es'
        match arrival s e with
        | Some a => Some a
        | None => acc
        end
  end.

(** [frameInterval.current] holds the id of the one interval that runs, or
    is [null] and none runs. *)
Definition single_timer (s : State) : Prop :=
  match frameInterval s with
  | Some id => exists t, timers s = [t] /\ timer_id t = id
  | None => timers s = []
  end.

(** The operations of the connect chain, as opposed to frame fetches. *)
Definition is_chain (p : Pending) : bool :=
  match p with
  | PFrame _ _ _ => false
  | _ => true
  end.

Definition chain (s : State) : list Pending := filter is_chain (inflight s).

(** What holds of every state the component reaches. *)
Definition Inv (s : State) : Prop :=
  single_timer s
  /\ (isPlaying s = true <-> frameInterval s <> None)
  /\ 0 <= currentFrame s
  /\ (forall t, In t (timers s) ->
                timer_total t = totalFrames s /\ timer_total t <> 0)
  /\ (List.length (chain s) <= 1)%nat
  /\ (chain s <> [] -> isLoading s = true /\ totalFrames s = 0)
  /\ (conn s = None ->
      totalFrames s = 0 /\ forall p, In p (chain s) -> exists c, p = PInit c)
  /\ (forall t, In t (timers s) ->
                timer_delay t
                = Qdiv (inject_Z 1000)
                       (inject_Z (effective_fps (metadata s)))).

(** The metadata in effect: its [fps] is the constant that
    [loadVideoMetadata] stores, and there is one whenever there are
    frames. *)
Definition metadata_ok (s : State) : Prop :=
  (forall meta, metadata s = Some meta -> fps meta = 25)
  /\ (totalFrames s <> 0 -> metadata s <> None).

End Props.

(** ** Sample stores and sessions *)

Module Examples.
Import Store Canvas Player.

Definition binary_record (url : string) (f px py : Z) : PixelRecord :=
  {| frame_id := f; x := px; y := py; value := Some 1; r := None; g := None;
     b := None; video_url := url; processed_at := 0 |}.

Definition gray_record (url : string) (f px py v : Z) : PixelRecord :=
  {| frame_id := f; x := px; y := py; value := Some v; r := None; g := None;
     b := None; video_url := url; processed_at := 0 |}.

Definition color_record (url : string) (f px py cr cg cb : Z) : PixelRecord :=
  {| frame_id := f; x := px; y := py; value := None; r := Some cr;
     g := Some cg; b := Some cb; video_url := url; processed_at := 0 |}.

(** A 2 x 1 binary video of six frames; frame 3 lights the right pixel only,
    frame 5 the left pixel only, the other frames both. *)
Definition six_frames : Table :=
  flat_map (fun f => [binary_record "a" f 0 0; binary_record "a" f 1 0])
           [0; 1; 2; 4]
  ++ [binary_record "a" 3 1 0; binary_record "a" 5 0 0].

(** A 2 x 2 binary video: frame 0 fully on, frame 1 fully off (no record),
    frame 2 with one pixel on. *)
Definition dark_frame : Table :=
  [binary_record "a" 0 0 0; binary_record "a" 0 1 0;
   binary_record "a" 0 0 1; binary_record "a" 0 1 1;
   binary_record "a" 2 1 1].

(** A 2 x 1 color video whose frame 0 has a record for the left pixel
    only. *)
Definition sparse_color : Table :=
  [color_record "a" 0 0 0 10 20 30; color_record "a" 1 1 0 40 50 60].

(** Two videos: "a", 2 x 1 binary with one frame, and "b", 3 x 1 grayscale
    with two frames. *)
Definition two_videos : Table :=
  [binary_record "a" 0 0 0; binary_record "a" 0 1 0;
   gray_record "b" 0 0 0 50; gray_record "b" 0 1 0 100;
   gray_record "b" 0 2 0 200;
   gray_record "b" 1 0 0 60; gray_record "b" 1 1 0 110;
   gray_record "b" 1 2 0 210].

(** Typing a token and connecting, with every operation answered in turn:
    initialisation, the video list, the metadata of the first video, its
    frame 0. *)
Definition connect_events : list Event :=
  [TypeToken "token"; Submit; Settle 0 Fulfilled; Settle 0 Fulfilled;
   Settle 0 Fulfilled; Settle 0 Fulfilled].

Definition ready (t : Table) : State := run (initial t) connect_events.

(** The canvas element of a connected session. *)
Definition canvas_of (s : State) : Canvas2D :=
  match canvas s with
  | Some cv => cv
  | None => blank 0 0
  end.

(** The fully dark frame 1 arrives while frame 0 is on screen. *)
Definition dark_frame_arrived : State :=
  run (ready dark_frame) [Seek 1; Settle 0 Fulfilled].

(** Video "b" is picked in the select, and its frame 0 arrives. *)
Definition b_selected : State :=
  run (ready two_videos) [SelectVideo "b"; Settle 0 Fulfilled].

(** Playback of the six frames, started with the button. *)
Definition playing : State := run (ready six_frames) [ClickPlayPause].

(** A 1 x 1 binary video of three frames, and the events that connect and
    start its playback. *)
Definition three_frames : Table :=
  [binary_record "a" 0 0 0; binary_record "a" 1 0 0; binary_record "a" 2 0 0].

Definition playing_three : list Event := connect_events ++ [ClickPlayPause].

(** Frames 3 and 5 of the six are fetched, in that order, and neither
    fetch has been answered. *)
Definition two_fetches : State := run (ready six_frames) [Seek 3; Seek 5].

(** A configuration with [target_width] 8, and one with every option at
    an admissible value. *)
Definition narrow_config : Config.Object :=
  [("url", Config.JStr "https://example.org/v");
   ("target_width", Config.JInt 8)].

Definition sample_config : Config.Object :=
  [("url", Config.JStr "https://example.org/v");
   ("target_width", Config.JInt 160); ("target_height", Config.JInt 90);
   ("mode", Config.JStr "grayscale"); ("threshold", Config.JInt 128);
   ("max_duration", Config.JInt 10)].

End Examples.

(** ** The controls

    What the component's JSX computes from the state for the form, the
    button, the slider and the frame counter. *)

Module Controls.
Import Store Canvas Player.

(** [!conn ? <form> : <> ... </>] *)
Definition form_shown (s : State) : bool := negb (connected s).

(** [disabled={isLoading || !token}] of the submit button. *)
Definition submit_disabled (s : State) : bool :=
  isLoading s || String.eqb (token s) EmptyString.

(** [disabled={totalFrames === 0}] of the button and of the slider. *)
Definition controls_disabled (s : State) : bool := totalFrames s =? 0.

(** [{isPlaying ? 'Pause' : 'Play'}] *)
Definition button_label (s : State) : string :=
  if isPlaying s then "Pause" else "Play".

(** [max={Math.max(0, totalFrames - 1)}] of the slider, whose [min] is 0. *)
Definition slider_max (s : State) : Z := Z.max 0 (totalFrames s - 1).


End Controls.

(** ** Further vocabulary *)

Module Props2.
Import Store Canvas Player Props Controls.

(** The canvas element is there exactly when the component is connected,
    and it has the size the JSX gives it. *)
Definition synced (s : State) : Prop :=
  match conn s with
  | None => canvas s = None
  | Some _ =>
      exists cv, canvas s = Some cv
        /\ cwidth cv = dom_dim (canvas_attr (width (canvasSize s))) 300
        /\ cheight cv = dom_dim (canvas_attr (height (canvasSize s))) 150
  end.

(** The pending operations are those the connect chain can have issued. *)
Definition pending_ok (s : State) (p : Pending) : Prop :=
  match p with
  | PInit _ => conn s = None
  | PVideos _ => conn s <> None
  | PMeta _ _ k => conn s <> None /\ k = KConnect
  | PFrame c _ url => conn s = Some c /\ url <> EmptyString
  end.

(** More of what holds of every state the component reaches. *)
Definition Inv2 (s : State) : Prop :=
  0 <= totalFrames s
  /\ currentFrame s <= slider_max s
  /\ (forall p, In p (inflight s) -> pending_ok s p)
  /\ (isLoading s = true -> chain s <> []).

(** Two canvases show the same pixels and have the same fill style. *)
Definition same_paint (c1 c2 : Canvas2D) : Prop :=
  agree c1 c2 /\ fillStyle c1 = fillStyle c2.

(** Row [p] is at the position of the video that canvas pixel [(cx, cy)]
    belongs to. *)
Definition at_pixel (p : Pixel) (cx cy : Z) : Prop :=
  px_x p = cx / 4 /\ px_y p = cy / 4.

(** [p] is the last row of [rows] at the position of [(cx, cy)]. *)
Definition last_at (rows : list Pixel) (p : Pixel) (cx cy : Z) : Prop :=
  exists l1 l2, rows = l1 ++ p :: l2 /\ at_pixel p cx cy
                /\ forall q, In q l2 -> ~ at_pixel q cx cy.

Definition yx_le (p q : Pixel) : Prop := yx_leb p q = true.

Definition url_le (u v : string) : Prop := String.leb u v = true.

(** The select and its value: either no video is listed and none is
    selected, or the list is the answer of the video query and the selected
    video is one of it. *)
Definition selection_ok (s : State) : Prop :=
  (videoUrls s = [] /\ selectedVideo s = EmptyString)
  \/ (videoUrls s = videos_query (store s)
      /\ In (selectedVideo s) (videoUrls s)).

(** A pending query with a url spliced into it is for a video of the
    list. *)
Definition pending_listed (s : State) (p : Pending) : Prop :=
  match p with
  | PMeta _ url _ => In url (videos_query (store s))
  | PFrame _ _ url => In url (videos_query (store s))
  | _ => True
  end.

Definition all_listed (s : State) : Prop :=
  forall p, In p (inflight s) -> pending_listed s p.

End Props2.

(** ** Vocabulary for the configuration *)

Module ConfigProps.
Import Config.

(** What spec.json admits for a member of the configuration. *)
Definition admissible (kv : string * Json) : Prop :=
  let (k, v) := kv in
  (k = "url"
   /\ exists str, v = JStr str
        /\ (prefix "http://" str = true \/ prefix "https://" str = true))
  \/ (k = "target_width" /\ exists z, v = JInt z /\ 16 <= z)
  \/ (k = "target_height" /\ exists z, v = JInt z /\ 9 <= z)
  \/ (k = "mode"
      /\ (v = JStr "binary" \/ v = JStr "grayscale" \/ v = JStr "color"))
  \/ (k = "threshold" /\ exists z, v = JInt z /\ 0 <= z <= 255)
  \/ (k = "max_duration" /\ exists z, v = JInt z /\ 1 <= z).

(** The default spec.json declares for an option, if any. *)
Definition default_of (key : string) : option Json :=
  match property_of key (properties connectionSpecification) with
  | Some p => p_default p
  | None => None
  end.

(** The pattern items that match the characters of [str], none optional. *)
Fixpoint literally (str : string) : list (ascii * bool) :=
  match str with
  | EmptyString => []
  | String c str' => (c, false) :: literally str'
  end.

End ConfigProps.

(** * Properties *)

Import Store Canvas Player Props Examples.

(** ** The metadata query *)

Lemma sql_max_is_max (l : list Z) :
  l <> [] -> exists m, sql_max l = Some m /\ is_max l m.
Proof.
  induction l as [|z l IH]; [congruence|]. intros _.
  destruct l as [|z' l'].
  - exists z. simpl. split; [reflexivity|]. split; [now left|].
    intros ? [<-|[]]. lia.
  - destruct IH as [m [Hm [Hin Hub]]]; [congruence|].
    change (sql_max (z :: z' :: l')) with
      (match sql_max (z' :: l') with
       | None => Some z | Some m' => Some (Z.max z m') end).
    rewrite Hm. exists (Z.max z m). split; [reflexivity|]. split.
    + destruct (Z.max_spec z m) as [[_ ->]|[_ ->]]; [now right|now left].
    + intros y [<-|Hy]; [lia|]. specialize (Hub y Hy). lia.
Qed.

Lemma sql_max_nil_iff (l : list Z) : sql_max l = None <-> l = [].
Proof.
  split; [|now intros ->].
  destruct l as [|z l]; [reflexivity|]. simpl.
  destruct (sql_max l); discriminate.
Qed.

Lemma in_where_video (t : Table) (url : string) (p : PixelRecord) :
  In p (where_video url t) <-> of_video t url p.
Proof.
  unfold where_video, of_video. rewrite filter_In, String.eqb_eq. tauto.
Qed.


Lemma in_non_null (l : list (option Z)) (z : Z) :
  In z (non_null l) <-> In (Some z) l.
Proof.
  induction l as [|[a|] l IH]; simpl.
  - tauto.
  - rewrite IH. split; intros [H|H]; auto; left; congruence.
  - rewrite IH. split; [auto|]. intros [H|H]; [discriminate|assumption].
Qed.

Lemma run_cont_view (k : Cont) (s : State) :
  canvasSize (run_cont k s) = canvasSize s
  /\ metadata (run_cont k s) = metadata s
  /\ totalFrames (run_cont k s) = totalFrames s
  /\ currentFrame (run_cont k s) = currentFrame s
  /\ selectedVideo (run_cont k s) = selectedVideo s
  /\ console (run_cont k s) = console s
  /\ inflight (run_cont k s) = inflight s.
Proof. destruct k; repeat split. Qed.



Lemma observed_column (f : PixelRecord -> option Z) (t : Table)
    (url : string) (z : Z) :
  In z (non_null (map f (where_video url t)))
  <-> exists p, of_video t url p /\ f p = Some z.
Proof.
  rewrite in_non_null, in_map_iff. split.
  - intros [p [E Hp]]. exists p. now rewrite <- in_where_video.
  - intros [p [Hp E]]. exists p. now rewrite in_where_video.
Qed.

Lemma mode_query (t : Table) (url : string) :
  m_mode (metadata_query t url)
  = mode_case (sql_max (non_null (map r (where_video url t))))
              (sql_max (non_null (map value (where_video url t)))).
Proof. reflexivity. Qed.

(** [MAX] of a nullable column of a video is [NULL] exactly when the column
    is [NULL] in all of its records; otherwise it is the largest value
    present. *)
Lemma max_absent (f : PixelRecord -> option Z) (t : Table) (url : string) :
  (forall p, of_video t url p -> f p = None) ->
  sql_max (non_null (map f (where_video url t))) = None.
Proof.
  intros H. apply sql_max_nil_iff.
  destruct (non_null (map f (where_video url t))) as [|z l] eqn:E;
    [reflexivity|].
  assert (Hz : In z (non_null (map f (where_video url t))))
    by (rewrite E; now left).
  apply observed_column in Hz. destruct Hz as [p [Hp Ep]].
  rewrite (H p Hp) in Ep. discriminate.
Qed.

Lemma max_present (f : PixelRecord -> option Z) (t : Table) (url : string) :
  (exists p v, of_video t url p /\ f p = Some v) ->
  exists m, sql_max (non_null (map f (where_video url t))) = Some m
            /\ (exists q, of_video t url q /\ f q = Some m)
            /\ forall p v, of_video t url p -> f p = Some v -> v <= m.
Proof.
  intros [p [v [Hp Ev]]].
  destruct (sql_max_is_max (non_null (map f (where_video url t))))
    as [m [Em [Hin Hub]]].
  { intro En. assert (Hz : In v (non_null (map f (where_video url t))))
      by (apply observed_column; eauto).
    rewrite En in Hz. destruct Hz. }
  exists m. split; [exact Em|]. split.
  - apply observed_column. exact Hin.
  - intros q w Hq Ew. apply Hub. apply observed_column. eauto.
Qed.


(** Case analysis on the records of a sample video. *)
Ltac each_record H :=
  destruct H as [H ?]; vm_compute in H;
  repeat (destruct H as [H|H]; [subst|]); try contradiction.



(** Where no record of a video carries a value or a colour, and so where
    the video has no record at all, the query answers grayscale though all
    of its (no) values are 0 or 1.  The player lists the videos that have a
    record and asks for no other. *)
Lemma mode_of_video_without_values :
  m_mode (metadata_query two_videos "dark")
  <> documented_mode (where_video "dark" two_videos).
Proof. vm_compute. discriminate. Qed.

(** On the data the encoder is documented to write (values are not
    negative) and for a video with a value or a colour on record, the query
    and the documented rule agree. *)
Lemma mode_as_documented (t : Table) (url : string) :
  (exists p, of_video t url p /\ (r p <> None \/ value p <> None)) ->
  (forall p v, of_video t url p -> value p = Some v -> 0 <= v) ->
  m_mode (metadata_query t url) = documented_mode (where_video url t).
Proof.
  intros [p0 [Hp0 Hsome]] Hpos. unfold documented_mode. rewrite mode_query.
  destruct (existsb _ (where_video url t)) eqn:Ex.
  - apply existsb_exists in Ex. destruct Ex as [p [Hp Hrp]].
    apply in_where_video in Hp. destruct (r p) as [z|] eqn:E; [|discriminate].
    destruct (max_present r t url) as [m [-> _]]; [eauto|reflexivity].
  - assert (Hnone : forall p, of_video t url p -> r p = None).
    { intros p Hp. apply in_where_video in Hp.
      destruct (r p) eqn:E; [|reflexivity].
      assert (existsb (fun q => match r q with
                                | Some _ => true
                                | None => false
                                end) (where_video url t) = true)
        by (apply existsb_exists; exists p; rewrite E; auto).
      congruence. }
    assert (Hval : exists p v, of_video t url p /\ value p = Some v).
    { destruct Hsome as [H|H]; [rewrite (Hnone p0 Hp0) in H; congruence|].
      destruct (value p0) as [v|] eqn:E; [|congruence]. eauto. }
    rewrite (max_absent r t url Hnone).
    destruct (max_present value t url Hval) as [m [-> [[q [Hq Eq]] Hub]]].
    simpl.
    destruct (forallb _ (where_video url t)) eqn:Fa.
    + rewrite forallb_forall in Fa. apply in_where_video in Hq.
      specialize (Fa q Hq). rewrite Eq in Fa.
      apply orb_true_iff in Fa. rewrite !Z.eqb_eq in Fa.
      destruct (m <=? 1) eqn:E; [reflexivity|]. apply Z.leb_gt in E. lia.
    + assert (Hex : exists p, In p (where_video url t) /\
                match value p with
                | Some v => (v =? 0) || (v =? 1)
                | None => true
                end = false).
      { clear - Fa. induction (where_video url t) as [|a l IH];
          [discriminate|]. simpl in Fa. apply andb_false_iff in Fa.
        destruct Fa as [H|H].
        - exists a. split; [now left|assumption].
        - destruct (IH H) as [p [Hp E]]. exists p.
          split; [now right|assumption]. }
      destruct Hex as [p [Hp E]]. apply in_where_video in Hp.
      destruct (value p) as [v|] eqn:Ev; [|discriminate].
      apply orb_false_iff in E. rewrite !Z.eqb_neq in E.
      specialize (Hpos p v Hp Ev). specialize (Hub p v Hp Ev).
      destruct (m <=? 1) eqn:E1; [|reflexivity]. apply Z.leb_le in E1. lia.
Qed.

(** ** Painting *)

Lemma set_fillStyle_view (md : string) (p : Pixel) (c : Canvas2D) :
  cwidth (set_fillStyle md p c) = cwidth c
  /\ cheight (set_fillStyle md p c) = cheight c
  /\ bitmap (set_fillStyle md p c) = bitmap c
  /\ fillStyle (set_fillStyle md p c)
     = match row_color md p with Some col => col | None => fillStyle c end.
Proof.
  unfold set_fillStyle, row_color.
  destruct (String.eqb md "binary").
  { destruct (px_value p) as [[|[| |]|]|]; repeat split. }
  destruct (String.eqb md "grayscale").
  { destruct (px_value p); repeat split. }
  destruct (String.eqb md "color"); [|repeat split].
  destruct (px_r p), (px_g p), (px_b p); repeat split.
Qed.

Lemma on_bitmap_set_fillStyle (md : string) (p : Pixel) (c : Canvas2D)
    (cx cy : Z) :
  on_bitmap (set_fillStyle md p c) cx cy = on_bitmap c cx cy.
Proof.
  unfold on_bitmap.
  destruct (set_fillStyle_view md p c) as (-> & -> & _). reflexivity.
Qed.

Lemma draw_pixel_view (md : string) (k : Z) (c : Canvas2D) (p : Pixel) :
  cwidth (draw_pixel md (Some k) c p) = cwidth c
  /\ cheight (draw_pixel md (Some k) c p) = cheight c
  /\ forall cx cy,
       bitmap (draw_pixel md (Some k) c p) cx cy
       = if covers k p cx cy && on_bitmap c cx cy
         then match row_color md p with
              | Some col => col
              | None => fillStyle c
              end
         else bitmap c cx cy.
Proof.
  unfold draw_pixel. simpl.
  destruct (set_fillStyle_view md p c) as (Hw & Hh & Hb & Hs).
  repeat split; try assumption.
  intros cx cy. rewrite on_bitmap_set_fillStyle, Hb, Hs. reflexivity.
Qed.

Lemma on_bitmap_draw_pixel (md : string) (k : Z) (c : Canvas2D) (p : Pixel)
    (cx cy : Z) :
  on_bitmap (draw_pixel md (Some k) c p) cx cy = on_bitmap c cx cy.
Proof.
  unfold on_bitmap.
  destruct (draw_pixel_view md k c p) as (-> & -> & _). reflexivity.
Qed.

Lemma draw_all_dims (md : string) (k : Z) (rows : list Pixel) (c : Canvas2D) :
  cwidth (fold_left (draw_pixel md (Some k)) rows c) = cwidth c
  /\ cheight (fold_left (draw_pixel md (Some k)) rows c) = cheight c.
Proof.
  revert c. induction rows as [|p rows IH]; intro c; [split; reflexivity|].
  simpl. destruct (IH (draw_pixel md (Some k) c p)) as [-> ->].
  destruct (draw_pixel_view md k c p) as (-> & -> & _). split; reflexivity.
Qed.

(** A pixel no row covers keeps its colour. *)
Lemma draw_all_uncovered (md : string) (k : Z) (rows : list Pixel)
    (c : Canvas2D) (cx cy : Z) :
  (forall p, In p rows -> covers k p cx cy = false) ->
  bitmap (fold_left (draw_pixel md (Some k)) rows c) cx cy = bitmap c cx cy.
Proof.
  revert c. induction rows as [|p rows IH]; intros c H; [reflexivity|].
  simpl. rewrite IH by (intros q Hq; apply H; now right).
  destruct (draw_pixel_view md k c p) as (_ & _ & ->).
  rewrite (H p) by now left. reflexivity.
Qed.

(** A pixel on the bitmap has the colour of the last row that covers it. *)
Lemma draw_all_last (md : string) (k : Z) (l1 l2 : list Pixel) (p : Pixel)
    (c : Canvas2D) (cx cy : Z) (col : Color) :
  on_bitmap c cx cy = true ->
  covers k p cx cy = true ->
  (forall q, In q l2 -> covers k q cx cy = false) ->
  row_color md p = Some col ->
  bitmap (fold_left (draw_pixel md (Some k)) (l1 ++ p :: l2) c) cx cy = col.
Proof.
  intros Hon Hp Hl2 Hcol. rewrite fold_left_app. simpl.
  rewrite draw_all_uncovered by assumption.
  destruct (draw_pixel_view md k
              (fold_left (draw_pixel md (Some k)) l1 c) p) as (_ & _ & ->).
  rewrite Hp, Hcol. unfold on_bitmap.
  destruct (draw_all_dims md k l1 c) as [-> ->].
  unfold on_bitmap in Hon. rewrite Hon. reflexivity.
Qed.

Lemma covers_position (p : Pixel) (cx cy : Z) :
  covers 4 p cx cy = true <-> px_x p = cx / 4 /\ px_y p = cy / 4.
Proof.
  unfold covers, in_span.
  rewrite !andb_true_iff, !Z.leb_le, !Z.ltb_lt.
  pose proof (Z.div_mod cx 4 ltac:(lia)) as Hx.
  pose proof (Z.mod_pos_bound cx 4 ltac:(lia)) as Hxb.
  pose proof (Z.div_mod cy 4 ltac:(lia)) as Hy.
  pose proof (Z.mod_pos_bound cy 4 ltac:(lia)) as Hyb.
  lia.
Qed.

(** A row that covers a pixel of the canvas of a [w] x [h] video is in
    range: the block of a row out of range lies off the bitmap. *)
Lemma covers_in_range (w h : Z) (c : Canvas2D) (p : Pixel) (cx cy : Z) :
  canvas_for w h c ->
  on_bitmap c cx cy = true ->
  covers 4 p cx cy = true ->
  in_range w h p = true.
Proof.
  intros [Hw Hh] Hon Hc. unfold on_bitmap in Hon. unfold in_range.
  unfold covers, in_span in Hc.
  rewrite !andb_true_iff, !Z.leb_le, !Z.ltb_lt in *. lia.
Qed.

Lemma agree_getPixel (c1 c2 : Canvas2D) :
  agree c1 c2 -> forall cx cy, getPixel c1 cx cy = getPixel c2 cx cy.
Proof.
  intros (Hw & Hh & Hb) cx cy. unfold getPixel.
  assert (E : on_bitmap c2 cx cy = on_bitmap c1 cx cy)
    by (unfold on_bitmap; now rewrite Hw, Hh).
  rewrite E. destruct (on_bitmap c1 cx cy) eqn:Hon; [|reflexivity].
  now rewrite Hb.
Qed.

(** Drawing all rows and drawing the rows in range paint the same pixels,
    when every row carries its payload. *)
Lemma draw_in_range_only (md : string) (w h : Z) (rows : list Pixel) :
  carries_payload md rows ->
  forall c1 c2,
    canvas_for w h c1 -> agree c1 c2 ->
    agree (fold_left (draw_pixel md (Some 4)) rows c1)
          (fold_left (draw_pixel md (Some 4)) (filter (in_range w h) rows) c2).
Proof.
  induction rows as [|p rows IH]; intros Hpay c1 c2 Hfor Hag; [assumption|].
  assert (Hpay' : carries_payload md rows)
    by (intros q Hq; apply Hpay; now right).
  destruct (draw_pixel_view md 4 c1 p) as (Hw1 & Hh1 & Hb1).
  assert (Hfor' : canvas_for w h (draw_pixel md (Some 4) c1 p)).
  { destruct Hfor as [Hw Hh]. split; congruence. }
  destruct Hag as (Hw & Hh & Hb).
  simpl. destruct (in_range w h p) eqn:Hin.
  - simpl. apply IH; [assumption..|].
    destruct (draw_pixel_view md 4 c2 p) as (Hw2 & Hh2 & Hb2).
    split; [congruence|]. split; [congruence|].
    intros cx cy Hon. rewrite on_bitmap_draw_pixel in Hon.
    rewrite Hb1, Hb2, Hon.
    assert (E : on_bitmap c2 cx cy = true)
      by (unfold on_bitmap in *; now rewrite <- Hw, <- Hh).
    rewrite E, Hb by assumption.
    destruct (row_color md p) eqn:Ec; [reflexivity|].
    exfalso. apply (Hpay p); [now left|assumption].
  - apply IH; [assumption..|].
    split; [congruence|]. split; [congruence|].
    intros cx cy Hon. rewrite on_bitmap_draw_pixel in Hon.
    rewrite Hb1, <- Hb by assumption.
    destruct (covers 4 p cx cy) eqn:Hc; [|reflexivity].
    rewrite (covers_in_range w h c1 p cx cy Hfor Hon Hc) in Hin. discriminate.
Qed.

(** [renderFrame] past its guards, on the canvas of the video. *)
Lemma renderFrame_paints (s : State) (cv : Canvas2D) (meta : Metadata)
    (w : Z) :
  canvas s = Some cv -> metadata s = Some meta -> pixels s <> [] ->
  width (canvasSize s) = Some w -> 0 < w -> cwidth cv = w * 4 ->
  renderFrame s
  = set_canvas
      (Some (fold_left (draw_pixel (mode meta) (Some 4)) (pixels s)
               (fillRect (with_fillStyle white cv)
                  0 0 (cwidth cv) (cheight cv)))) s.
Proof.
  intros Hc Hm Hp Hw Hpos Hcw. unfold renderFrame. rewrite Hc, Hm, Hw.
  destruct (pixels s) as [|p l] eqn:E; [congruence|]. simpl List.length.
  simpl Nat.eqb. cbv iota. unfold js_div.
  rewrite Hcw. destruct (w =? 0) eqn:E0; [apply Z.eqb_eq in E0; lia|].
  replace (w * 4 / w) with 4; [reflexivity|].
  rewrite Z.mul_comm, Z.div_mul by lia. reflexivity.
Qed.

Lemma background_white (cv : Canvas2D) (cx cy : Z) :
  on_bitmap cv cx cy = true ->
  bitmap (fillRect (with_fillStyle white cv) 0 0 (cwidth cv) (cheight cv))
    cx cy = white.
Proof.
  intros Hon. simpl. unfold on_bitmap in *. simpl. rewrite Hon.
  unfold in_span. rewrite !andb_true_iff, !Z.leb_le, !Z.ltb_lt in Hon.
  replace (_ && _ && true) with true; [reflexivity|].
  symmetry. rewrite !andb_true_iff, !Z.leb_le, !Z.ltb_lt. lia.
Qed.

(** ** C2: the empty row set *)

(** C2, as the code has it.  For every width, height and mode, rendering an
    empty row set is a no-op: [renderFrame] returns at its guard, the canvas
    keeps what it showed and nothing is logged. *)
Theorem empty_rows_not_rendered (s : State) :
  pixels s = [] -> renderFrame s = s.
Proof.
  intros H. unfold renderFrame. rewrite H. destruct (canvas s); reflexivity.
Qed.

Lemma empty_rows_not_rendered_witness :
  pixels dark_frame_arrived = []
  /\ renderFrame dark_frame_arrived = dark_frame_arrived.
Proof.
  assert (H : pixels dark_frame_arrived = []) by (vm_compute; reflexivity).
  split; [exact H|]. exact (empty_rows_not_rendered dark_frame_arrived H).
Defined.

(** C2 as documented fails: when the empty row set of the dark frame 1 is
    rendered over frame 0, the canvas still shows frame 0, whose pixels are
    on (black), not the background. *)
Lemma empty_rows_leave_previous_frame :
  frame_query dark_frame 1 "a" = []
  /\ pixels dark_frame_arrived = []
  /\ shown (renderFrame dark_frame_arrived) 0 0 = Some black
  /\ ~ all_background (renderFrame dark_frame_arrived).
Proof.
  assert (Hs : shown (renderFrame dark_frame_arrived) 0 0 = Some black)
    by (vm_compute; reflexivity).
  split; [vm_compute; reflexivity|].
  split; [vm_compute; reflexivity|].
  split; [exact Hs|].
  intros [cv [Hc Hall]]. unfold shown in Hs. rewrite Hc in Hs. clear Hc.
  unfold getPixel in Hs. destruct (on_bitmap cv 0 0) eqn:Hon; [|discriminate].
  specialize (Hall 0 0 Hon). injection Hs as Hs. rewrite Hall in Hs.
  discriminate.
Qed.

(** ** C3: the background *)

(** C3, as the code has it.  For every non-empty row set, width, height and
    mode, [renderFrame] first fills the whole canvas white, in every mode,
    then paints each row's colour over the block of its [(x, y)]: every
    canvas pixel no row covers is white, and a covered pixel has the colour
    of the last row at its position. *)
Theorem uncovered_pixels_white (s : State) (cv : Canvas2D) (meta : Metadata)
    (w : Z) :
  canvas s = Some cv -> metadata s = Some meta -> pixels s <> [] ->
  width (canvasSize s) = Some w -> 0 < w -> cwidth cv = w * 4 ->
  exists cv',
    canvas (renderFrame s) = Some cv'
    /\ cwidth cv' = cwidth cv /\ cheight cv' = cheight cv
    /\ forall cx cy,
         on_bitmap cv' cx cy = true ->
         ((forall p, In p (pixels s) ->
                     ~ (px_x p = cx / 4 /\ px_y p = cy / 4)) ->
          getPixel cv' cx cy = Some white)
         /\ (forall l1 p l2 col,
               pixels s = l1 ++ p :: l2 ->
               px_x p = cx / 4 /\ px_y p = cy / 4 ->
               (forall q, In q l2 -> ~ (px_x q = cx / 4 /\ px_y q = cy / 4)) ->
               row_color (mode meta) p = Some col ->
               getPixel cv' cx cy = Some col).
Proof.
  intros Hc Hm Hp Hw Hpos Hcw.
  rewrite (renderFrame_paints s cv meta w Hc Hm Hp Hw Hpos Hcw).
  set (bg := fillRect (with_fillStyle white cv) 0 0 (cwidth cv) (cheight cv)).
  eexists. split; [reflexivity|].
  destruct (draw_all_dims (mode meta) 4 (pixels s) bg) as [Ew Eh].
  split; [exact Ew|]. split; [exact Eh|].
  intros cx cy Hon. unfold getPixel. rewrite Hon.
  assert (Hon' : on_bitmap cv cx cy = true).
  { unfold on_bitmap in *. rewrite Ew, Eh in Hon. exact Hon. }
  split.
  - intros Hnone. f_equal. rewrite draw_all_uncovered.
    + apply background_white. exact Hon'.
    + intros p Hin. destruct (covers 4 p cx cy) eqn:E; [|reflexivity].
      apply covers_position in E. destruct (Hnone p Hin E).
  - intros l1 p l2 col -> Hpos' Hl2 Hcol. f_equal.
    apply draw_all_last; [exact Hon'| | |exact Hcol].
    + now apply covers_position.
    + intros q Hq. destruct (covers 4 q cx cy) eqn:E; [|reflexivity].
      apply covers_position in E. destruct (Hl2 q Hq E).
Qed.

Lemma uncovered_pixels_white_witness :
  exists cv', canvas (renderFrame (ready sparse_color)) = Some cv'
              /\ getPixel cv' 4 0 = Some white.
Proof.
  assert (Hc : canvas (ready sparse_color)
               = Some (canvas_of (ready sparse_color))).
  { unfold canvas_of.
    destruct (canvas (ready sparse_color)) eqn:E; [reflexivity|].
    assert (H' : match canvas (ready sparse_color) with
                 | Some _ => true | None => false end = true)
      by (vm_compute; reflexivity).
    rewrite E in H'. discriminate. }
  assert (Hm : metadata (ready sparse_color)
               = Some {| target_width := Some 2; target_height := Some 1;
                         fps := 25; mode := "color" |})
    by (vm_compute; reflexivity).
  assert (Hp : pixels (ready sparse_color) <> [])
    by (vm_compute; discriminate).
  assert (Hw : width (canvasSize (ready sparse_color)) = Some 2)
    by (vm_compute; reflexivity).
  assert (Hcw : cwidth (canvas_of (ready sparse_color)) = 2 * 4)
    by (vm_compute; reflexivity).
  assert (Hch : cheight (canvas_of (ready sparse_color)) = 4)
    by (vm_compute; reflexivity).
  assert (Hrows : forall p, In p (pixels (ready sparse_color)) ->
                            ~ (px_x p = 4 / 4 /\ px_y p = 0 / 4)).
  { intros p Hin [Hx _]. vm_compute in Hin.
    destruct Hin as [<-|[]]. discriminate. }
  destruct (uncovered_pixels_white (ready sparse_color) _ _ 2
              Hc Hm Hp Hw ltac:(lia) Hcw)
    as (cv' & Hcv' & Ew & Eh & Hpix).
  exists cv'. split; [exact Hcv'|].
  apply Hpix; [|exact Hrows].
  unfold on_bitmap. rewrite Ew, Eh, Hcw, Hch. reflexivity.
Defined.

(** C3 as documented fails in color mode: the right pixel of frame 0 of the
    sample video has no row, and it is shown white, not black. *)
Lemma color_background_not_black :
  option_map mode (metadata (ready sparse_color)) = Some "color"
  /\ (forall p, In p (pixels (ready sparse_color)) ->
                ~ (px_x p = 4 / 4 /\ px_y p = 0 / 4))
  /\ shown (renderFrame (ready sparse_color)) 4 0 = Some white
  /\ Some white <> Some (documented_background "color").
Proof.
  split; [vm_compute; reflexivity|].
  split.
  { intros p Hin [Hx _]. vm_compute in Hin.
    destruct Hin as [<-|[]]. discriminate. }
  split; [vm_compute; reflexivity|].
  vm_compute. discriminate.
Qed.

(** ** C4: rows out of range *)

Lemma binary_always_paints (rows : list Pixel) :
  carries_payload "binary" rows.
Proof.
  intros p _. unfold row_color. simpl.
  destruct (px_value p) as [[|[| |]|]|]; discriminate.
Qed.

Lemma renderFrame_console (s : State) : console (renderFrame s) = console s.
Proof.
  unfold renderFrame. destruct (canvas s); [|reflexivity].
  destruct (List.length (pixels s) =? 0)%nat; [reflexivity|].
  destruct (metadata s); reflexivity.
Qed.

(** C4, as the code has it.  [renderFrame] neither tests nor logs a row with
    [x] outside [0, width) or [y] outside [0, height): it draws it like any
    other row, and the block lies off the bitmap, so that no pixel of the
    canvas changes.  Rendering therefore completes and writes nothing
    outside the canvas; with no row in range the canvas is white all over,
    and otherwise, for rows that carry the payload of the mode, it shows
    exactly what the rows in range alone would paint. *)
Theorem out_of_range_rows_clipped (s : State) (cv : Canvas2D)
    (meta : Metadata) (w h : Z) :
  canvas s = Some cv -> metadata s = Some meta ->
  canvasSize s = {| width := Some w; height := Some h |} ->
  0 < w -> canvas_for w h cv -> pixels s <> [] ->
  console (renderFrame s) = console s
  /\ (forall p c, In p (pixels s) -> in_range w h p = false ->
        canvas_for w h c ->
        forall cx cy,
          getPixel (draw_pixel (mode meta) (Some 4) c p) cx cy
          = getPixel c cx cy)
  /\ exists cv1,
       canvas (renderFrame s) = Some cv1
       /\ cwidth cv1 = cwidth cv /\ cheight cv1 = cheight cv
       /\ (filter (in_range w h) (pixels s) = [] ->
           forall cx cy, on_bitmap cv1 cx cy = true ->
                         getPixel cv1 cx cy = Some white)
       /\ (filter (in_range w h) (pixels s) <> [] ->
           carries_payload (mode meta) (pixels s) ->
           exists cv2,
             canvas (renderFrame
                       (set_pixels (filter (in_range w h) (pixels s)) s))
             = Some cv2
             /\ forall cx cy, getPixel cv1 cx cy = getPixel cv2 cx cy).
Proof.
  intros Hc Hm Hsz Hpos Hfor Hp.
  assert (Hw : width (canvasSize s) = Some w) by now rewrite Hsz.
  split; [apply renderFrame_console|]. split.
  - intros p c _ Hout Hforc cx cy. unfold getPixel.
    rewrite on_bitmap_draw_pixel.
    destruct (on_bitmap c cx cy) eqn:Hon; [|reflexivity].
    destruct (draw_pixel_view (mode meta) 4 c p) as (_ & _ & ->).
    destruct (covers 4 p cx cy) eqn:Hcov; [|reflexivity].
    rewrite (covers_in_range w h c p cx cy Hforc Hon Hcov) in Hout.
    discriminate.
  - rewrite (renderFrame_paints s cv meta w Hc Hm Hp Hw Hpos (proj1 Hfor)).
    set (bg := fillRect (with_fillStyle white cv) 0 0 (cwidth cv) (cheight cv)).
    assert (Hbg : canvas_for w h bg) by exact Hfor.
    eexists. split; [reflexivity|].
    destruct (draw_all_dims (mode meta) 4 (pixels s) bg) as [Ew Eh].
    split; [exact Ew|]. split; [exact Eh|]. split.
    + intros Hnone cx cy Hon. unfold getPixel. rewrite Hon. f_equal.
      assert (Hon' : on_bitmap cv cx cy = true).
      { unfold on_bitmap in *. rewrite Ew, Eh in Hon. exact Hon. }
      rewrite draw_all_uncovered; [apply background_white; exact Hon'|].
      intros p Hin. destruct (covers 4 p cx cy) eqn:Hcov; [|reflexivity].
      assert (Hr : In p (filter (in_range w h) (pixels s))).
      { apply filter_In. split; [exact Hin|].
        exact (covers_in_range w h bg p cx cy Hbg Hon' Hcov). }
      rewrite Hnone in Hr. destruct Hr.
    + intros Hne Hpay.
      rewrite (renderFrame_paints
                 (set_pixels (filter (in_range w h) (pixels s)) s) cv meta w
                 Hc Hm Hne Hw Hpos (proj1 Hfor)).
      simpl pixels. fold bg.
      eexists. split; [reflexivity|].
      apply agree_getPixel. apply draw_in_range_only.
      * exact Hpay.
      * exact Hbg.
      * repeat split.
Qed.

Lemma out_of_range_rows_clipped_witness :
  (exists p, In p (pixels b_selected) /\ in_range 2 1 p = false)
  /\ console (renderFrame b_selected) = console b_selected
  /\ exists cv1 cv2,
       canvas (renderFrame b_selected) = Some cv1
       /\ canvas (renderFrame
                    (set_pixels (filter (in_range 2 1) (pixels b_selected))
                       b_selected)) = Some cv2
       /\ forall cx cy, getPixel cv1 cx cy = getPixel cv2 cx cy.
Proof.
  assert (Hc : canvas b_selected = Some (canvas_of b_selected)).
  { unfold canvas_of. destruct (canvas b_selected) eqn:E; [reflexivity|].
    assert (H' : match canvas b_selected with
                 | Some _ => true | None => false end = true)
      by (vm_compute; reflexivity).
    rewrite E in H'. discriminate. }
  assert (Hm : metadata b_selected
               = Some {| target_width := Some 2; target_height := Some 1;
                         fps := 25; mode := "binary" |})
    by (vm_compute; reflexivity).
  assert (Hsz : canvasSize b_selected
                = {| width := Some 2; height := Some 1 |})
    by (vm_compute; reflexivity).
  assert (Hfor : canvas_for 2 1 (canvas_of b_selected))
    by (split; vm_compute; reflexivity).
  assert (Hp : pixels b_selected <> []) by (vm_compute; discriminate).
  assert (Hne : filter (in_range 2 1) (pixels b_selected) <> [])
    by (vm_compute; discriminate).
  split.
  { exists {| px_x := 2; px_y := 0; px_value := Some 200; px_r := None;
              px_g := None; px_b := None |}.
    split; [vm_compute; tauto|reflexivity]. }
  destruct (out_of_range_rows_clipped b_selected _ _ 2 1 Hc Hm Hsz
              ltac:(lia) Hfor Hp)
    as (Hlog & _ & cv1 & H1 & _ & _ & _ & Hpix).
  destruct (Hpix Hne (binary_always_paints _)) as (cv2 & H2 & Hsame).
  split; [exact Hlog|]. exists cv1, cv2. repeat split; assumption.
Defined.

(** C4 as documented fails on the logging: frame 0 of video "b", three
    pixels wide, is rendered on the two pixels wide canvas of video "a";
    its third row is out of range and nothing is written to the console. *)
Lemma out_of_range_row_not_logged :
  canvasSize b_selected = {| width := Some 2; height := Some 1 |}
  /\ (exists p, In p (pixels b_selected) /\ in_range 2 1 p = false)
  /\ ~ logged b_selected (renderFrame b_selected).
Proof.
  split; [vm_compute; reflexivity|]. split.
  - exists {| px_x := 2; px_y := 0; px_value := Some 200; px_r := None;
              px_g := None; px_b := None |}.
    split; [vm_compute; tauto|reflexivity].
  - unfold logged. rewrite renderFrame_console. lia.
Qed.

(** ** Renders *)

Ltac break_match :=
  repeat match goal with
         | |- context [match ?x with _ => _ end] => destruct x eqn:?; simpl
         end.

Lemma sync_canvas_view (s : State) :
  core (sync_canvas s) = core s /\ inflight (sync_canvas s) = inflight s.
Proof. unfold core, sync_canvas. break_match; split; congruence. Qed.

Lemma renderFrame_view (s : State) :
  core (renderFrame s) = core s /\ inflight (renderFrame s) = inflight s.
Proof. unfold core, renderFrame. break_match; split; congruence. Qed.

Lemma loadFrame_view (f : Z) (s : State) :
  core (loadFrame f s) = core s
  /\ (inflight (loadFrame f s) = inflight s
      \/ exists c, inflight (loadFrame f s)
                   = inflight s ++ [PFrame c f (selectedVideo s)]).
Proof.
  unfold core, loadFrame, suspend. break_match; split; try congruence;
    try (now left). right. eexists. reflexivity.
Qed.

(** A render changes the canvas and may issue a fetch for the current
    frame; it changes nothing else. *)
Lemma commit_view (fresh : bool) (old new : State) :
  core (commit fresh old new) = core new
  /\ (inflight (commit fresh old new) = inflight new
      \/ exists c, inflight (commit fresh old new)
                   = inflight new
                     ++ [PFrame c (currentFrame new) (selectedVideo new)]).
Proof.
  unfold commit.
  destruct (sync_canvas_view new) as [Hs Hsi].
  set (s1 := sync_canvas new) in *.
  assert (Hcf : currentFrame s1 = currentFrame new)
    by (unfold core in Hs; congruence).
  assert (Hsv : selectedVideo s1 = selectedVideo new)
    by (unfold core in Hs; congruence).
  destruct (loadFrame_view (currentFrame s1) s1) as [Hl Hli].
  set (s2 := if loadFrame_deps_changed old s1
             then loadFrame (currentFrame s1) s1 else s1).
  assert (H2 : core s2 = core new
               /\ (inflight s2 = inflight new
                   \/ exists c, inflight s2
                        = inflight new
                          ++ [PFrame c (currentFrame new) (selectedVideo new)])).
  { subst s2. destruct (loadFrame_deps_changed old s1).
    - split; [congruence|]. rewrite <- Hsi, <- Hcf, <- Hsv. exact Hli.
    - split; [assumption|now left]. }
  destruct fresh; [|exact H2].
  destruct (renderFrame_view s2) as [-> ->]. exact H2.
Qed.

Lemma commit_chain (fresh : bool) (old new : State) :
  chain (commit fresh old new) = chain new.
Proof.
  unfold chain. destruct (commit_view fresh old new) as [_ [->|[c ->]]];
    [reflexivity|].
  rewrite filter_app. simpl. apply app_nil_r.
Qed.

Lemma Inv_ext (s1 s2 : State) :
  core s1 = core s2 -> chain s1 = chain s2 -> Inv s2 -> Inv s1.
Proof.
  unfold core, Inv, single_timer. intros Hc Hch.
  injection Hc as -> _ -> -> -> _ -> -> _ _ _ -> -> _ _ _. rewrite Hch.
  tauto.
Qed.

Lemma Inv_commit (fresh : bool) (old new : State) :
  Inv new -> Inv (commit fresh old new).
Proof.
  apply Inv_ext; [apply commit_view|apply commit_chain].
Qed.

(** ** The invariant *)

Lemma remove_nth_split {A : Type} (n : nat) (l : list A) (a : A) :
  nth_error l n = Some a ->
  exists l1 l2, l = l1 ++ a :: l2 /\ remove_nth n l = l1 ++ l2.
Proof.
  revert l. induction n as [|n IH]; intros [|b l] H; try discriminate.
  - injection H as ->. exists [], l. split; reflexivity.
  - destruct (IH l H) as (l1 & l2 & -> & E).
    exists (b :: l1), l2. split; [reflexivity|].
    unfold remove_nth in *. simpl in *. f_equal. exact E.
Qed.

Lemma chain_remove_frame (n : nat) (l : list Pending) (p : Pending) :
  nth_error l n = Some p -> is_chain p = false ->
  filter is_chain (remove_nth n l) = filter is_chain l.
Proof.
  intros H Hp. destruct (remove_nth_split n l p H) as (l1 & l2 & -> & ->).
  rewrite !filter_app. simpl. rewrite Hp. reflexivity.
Qed.

Lemma chain_remove_chain (n : nat) (l : list Pending) (p : Pending) :
  nth_error l n = Some p -> is_chain p = true ->
  (List.length (filter is_chain l) <= 1)%nat ->
  filter is_chain (remove_nth n l) = [] /\ filter is_chain l = [p].
Proof.
  intros H Hp Hlen. destruct (remove_nth_split n l p H) as (l1 & l2 & -> & ->).
  rewrite !filter_app in *. simpl in *. rewrite Hp in *.
  rewrite length_app in Hlen. simpl in Hlen.
  destruct (filter is_chain l1); [|simpl in Hlen; lia].
  destruct (filter is_chain l2); [|simpl in Hlen; lia].
  split; reflexivity.
Qed.

Lemma Inv_initial (t : Table) : Inv (initial t).
Proof.
  unfold Inv, single_timer, chain. simpl.
  repeat split; try congruence; try lia; try contradiction.
Qed.

Lemma Inv_playVideo (s : State) : Inv s -> Inv (playVideo s).
Proof.
  intros H. unfold playVideo.
  destruct (frameInterval s) eqn:Ef; [exact H|].
  destruct (totalFrames s =? 0) eqn:Et; [exact H|].
  apply Z.eqb_neq in Et.
  destruct H as (H1 & H2 & H3 & H4 & H5 & H6 & H7 & H8).
  unfold single_timer in H1. rewrite Ef in H1.
  unfold Inv, single_timer, chain in *. simpl. rewrite H1.
  repeat split; try assumption; try congruence;
    try (apply H6; assumption); try (apply H7; assumption);
    try (match goal with
         | H : In _ _ |- _ => destruct H as [<-|[]]; (reflexivity || exact Et)
         end).
  - eexists. split; reflexivity.
  - intros t [<-|[]]. reflexivity.
Qed.

Lemma Inv_pauseVideo (s : State) : Inv s -> Inv (pauseVideo s).
Proof.
  intros (H1 & H2 & H3 & H4 & H5 & H6 & H7 & H8). unfold pauseVideo, clearInterval.
  unfold single_timer in H1.
  destruct (frameInterval s) as [id|] eqn:Ef.
  - destruct H1 as [t [Ht Hid]].
    unfold Inv, single_timer, chain in *. simpl. rewrite Ht. simpl.
    rewrite Hid, Pos.eqb_refl. simpl.
    repeat split; try assumption; try congruence; try contradiction;
      try (apply H6; assumption); try (apply H7; assumption).
  - unfold Inv, single_timer, chain in *. simpl. rewrite Ef, H1.
    repeat split; try assumption; try congruence; try contradiction;
      try (apply H6; assumption); try (apply H7; assumption).
Qed.

Lemma Inv_set_currentFrame (n : Z) (s : State) :
  0 <= n -> Inv s -> Inv (set_currentFrame n s).
Proof.
  intros Hn (H1 & H2 & H3 & H4 & H5 & H6 & H7 & H8).
  unfold Inv, single_timer, chain in *. simpl. tauto.
Qed.

Lemma Inv_tick (t : Timer) (s : State) :
  In t (timers s) -> Inv s -> Inv (tick t s).
Proof.
  intros Ht H. apply Inv_set_currentFrame; [|exact H].
  destruct H as (_ & _ & H3 & H4 & _). destruct (H4 t Ht) as [_ Hnz].
  apply Z.rem_nonneg; lia.
Qed.

Lemma Inv_handleVideoSelect (url : string) (s : State) :
  Inv s -> Inv (handleVideoSelect url s).
Proof.
  intros (H1 & H2 & H3 & H4 & H5 & H6 & H7 & H8).
  unfold handleVideoSelect, loadVideoMetadata, truthy, run_cont,
    console_error.
  destruct (negb (negb (String.eqb url EmptyString))); simpl;
    unfold Inv, single_timer, chain in *; simpl; tauto.
Qed.

Lemma Inv_connect (s : State) :
  conn s = None -> isLoading s = false -> Inv s ->
  Inv (connectToMotherDuck s).
Proof.
  intros Hc Hl (H1 & H2 & H3 & H4 & H5 & H6 & H7 & H8).
  assert (Hch : chain s = []).
  { destruct (chain s) eqn:E; [reflexivity|].
    destruct H6 as [H6 _]; [discriminate|congruence]. }
  destruct (H7 Hc) as [Ht _].
  unfold Inv, single_timer, chain, connectToMotherDuck, suspend in *. simpl.
  rewrite filter_app, Hch. simpl.
  repeat split; try assumption; try tauto; try lia;
    try (apply H4; assumption).
  intros p [<-|[]]. eexists. reflexivity.
Qed.

Lemma Inv_settle (n : nat) (p : Pending) (o : Outcome) (s : State) :
  nth_error (inflight s) n = Some p -> Inv s ->
  Inv (settle p o (set_inflight (remove_nth n (inflight s)) s)).
Proof.
  intros Hn (H1 & H2 & H3 & H4 & H5 & H6 & H7 & H8).
  destruct (is_chain p) eqn:Hp.
  - destruct (chain_remove_chain n (inflight s) p Hn Hp H5) as [Hrem Hch].
    fold (chain s) in Hch.
    destruct H6 as [Hload Htot]; [rewrite Hch; discriminate|].
    assert (Htm : timers s = []).
    { destruct (timers s) as [|t l] eqn:E; [reflexivity|].
      destruct (H4 t (or_introl eq_refl)). congruence. }
    assert (Hfi : frameInterval s = None).
    { unfold single_timer in H1. destruct (frameInterval s); [|reflexivity].
      destruct H1 as [t [Ht _]]. congruence. }
    assert (Hconn : (forall c, p <> PInit c) -> conn s <> None).
    { intros Hno Hc. destruct (H7 Hc) as [_ Hall].
      destruct (Hall p) as [c Ec]; [rewrite Hch; now left|].
      exact (Hno c Ec). }
    destruct p as [c|c|c url k|c f url]; [| | |discriminate Hp];
      destruct o; simpl;
      unfold connectToMotherDuck_settled, loadAvailableVideos_settled,
        loadVideoMetadata_settled, loadAvailableVideos, loadVideoMetadata,
        run_cont, suspend, console_error;
      try destruct (videos_query (store s)) as [|u us];
      try destruct k; simpl;
      unfold Inv, single_timer, chain; simpl;
      rewrite ?filter_app, ?Hrem, ?Hfi, ?Htm; simpl;
      repeat split; try assumption; try tauto; try lia; try congruence;
      try contradiction; try discriminate;
      try (exfalso; apply Hconn; [discriminate|assumption]);
      try (exfalso; match goal with H : ?a <> ?a |- _ => now apply H end).
  - assert (Hch : chain (set_inflight (remove_nth n (inflight s)) s) = chain s)
      by (unfold chain; simpl; now apply chain_remove_frame with p).
    destruct p as [c|c|c url k|c f url]; try discriminate Hp.
    destruct o; simpl; unfold loadFrame_settled, console_error;
      unfold Inv, single_timer, chain in *; simpl in *; rewrite Hch; tauto.
Qed.

Lemma Inv_step (s : State) (e : Event) : Inv s -> Inv (step s e).
Proof.
  intros H. destruct e as [tk| |n o|url| | | |n|id]; unfold step.
  - destruct (connected s); [exact H|].
    destruct H as (H1 & H2 & H3 & H4 & H5 & H6 & H7 & H8).
    unfold Inv, single_timer, chain in *. simpl. tauto.
  - unfold connected.
    destruct (conn s) eqn:Ec; [exact H|].
    destruct (isLoading s) eqn:El; [exact H|].
    destruct (String.eqb (token s) EmptyString); [exact H|]. cbv beta iota delta [orb].
    apply Inv_commit, Inv_connect; assumption.
  - destruct (nth_error (inflight s) n) as [p|] eqn:En; [|exact H].
    apply Inv_commit, Inv_settle; assumption.
  - destruct (connected s && existsb (String.eqb url) (videoUrls s)
              && negb (String.eqb url (selectedVideo s)));
      [|exact H].
    apply Inv_commit, Inv_handleVideoSelect; assumption.
  - destruct (connected s && negb (totalFrames s =? 0)); [|exact H].
    apply Inv_commit. destruct (isPlaying s);
      [apply Inv_pauseVideo|apply Inv_playVideo]; assumption.
  - apply Inv_commit, Inv_playVideo; assumption.
  - apply Inv_commit, Inv_pauseVideo; assumption.
  - destruct (connected s && negb (totalFrames s =? 0) && (0 <=? n)
              && (n <=? Z.max 0 (totalFrames s - 1))) eqn:G; [|exact H].
    rewrite !andb_true_iff in G. destruct G as [[[_ _] G] _].
    apply Z.leb_le in G.
    apply Inv_commit, Inv_set_currentFrame; assumption.
  - destruct (find (fun t => Pos.eqb (timer_id t) id) (timers s)) as [t|] eqn:F;
      [|exact H].
    apply find_some in F. apply Inv_commit, Inv_tick; tauto.
Qed.

Lemma Inv_run (es : list Event) (s : State) : Inv s -> Inv (run s es).
Proof.
  revert s. induction es as [|e es IH]; intros s H; [exact H|].
  simpl. apply IH, Inv_step, H.
Qed.

Lemma Inv_reachable (t : Table) (es : list Event) : Inv (run (initial t) es).
Proof. apply Inv_run, Inv_initial. Qed.

(** ** C10: play is guarded *)

Lemma playVideo_guard (s : State) :
  frameInterval s <> None \/ totalFrames s = 0 -> playVideo s = s.
Proof.
  intros H. unfold playVideo. destruct (frameInterval s); [reflexivity|].
  destruct H as [H| ->]; [congruence|reflexivity].
Qed.

(** C10.  [play()] leaves the state as it is when an interval already runs
    or when there is no frame; in every state the component reaches at most
    one interval runs, and playback is on only for a video with frames. *)
Theorem play_is_guarded :
  (forall s, frameInterval s <> None \/ totalFrames s = 0 -> playVideo s = s)
  /\ (forall t es, (List.length (timers (run (initial t) es)) <= 1)%nat)
  /\ (forall t es,
        isPlaying (run (initial t) es) = true ->
        totalFrames (run (initial t) es) <> 0).
Proof.
  split; [exact playVideo_guard|]. split.
  - intros t es.
    destruct (Inv_reachable t es) as (H1 & _). unfold single_timer in H1.
    destruct (frameInterval (run (initial t) es)).
    + destruct H1 as [tm [-> _]]. simpl. lia.
    + rewrite H1. simpl. lia.
  - intros t es Hplay.
    destruct (Inv_reachable t es) as (H1 & H2 & _ & H4 & _).
    unfold single_timer in H1. apply H2 in Hplay.
    destruct (frameInterval (run (initial t) es)); [|congruence].
    destruct H1 as [tm [Ht _]].
    destruct (H4 tm) as [E Hnz]; [rewrite Ht; now left|]. congruence.
Qed.

Lemma play_is_guarded_witness :
  playVideo playing = playing
  /\ playVideo (initial six_frames) = initial six_frames.
Proof.
  split; apply (proj1 play_is_guarded).
  - left. assert (H : frameInterval playing = Some 1%positive)
      by (vm_compute; reflexivity).
    rewrite H. discriminate.
  - right. reflexivity.
Defined.

(** ** C7: ticks *)

Lemma run_app (s : State) (es1 es2 : list Event) :
  run s (es1 ++ es2) = run (run s es1) es2.
Proof. apply fold_left_app. Qed.

Lemma tick_step_core (s : State) (tm : Timer) :
  timers s = [tm] ->
  core (step s (Tick (timer_id tm))) = core (tick tm s).
Proof.
  intros H. unfold step. rewrite H. simpl find. rewrite Pos.eqb_refl.
  apply commit_view.
Qed.

(** One tick of the timer of a playing state. *)
Lemma tick_step (s : State) (tm : Timer) :
  timers s = [tm] -> 0 < timer_total tm -> 0 <= currentFrame s ->
  let s' := step s (Tick (timer_id tm)) in
  currentFrame s' = (currentFrame s + 1) mod timer_total tm
  /\ timers s' = [tm] /\ isPlaying s' = isPlaying s
  /\ totalFrames s' = totalFrames s /\ console s' = console s.
Proof.
  intros Ht Hn Hc s'. pose proof (tick_step_core s tm Ht) as H.
  fold s' in H. unfold core, tick in H. simpl in H.
  injection H as _ _ E1 E2 E3 _ _ _ _ _ _ _ E4 _ E5 _.
  rewrite E1, E2, E3, E4, E5, Ht.
  repeat split. apply Z.rem_mod_nonneg; lia.
Qed.

Lemma ticks_iter (tm : Timer) (k : nat) (s : State) :
  timers s = [tm] -> 0 < timer_total tm -> 0 <= currentFrame s ->
  currentFrame (run s (repeat (Tick (timer_id tm)) (S k)))
  = (currentFrame s + Z.of_nat (S k)) mod timer_total tm.
Proof.
  revert s. induction k as [|k IH]; intros s Ht Hn Hc;
    destruct (tick_step s tm Ht Hn Hc) as (E & Ht' & _).
  - exact E.
  - change (repeat (Tick (timer_id tm)) (S (S k)))
      with (Tick (timer_id tm) :: repeat (Tick (timer_id tm)) (S k)).
    change (run s (?e :: ?l)) with (run (step s e) l).
    rewrite IH; [|assumption..|].
    + rewrite E, Zplus_mod_idemp_l. f_equal. lia.
    + rewrite E. apply Z.mod_pos_bound. lia.
Qed.

(** The metadata and the frame count are written by a fulfilled metadata
    query only, together, with [fps: 25]. *)
Lemma metadata_ok_same (s1 s2 : State) :
  metadata s1 = metadata s2 -> totalFrames s1 = totalFrames s2 ->
  metadata_ok s2 -> metadata_ok s1.
Proof. unfold metadata_ok. intros -> ->. exact (fun H => H). Qed.

Lemma metadata_ok_ext (s1 s2 : State) :
  core s1 = core s2 -> metadata_ok s2 -> metadata_ok s1.
Proof.
  unfold core. intros H.
  injection H as _ _ _ _ E1 _ _ E2 _ _ _ _ _ _ _ _.
  apply metadata_ok_same; assumption.
Qed.

Lemma metadata_ok_settle (p : Pending) (o : Outcome) (s : State) :
  metadata_ok s -> metadata_ok (settle p o s).
Proof.
  intros H. destruct p as [c|c|c url k|c f url]; simpl.
  - apply (metadata_ok_same _ s); [| |exact H]; destruct o; reflexivity.
  - apply (metadata_ok_same _ s); [| |exact H]; destruct o; simpl;
      unfold loadAvailableVideos_settled;
      try destruct (videos_query (store s)); reflexivity.
  - destruct o.
    + unfold metadata_ok.
      destruct (run_cont_view k
        (set_currentFrame 0
           (set_totalFrames (m_total_frames (metadata_query (store s) url))
              (set_canvasSize
                 {| width := m_width (metadata_query (store s) url);
                    height := m_height (metadata_query (store s) url) |}
                 (set_metadata
                    (Some {| target_width :=
                               m_width (metadata_query (store s) url);
                             target_height :=
                               m_height (metadata_query (store s) url);
                             fps := 25;
                             mode := m_mode (metadata_query (store s) url) |})
                    s)))))
        as (_ & Hm & _).
      unfold loadVideoMetadata_settled. rewrite Hm. simpl. split.
      * intros meta E. injection E as <-. reflexivity.
      * intros _. discriminate.
    + apply (metadata_ok_same _ s); [| |exact H]; destruct k; reflexivity.
  - apply (metadata_ok_same _ s); [| |exact H]; destruct o; reflexivity.
Qed.

Lemma metadata_ok_playback (s : State) :
  metadata_ok s -> metadata_ok (playVideo s) /\ metadata_ok (pauseVideo s).
Proof.
  intros H. unfold playVideo, pauseVideo, clearInterval.
  destruct (frameInterval s); [split; exact H|].
  destruct (totalFrames s =? 0); split; exact H.
Qed.

Lemma metadata_ok_handleVideoSelect (url : string) (s : State) :
  metadata_ok s -> metadata_ok (handleVideoSelect url s).
Proof.
  apply metadata_ok_same;
    unfold handleVideoSelect, loadVideoMetadata, truthy, run_cont,
      console_error;
    destruct (negb (negb (String.eqb url EmptyString))); reflexivity.
Qed.

Lemma metadata_ok_step (s : State) (e : Event) :
  metadata_ok s -> metadata_ok (step s e).
Proof.
  intros H. destruct e as [tk| |n o|url| | | |n|id]; unfold step.
  - destruct (connected s); exact H.
  - destruct (connected s || isLoading s || String.eqb (token s) EmptyString);
      [exact H|].
    destruct (commit_view false s (connectToMotherDuck s)) as [Hc _].
    apply (metadata_ok_ext _ _ Hc). exact H.
  - destruct (nth_error (inflight s) n) as [p|] eqn:En; [|exact H].
    destruct (commit_view (settles_fresh p o) s
                (settle p o (set_inflight (remove_nth n (inflight s)) s)))
      as [Hc _].
    apply (metadata_ok_ext _ _ Hc), metadata_ok_settle. exact H.
  - destruct (connected s && existsb (String.eqb url) (videoUrls s)
              && negb (String.eqb url (selectedVideo s))); [|exact H].
    destruct (commit_view false s (handleVideoSelect url s)) as [Hc _].
    apply (metadata_ok_ext _ _ Hc), metadata_ok_handleVideoSelect, H.
  - destruct (connected s && negb (totalFrames s =? 0)); [|exact H].
    destruct (metadata_ok_playback s H) as [H1 H2].
    destruct (isPlaying s).
    + destruct (commit_view false s (pauseVideo s)) as [Hc _].
      apply (metadata_ok_ext _ _ Hc), H2.
    + destruct (commit_view false s (playVideo s)) as [Hc _].
      apply (metadata_ok_ext _ _ Hc), H1.
  - destruct (commit_view false s (playVideo s)) as [Hc _].
    apply (metadata_ok_ext _ _ Hc), metadata_ok_playback, H.
  - destruct (commit_view false s (pauseVideo s)) as [Hc _].
    apply (metadata_ok_ext _ _ Hc), metadata_ok_playback, H.
  - destruct (connected s && negb (totalFrames s =? 0) && (0 <=? n)
              && (n <=? Z.max 0 (totalFrames s - 1))); [|exact H].
    destruct (commit_view false s (seek n s)) as [Hc _].
    apply (metadata_ok_ext _ _ Hc). exact H.
  - destruct (find (fun t => Pos.eqb (timer_id t) id) (timers s)) as [t|];
      [|exact H].
    destruct (commit_view false s (tick t s)) as [Hc _].
    apply (metadata_ok_ext _ _ Hc). exact H.
Qed.

Lemma metadata_ok_reachable (t : Table) (es : list Event) :
  metadata_ok (run (initial t) es).
Proof.
  assert (H : forall es s, metadata_ok s -> metadata_ok (run s es)).
  { induction es0 as [|e es0 IH]; intros s Hs; [exact Hs|].
    simpl. apply IH, metadata_ok_step, Hs. }
  apply H. split; [discriminate|]. intros N. now elim N.
Qed.

(** C7.  In every state the component reaches with playback on and
    [totalFrames > 0], one interval runs, registered with a delay of
    [1000 / fps] milliseconds for the [fps] of the metadata in effect, which
    is 25, so with a delay of 40 milliseconds; each of its ticks takes
    [currentFrame] to [(currentFrame + 1) mod totalFrames] and leaves
    playback on and the console untouched, and so do any number of ticks in
    a row.  With three frames, starting from 0, the ticks visit
    0, 1, 2, 0, 1, 2, ... *)
Theorem ticks_wrap (t : Table) (es : list Event) :
  isPlaying (run (initial t) es) = true ->
  0 < totalFrames (run (initial t) es) ->
  let s := run (initial t) es in
  exists tm,
    timers s = [tm] /\ frameInterval s = Some (timer_id tm)
    /\ (exists meta,
          metadata s = Some meta /\ fps meta = 25
          /\ timer_delay tm = Qdiv (inject_Z 1000) (inject_Z (fps meta))
          /\ Qeq (timer_delay tm) (inject_Z 40))
    /\ (let s' := step s (Tick (timer_id tm)) in
        currentFrame s' = (currentFrame s + 1) mod totalFrames s
        /\ isPlaying s' = true /\ console s' = console s)
    /\ (forall k,
          currentFrame (run s (repeat (Tick (timer_id tm)) (S k)))
          = (currentFrame s + Z.of_nat (S k)) mod totalFrames s)
    /\ (totalFrames s = 3 -> currentFrame s = 0 ->
        forall k,
          currentFrame (run s (repeat (Tick (timer_id tm)) k))
          = Z.of_nat k mod 3).
Proof.
  intros Hplay Hpos s.
  destruct (Inv_reachable t es) as (H1 & H2 & H3 & H4 & _ & _ & _ & H8).
  fold s in H1, H2, H3, H4, H8, Hplay, Hpos.
  unfold single_timer in H1. apply H2 in Hplay.
  destruct (frameInterval s) as [id|]; [|congruence].
  destruct H1 as [tm [Ht Hid]]. exists tm.
  destruct (H4 tm) as [Etot _]; [rewrite Ht; now left|].
  assert (Hn : 0 < timer_total tm) by lia.
  split; [exact Ht|]. split; [now rewrite Hid|].
  split.
  { destruct (metadata_ok_reachable t es) as [M1 M2]. fold s in M1, M2.
    destruct (metadata s) as [meta|] eqn:Em; [|elim M2; [lia|reflexivity]].
    exists meta. pose proof (M1 meta eq_refl) as Ef.
    assert (Ed : timer_delay tm
                 = Qdiv (inject_Z 1000) (inject_Z (fps meta))).
    { rewrite (H8 tm) by (rewrite Ht; now left).
      unfold effective_fps. rewrite Ef. reflexivity. }
    split; [reflexivity|]. split; [exact Ef|]. split; [exact Ed|].
    rewrite Ed, Ef. reflexivity. }
  split; [|split].
  - destruct (tick_step s tm Ht Hn H3) as (E & _ & Ep & _ & Ec).
    rewrite <- Etot. split; [exact E|]. split; [|exact Ec].
    rewrite Ep. apply H2. congruence.
  - intros k. rewrite <- Etot. apply ticks_iter; assumption.
  - intros E3 E0 [|k]; [exact E0|].
    rewrite ticks_iter by assumption. rewrite E0, Etot, E3. reflexivity.
Qed.

Lemma ticks_wrap_witness :
  exists tm,
    timers (run (initial three_frames) playing_three) = [tm]
    /\ Qeq (timer_delay tm) (inject_Z 40)
    /\ currentFrame (run (run (initial three_frames) playing_three)
                       (repeat (Tick (timer_id tm)) 4)) = 1.
Proof.
  assert (Hplay : isPlaying (run (initial three_frames) playing_three) = true)
    by (vm_compute; reflexivity).
  assert (Htot : totalFrames (run (initial three_frames) playing_three) = 3)
    by (vm_compute; reflexivity).
  assert (Hcur : currentFrame (run (initial three_frames) playing_three) = 0)
    by (vm_compute; reflexivity).
  assert (Hpos : 0 < totalFrames (run (initial three_frames) playing_three))
    by (rewrite Htot; lia).
  destruct (ticks_wrap three_frames playing_three Hplay Hpos)
    as (tm & Ht & _ & (_ & _ & _ & _ & Hd) & _ & _ & H3).
  exists tm. split; [exact Ht|]. split; [exact Hd|].
  exact (H3 Htot Hcur 4%nat).
Defined.

(** ** C1: fetch results *)

Lemma conn_eqb_refl (c : option MDConnection) : conn_eqb c c = true.
Proof. destruct c; simpl; [apply String.eqb_refl|reflexivity]. Qed.

(** What the handlers other than a fulfilled frame fetch do to the rows
    held and to the store: nothing. *)
Lemma settle_fetch (p : Pending) (o : Outcome) (s : State) :
  store (settle p o s) = store s
  /\ pixels (settle p o s)
     = match p, o with
       | PFrame _ f u, Fulfilled => frame_query (store s) f u
       | _, _ => pixels s
       end.
Proof.
  destruct p as [c|c|c url k|c f url], o; simpl;
    unfold connectToMotherDuck_settled, loadAvailableVideos_settled,
      loadVideoMetadata_settled, loadFrame_settled, loadAvailableVideos,
      loadVideoMetadata, run_cont, suspend, console_error;
    try destruct (videos_query (store s)); try destruct k; simpl;
    split; reflexivity.
Qed.

Lemma playback_fetch (s : State) :
  store (playVideo s) = store s /\ pixels (playVideo s) = pixels s
  /\ store (pauseVideo s) = store s /\ pixels (pauseVideo s) = pixels s.
Proof.
  unfold playVideo, pauseVideo, clearInterval.
  destruct (frameInterval s); [repeat split|].
  destruct (totalFrames s =? 0); repeat split.
Qed.

Lemma handleVideoSelect_fetch (url : string) (s : State) :
  store (handleVideoSelect url s) = store s
  /\ pixels (handleVideoSelect url s) = pixels s.
Proof.
  unfold handleVideoSelect, loadVideoMetadata, truthy, run_cont,
    console_error.
  destruct (negb (negb (String.eqb url EmptyString))); split; reflexivity.
Qed.

Lemma commit_fetch (fresh : bool) (old new : State) :
  store (commit fresh old new) = store new
  /\ pixels (commit fresh old new) = pixels new.
Proof.
  destruct (commit_view fresh old new) as [H _]. unfold core in H.
  injection H as _ _ _ _ _ Hp _ _ _ _ _ _ _ _ _ Hs. split; assumption.
Qed.

(** Every event leaves the store alone, and the rows held are those of the
    frame the event delivers, if it delivers one. *)
Lemma step_fetch (s : State) (e : Event) :
  store (step s e) = store s
  /\ pixels (step s e)
     = match arrival s e with
       | Some (f, u) => frame_query (store s) f u
       | None => pixels s
       end.
Proof.
  destruct e as [tk| |n o|url| | | |n|id]; unfold step, arrival.
  - destruct (connected s); split; reflexivity.
  - destruct (connected s || isLoading s || String.eqb (token s) EmptyString);
      [split; reflexivity|].
    destruct (commit_fetch false s (connectToMotherDuck s)) as [-> ->].
    split; reflexivity.
  - destruct (nth_error (inflight s) n) as [p|] eqn:En.
    + destruct (commit_fetch (settles_fresh p o) s
                  (settle p o (set_inflight (remove_nth n (inflight s)) s)))
        as [-> ->].
      destruct (settle_fetch p o (set_inflight (remove_nth n (inflight s)) s))
        as [-> ->].
      simpl. destruct o, p; split; reflexivity.
    + destruct o; split; reflexivity.
  - destruct (connected s && existsb (String.eqb url) (videoUrls s)
              && negb (String.eqb url (selectedVideo s)));
      [|split; reflexivity].
    destruct (commit_fetch false s (handleVideoSelect url s)) as [-> ->].
    apply handleVideoSelect_fetch.
  - destruct (connected s && negb (totalFrames s =? 0)); [|split; reflexivity].
    destruct (playback_fetch s) as (E1 & E2 & E3 & E4).
    destruct (isPlaying s);
      [destruct (commit_fetch false s (pauseVideo s)) as [-> ->]
      |destruct (commit_fetch false s (playVideo s)) as [-> ->]];
      split; assumption.
  - destruct (playback_fetch s) as (E1 & E2 & E3 & E4).
    destruct (commit_fetch false s (playVideo s)) as [-> ->].
    split; assumption.
  - destruct (playback_fetch s) as (E1 & E2 & E3 & E4).
    destruct (commit_fetch false s (pauseVideo s)) as [-> ->].
    split; assumption.
  - destruct (connected s && negb (totalFrames s =? 0) && (0 <=? n)
              && (n <=? Z.max 0 (totalFrames s - 1))); [|split; reflexivity].
    destruct (commit_fetch false s (seek n s)) as [-> ->]. split; reflexivity.
  - destruct (find (fun t => Pos.eqb (timer_id t) id) (timers s));
      [|split; reflexivity].
    destruct (commit_fetch false s (tick t s)) as [-> ->]. split; reflexivity.
Qed.

Lemma run_fetch (es : list Event) (s : State) (acc : option (Z * string)) :
  match acc with
  | Some (f, u) => pixels s = frame_query (store s) f u
  | None => True
  end ->
  store (run s es) = store s
  /\ pixels (run s es)
     = match last_arrival s es acc with
       | Some (f, u) => frame_query (store s) f u
       | None => pixels s
       end.
Proof.
  revert s acc. induction es as [|e es IH]; intros s acc Hacc.
  - simpl. split; [reflexivity|]. destruct acc as [[f u]|]; auto.
  - destruct (step_fetch s e) as [Es Ep].
    change (run s (e :: es)) with (run (step s e) es). simpl last_arrival.
    destruct (arrival s e) as [[f u]|] eqn:Ea.
    + destruct (IH (step s e) (Some (f, u))) as [IHs IHp].
      { rewrite Es. exact Ep. }
      rewrite IHs, IHp, Es. split; [reflexivity|].
      assert (last_arrival (step s e) es (Some (f, u)) <> None).
      { clear. generalize (step s e), (f, u). induction es as [|e' es' IH'];
          intros s' a; simpl; [discriminate|].
        destruct (arrival s' e'); apply IH'. }
      destruct (last_arrival (step s e) es (Some (f, u))) as [[f' u']|];
        [reflexivity|congruence].
    + destruct (IH (step s e) acc) as [IHs IHp].
      { destruct acc as [[f u]|]; [|exact I]. rewrite Es, Ep. exact Hacc. }
      rewrite IHs, IHp, Es, Ep. split; reflexivity.
Qed.

(** C1, as the code has it.  A fetch carries no token and no result is
    discarded: when a frame fetch is answered, whichever fetches were issued
    after it and are still outstanding, its rows are stored and
    [renderFrame] runs on them.  Hence, in every state the component
    reaches, the rows held are those of the fetch answered last, not of the
    fetch issued last. *)
Theorem results_applied_in_arrival_order :
  (forall s n c f u,
     nth_error (inflight s) n = Some (PFrame c f u) ->
     step s (Settle n Fulfilled)
     = renderFrame
         (sync_canvas
            (set_pixels (frame_query (store s) f u)
               (set_inflight (remove_nth n (inflight s)) s))))
  /\ (forall t es,
        pixels (run (initial t) es)
        = match last_arrival (initial t) es None with
          | Some (f, u) => frame_query t f u
          | None => []
          end).
Proof.
  split.
  - intros s n c f u H. unfold step. rewrite H. unfold commit. simpl.
    set (new := set_pixels (frame_query (store s) f u)
                  (set_inflight (remove_nth n (inflight s)) s)).
    destruct (sync_canvas_view new) as [Hc _]. unfold core in Hc.
    injection Hc as E1 _ E2 _ _ _ _ _ _ E3 _ _ _ _ _ _.
    unfold loadFrame_deps_changed. rewrite E1, E2, E3. simpl.
    rewrite Z.eqb_refl, conn_eqb_refl, String.eqb_refl. reflexivity.
  - intros t es. destruct (run_fetch es (initial t) None I) as [_ ->].
    reflexivity.
Qed.

Lemma results_applied_in_arrival_order_witness :
  nth_error (inflight two_fetches) 0
  = Some (PFrame {| mdToken := "token" |} 3 "a")
  /\ nth_error (inflight two_fetches) 1
     = Some (PFrame {| mdToken := "token" |} 5 "a")
  /\ pixels (step two_fetches (Settle 0 Fulfilled))
     = frame_query six_frames 3 "a".
Proof.
  assert (H0 : nth_error (inflight two_fetches) 0
               = Some (PFrame {| mdToken := "token" |} 3 "a"))
    by (vm_compute; reflexivity).
  split; [exact H0|]. split; [vm_compute; reflexivity|].
  pose proof (proj1 results_applied_in_arrival_order two_fetches 0%nat
                _ _ _ H0) as E.
  apply (f_equal pixels) in E.
  etransitivity; [exact E|]. vm_compute. reflexivity.
Defined.

(** C1 as documented fails: frame 3 is fetched, then frame 5 before frame 3
    is answered.  When the answer for frame 3 arrives, it is rendered though
    the fetch for frame 5 is newer; and when the answer for frame 5 arrives
    first and that for frame 3 after it, frame 3 is what stays on screen
    (right pixel on, left pixel off), with [currentFrame] at 5. *)
Lemma stale_frame_rendered :
  inflight two_fetches
  = [PFrame {| mdToken := "token" |} 3 "a";
     PFrame {| mdToken := "token" |} 5 "a"]
  /\ frame_query six_frames 3 "a" <> frame_query six_frames 5 "a"
  /\ pixels (run two_fetches [Settle 0 Fulfilled])
     = frame_query six_frames 3 "a"
  /\ (let s := run two_fetches [Settle 1 Fulfilled; Settle 0 Fulfilled] in
      currentFrame s = 5
      /\ inflight s = []
      /\ pixels s = frame_query six_frames 3 "a"
      /\ shown s 0 0 = Some white /\ shown s 4 0 = Some black).
Proof.
  split; [vm_compute; reflexivity|].
  split; [vm_compute; discriminate|].
  split; [vm_compute; reflexivity|].
  cbv zeta. repeat (match goal with |- _ /\ _ => split end);
    vm_compute; reflexivity.
Qed.

(** ** C8: selecting a video *)

(** [handleVideoSelect] passes the url where [loadVideoMetadata] expects the
    connection: no metadata query is issued and the metadata in effect stays
    that of the video selected before. *)
Lemma handleVideoSelect_no_query (url : string) (s : State) :
  inflight (handleVideoSelect url s) = inflight s
  /\ selectedVideo (handleVideoSelect url s) = url
  /\ metadata (handleVideoSelect url s) = metadata s
  /\ canvasSize (handleVideoSelect url s) = canvasSize s
  /\ totalFrames (handleVideoSelect url s) = totalFrames s
  /\ currentFrame (handleVideoSelect url s) = currentFrame s.
Proof.
  unfold handleVideoSelect, loadVideoMetadata, truthy, run_cont,
    console_error.
  destruct (negb (negb (String.eqb url EmptyString))); repeat split.
Qed.

(** The call of [loadAvailableVideos], with both arguments, issues the
    query. *)
Lemma connect_path_issues_query (c : MDConnection) (u : string)
    (us : list string) (s : State) :
  videos_query (store s) = u :: us ->
  inflight (loadAvailableVideos_settled Fulfilled c s)
  = inflight s ++ [PMeta c u KConnect]
  /\ selectedVideo (loadAvailableVideos_settled Fulfilled c s) = u.
Proof.
  intros H. unfold loadAvailableVideos_settled. rewrite H.
  split; reflexivity.
Qed.

(** When the query is answered, the metadata of the video is in effect and
    the frame index is 0. *)
Lemma metadata_in_effect (url : string) (k : Cont) (s : State) :
  let s' := loadVideoMetadata_settled Fulfilled url k s in
  let meta := metadata_query (store s) url in
  currentFrame s' = 0
  /\ canvasSize s' = {| width := m_width meta; height := m_height meta |}
  /\ totalFrames s' = m_total_frames meta
  /\ metadata s'
     = Some {| target_width := m_width meta; target_height := m_height meta;
               fps := 25; mode := m_mode meta |}.
Proof. destruct k; repeat split. Qed.

(** When the query fails, the error is logged and the state is otherwise as
    it was. *)
Lemma metadata_failure_logged (url : string) (s : State) :
  loadVideoMetadata_settled Rejected url KReturn s
  = console_error "Error loading video metadata:" s.
Proof. reflexivity. Qed.

(** C8 on the code: with video "a" (2 x 1, binary, one frame) on screen,
    video "b" (3 x 1, grayscale, two frames) is picked in the select.  A
    frame of "b" is fetched, a TypeError is logged, no metadata query is
    pending, and width, height, frame count and mode remain those of
    "a". *)
Theorem select_video_keeps_old_metadata :
  let s := step (ready two_videos) (SelectVideo "b") in
  selectedVideo s = "b"
  /\ inflight s = [PFrame {| mdToken := "token" |} 0 "b"]
  /\ console s = ["Error loading video metadata:"]
  /\ canvasSize s = {| width := Some 2; height := Some 1 |}
  /\ totalFrames s = 1
  /\ metadata s
     = Some {| target_width := Some 2; target_height := Some 1; fps := 25;
               mode := "binary" |}
  /\ metadata_query two_videos "b"
     = {| m_width := Some 3; m_height := Some 1; m_total_frames := 2;
          m_mode := "grayscale" |}
  /\ metadata b_selected = metadata s.
Proof.
  cbv zeta. repeat (match goal with |- _ /\ _ => split end);
    vm_compute; reflexivity.
Qed.

(** ** C9: the configuration *)

Import Config.

Lemma lookup_In (key : string) (cfg : Object) (v : Json) :
  lookup key cfg = Some v -> In (key, v) cfg.
Proof.
  induction cfg as [|[k w] cfg IH]; simpl; [discriminate|].
  destruct (String.eqb k key) eqn:E.
  - intros [= ->]. apply String.eqb_eq in E. subst. now left.
  - intros H. right. apply IH, H.
Qed.

Lemma invalid_member (sch : Schema) (cfg : Object) (key : string) (v : Json) :
  lookup key cfg = Some v -> valid_member sch (key, v) = false ->
  valid sch cfg = false.
Proof.
  intros Hl Hv. unfold valid. apply andb_false_iff. right.
  apply lookup_In in Hl. clear - Hl Hv.
  induction cfg as [|kv cfg IH]; [destruct Hl|]. simpl.
  destruct Hl as [->|Hl]; [now rewrite Hv|].
  rewrite (IH Hl). apply andb_false_r.
Qed.

(** C9.  A configuration whose target_width is below 16, whose
    target_height is below 9, whose threshold is outside 0..255 or whose
    mode is none of binary, grayscale and color is rejected with
    ConfigError, and no frame is processed. *)
Theorem invalid_config_rejected (cfg : Object) (frames : list RasterFrame) :
  (exists w, lookup "target_width" cfg = Some (JInt w) /\ w < 16)
  \/ (exists h, lookup "target_height" cfg = Some (JInt h) /\ h < 9)
  \/ (exists t, lookup "threshold" cfg = Some (JInt t) /\ (t < 0 \/ 255 < t))
  \/ (exists m, lookup "mode" cfg = Some m
                /\ m <> JStr "binary" /\ m <> JStr "grayscale"
                /\ m <> JStr "color") ->
  run_job cfg frames
  = {| job_error := Some ConfigError; frames_processed := 0; records := [] |}.
Proof.
  intros H. unfold run_job.
  assert (E : valid connectionSpecification cfg = false);
    [|rewrite E; reflexivity].
  destruct H as [[w [Hl Hw]]|[[h [Hl Hh]]|[[t [Hl Ht]]|[m [Hl Hm]]]]];
    apply (invalid_member _ _ _ _ Hl); unfold valid_member; simpl;
    unfold valid_value; simpl.
  - rewrite andb_true_r. apply Z.leb_gt. exact Hw.
  - rewrite andb_true_r. apply Z.leb_gt. exact Hh.
  - apply andb_false_iff. destruct Ht as [Ht|Ht];
      [left|right]; apply Z.leb_gt; exact Ht.
  - destruct m as [| |z|str|]; try reflexivity.
    rewrite andb_true_r.
    destruct Hm as (H1 & H2 & H3).
    destruct (String.eqb str "binary") eqn:E1;
      [apply String.eqb_eq in E1; congruence|].
    destruct (String.eqb str "grayscale") eqn:E2;
      [apply String.eqb_eq in E2; congruence|].
    destruct (String.eqb str "color") eqn:E3;
      [apply String.eqb_eq in E3; congruence|].
    reflexivity.
Qed.

Lemma invalid_config_rejected_witness :
  lookup "target_width" narrow_config = Some (JInt 8)
  /\ run_job narrow_config []
     = {| job_error := Some ConfigError; frames_processed := 0;
          records := [] |}.
Proof.
  split; [reflexivity|].
  apply invalid_config_rejected. left. exists 8. split; [reflexivity|lia].
Defined.

(** An admissible configuration is accepted. *)
Lemma sample_config_accepted :
  valid connectionSpecification sample_config = true
  /\ job_error (run_job sample_config []) = None.
Proof. split; reflexivity. Qed.

(** * Further properties *)

Import Controls Props2.

(** ** The canvas element *)

Lemma synced_sync_canvas (s : State) : synced (sync_canvas s).
Proof.
  unfold synced, sync_canvas. destruct (conn s) eqn:Ec; simpl.
  - destruct (canvas s) as [cv|] eqn:Ecv.
    + destruct ((cwidth cv =? _) && (cheight cv =? _)) eqn:E.
      * rewrite Ec. exists cv. apply andb_true_iff in E.
        rewrite !Z.eqb_eq in E. tauto.
      * simpl. rewrite Ec. eexists. repeat split.
    + simpl. rewrite Ec. eexists. repeat split.
  - rewrite Ec. reflexivity.
Qed.

Lemma synced_ext (s1 s2 : State) :
  conn s1 = conn s2 -> canvasSize s1 = canvasSize s2 ->
  (canvas s1 = canvas s2
   \/ exists c1 c2, canvas s1 = Some c1 /\ canvas s2 = Some c2
                    /\ cwidth c1 = cwidth c2 /\ cheight c1 = cheight c2) ->
  synced s2 -> synced s1.
Proof.
  unfold synced. intros -> -> H. destruct (conn s2).
  - intros [cv (Hc & Hw & Hh)]. destruct H as [->|(c1 & c2 & -> & E2 & Ew & Eh)].
    + exists cv. tauto.
    + exists c1. rewrite E2 in Hc. injection Hc as <-.
      split; [reflexivity|]. split; congruence.
  - intros Hn. destruct H as [->|(c1 & c2 & _ & E2 & _)]; [assumption|].
    congruence.
Qed.

Lemma renderFrame_canvas (s : State) :
  canvas (renderFrame s) = canvas s
  \/ exists c1 c2, canvas (renderFrame s) = Some c1 /\ canvas s = Some c2
                   /\ cwidth c1 = cwidth c2 /\ cheight c1 = cheight c2.
Proof.
  unfold renderFrame. destruct (canvas s) as [cv|] eqn:Ec; [|now left].
  destruct (List.length (pixels s) =? 0)%nat; [now left|].
  destruct (metadata s) as [meta|]; [|now left].
  right. simpl. eexists. exists cv. split; [reflexivity|].
  split; [reflexivity|].
  set (bg := fillRect (with_fillStyle white cv) 0 0 (cwidth cv) (cheight cv)).
  destruct (js_div (cwidth cv) (width (canvasSize s))) as [k|].
  - apply (draw_all_dims (mode meta) k (pixels s) bg).
  - assert (H : forall rows c,
        cwidth (fold_left (draw_pixel (mode meta) None) rows c) = cwidth c
        /\ cheight (fold_left (draw_pixel (mode meta) None) rows c)
           = cheight c).
    { induction rows as [|p rows IH]; intro c; [split; reflexivity|].
      simpl. destruct (IH (draw_pixel (mode meta) None c p)) as [-> ->].
      unfold draw_pixel. simpl.
      destruct (set_fillStyle_view (mode meta) p c) as (-> & -> & _).
      split; reflexivity. }
    destruct (H (pixels s) bg) as [-> ->]. split; reflexivity.
Qed.

(** After a render the canvas element is in step with the state. *)
Lemma synced_commit (fresh : bool) (old new : State) :
  synced (commit fresh old new).
Proof.
  unfold commit. set (s1 := sync_canvas new).
  assert (H1 : synced s1) by apply synced_sync_canvas.
  set (s2 := if loadFrame_deps_changed old s1
             then loadFrame (currentFrame s1) s1 else s1).
  assert (H2 : synced s2).
  { subst s2. destruct (loadFrame_deps_changed old s1); [|exact H1].
    unfold loadFrame, suspend. destruct (conn s1) eqn:Ec; [|exact H1].
    destruct (String.eqb (selectedVideo s1) EmptyString); [exact H1|].
    unfold synced in *. simpl. rewrite Ec in *. exact H1. }
  destruct fresh; [|exact H2].
  destruct (renderFrame_view s2) as [Hc _]. unfold core in Hc.
  injection Hc as E1 E2 _ _ _ _ _ _ _ _ _ _ _ _ _ _.
  apply (synced_ext (renderFrame s2) s2 E1 E2 (renderFrame_canvas s2) H2).
Qed.

Lemma synced_step (s : State) (e : Event) : synced s -> synced (step s e).
Proof.
  intros H. destruct e as [tk| |n o|url| | | |n|id]; unfold step;
    repeat match goal with
           | |- synced (if ?b then _ else _) => destruct b
           | |- synced (match ?x with _ => _ end) => destruct x
           end;
    try exact H; apply synced_commit.
Qed.

Lemma synced_reachable (t : Table) (es : list Event) :
  synced (run (initial t) es).
Proof.
  assert (H : forall es s, synced s -> synced (run s es)).
  { induction es0 as [|e es0 IH]; intros s Hs; [exact Hs|].
    simpl. apply IH, synced_step, Hs. }
  apply H. reflexivity.
Qed.

(** ** Projections of [core] *)

Lemma core_fields (s1 s2 : State) :
  core s1 = core s2 ->
  conn s1 = conn s2 /\ canvasSize s1 = canvasSize s2
  /\ currentFrame s1 = currentFrame s2 /\ isPlaying s1 = isPlaying s2
  /\ totalFrames s1 = totalFrames s2 /\ pixels s1 = pixels s2
  /\ isLoading s1 = isLoading s2 /\ metadata s1 = metadata s2
  /\ videoUrls s1 = videoUrls s2 /\ selectedVideo s1 = selectedVideo s2
  /\ token s1 = token s2 /\ frameInterval s1 = frameInterval s2
  /\ timers s1 = timers s2 /\ next_timer s1 = next_timer s2
  /\ console s1 = console s2 /\ store s1 = store s2.
Proof.
  unfold core. intros H. injection H. intros. repeat split; assumption.
Qed.

(** ** Fetches issued by a render *)

Lemma loadFrame_inflight (f : Z) (s : State) :
  inflight (loadFrame f s)
  = match conn s with
    | Some c =>
        if String.eqb (selectedVideo s) EmptyString then inflight s
        else inflight s ++ [PFrame c f (selectedVideo s)]
    | None => inflight s
    end.
Proof.
  unfold loadFrame, suspend. destruct (conn s); [|reflexivity].
  destruct (String.eqb (selectedVideo s) EmptyString); reflexivity.
Qed.

(** A render issues one fetch, for the current frame of the selected video,
    when the frame index, the connection or the selection changed and there
    is a connection and a selection; otherwise it issues none. *)
Lemma commit_inflight (fresh : bool) (old new : State) :
  inflight (commit fresh old new)
  = if loadFrame_deps_changed old new
    then match conn new with
         | Some c =>
             if String.eqb (selectedVideo new) EmptyString then inflight new
             else inflight new
                  ++ [PFrame c (currentFrame new) (selectedVideo new)]
         | None => inflight new
         end
    else inflight new.
Proof.
  unfold commit. destruct (sync_canvas_view new) as [Hc Hi].
  set (s1 := sync_canvas new) in *. unfold core in Hc.
  injection Hc as E1 _ E2 _ _ _ _ _ _ E3 _ _ _ _ _ _.
  assert (Ed : loadFrame_deps_changed old s1 = loadFrame_deps_changed old new)
    by (unfold loadFrame_deps_changed; now rewrite E1, E2, E3).
  rewrite Ed.
  assert (E : inflight (if loadFrame_deps_changed old new
                        then loadFrame (currentFrame s1) s1 else s1)
              = if loadFrame_deps_changed old new
                then match conn new with
                     | Some c =>
                         if String.eqb (selectedVideo new) EmptyString
                         then inflight new
                         else inflight new
                              ++ [PFrame c (currentFrame new)
                                    (selectedVideo new)]
                     | None => inflight new
                     end
                else inflight new).
  { destruct (loadFrame_deps_changed old new); [|exact Hi].
    rewrite loadFrame_inflight, E1, E2, E3, Hi. reflexivity. }
  destruct fresh; [|exact E].
  destruct (renderFrame_view
              (if loadFrame_deps_changed old new
               then loadFrame (currentFrame s1) s1 else s1)) as [_ ->].
  exact E.
Qed.

Lemma In_remove_nth {A : Type} (n : nat) (l : list A) (p a : A) :
  nth_error l n = Some p -> In a (remove_nth n l) -> In a l.
Proof.
  intros Hn H. destruct (remove_nth_split n l p Hn) as (l1 & l2 & -> & E).
  rewrite E in H. apply in_app_or in H. apply in_or_app.
  destruct H as [H|H]; [now left|right; now right].
Qed.

(** ** More of the invariant *)

Lemma Inv2_ext (s1 s2 : State) :
  core s1 = core s2 -> inflight s1 = inflight s2 -> Inv2 s2 -> Inv2 s1.
Proof.
  unfold core, Inv2, slider_max, chain. intros Hc Hi.
  injection Hc as E1 _ E2 _ E3 _ E4 _ _ _ _ _ _ _ _ _.
  rewrite E2, E3, E4, Hi. intros (H1 & H2 & H3 & H4).
  repeat split; try assumption.
  intros p Hp. specialize (H3 p Hp). unfold pending_ok in *.
  rewrite E1. exact H3.
Qed.

Lemma Inv2_commit (fresh : bool) (old new : State) :
  Inv2 new -> Inv2 (commit fresh old new).
Proof.
  intros H. pose proof (commit_inflight fresh old new) as Ei.
  destruct (commit_view fresh old new) as [Hc _].
  destruct (loadFrame_deps_changed old new);
    [|exact (Inv2_ext _ _ Hc Ei H)].
  destruct (conn new) as [c|] eqn:Ec; [|exact (Inv2_ext _ _ Hc Ei H)].
  destruct (String.eqb (selectedVideo new) EmptyString) eqn:Es;
    [exact (Inv2_ext _ _ Hc Ei H)|].
  apply (Inv2_ext _ (suspend (PFrame c (currentFrame new) (selectedVideo new))
                       new) Hc Ei).
  destruct H as (H1 & H2 & H3 & H4).
  unfold Inv2, slider_max, chain, suspend in *. simpl.
  repeat split; try assumption.
  - intros p Hp. apply in_app_or in Hp. destruct Hp as [Hp|[<-|[]]].
    + exact (H3 p Hp).
    + simpl. split; [exact Ec|]. intro E. rewrite E in Es. discriminate.
  - intros Hl. rewrite filter_app. simpl. rewrite app_nil_r. exact (H4 Hl).
Qed.

Lemma Inv2_initial (t : Table) : Inv2 (initial t).
Proof.
  unfold Inv2, slider_max, chain. simpl.
  repeat split; try lia; try discriminate; try contradiction.
Qed.

(** A change of cells that the invariant does not read. *)
Lemma Inv2_playback (s : State) :
  Inv2 s -> Inv2 (playVideo s) /\ Inv2 (pauseVideo s).
Proof.
  intros H. unfold playVideo, pauseVideo, clearInterval.
  destruct (frameInterval s); [split; exact H|].
  destruct (totalFrames s =? 0); split; exact H.
Qed.

Lemma Inv2_set_currentFrame (n : Z) (s : State) :
  n <= slider_max s -> Inv2 s -> Inv2 (set_currentFrame n s).
Proof.
  intros Hn (H1 & H2 & H3 & H4). unfold Inv2, slider_max, chain in *.
  simpl. tauto.
Qed.

Lemma Inv2_tick (t : Timer) (s : State) :
  In t (timers s) -> Inv s -> Inv2 s -> Inv2 (tick t s).
Proof.
  intros Ht HI H. apply Inv2_set_currentFrame; [|exact H].
  destruct HI as (_ & _ & H3 & H4 & _). destruct (H4 t Ht) as [Et Hnz].
  destruct H as (H1 & _). unfold slider_max. rewrite Et.
  rewrite Z.rem_mod_nonneg by lia.
  pose proof (Z.mod_pos_bound (currentFrame s + 1) (totalFrames s)
                ltac:(lia)). lia.
Qed.

Lemma Inv2_handleVideoSelect (url : string) (s : State) :
  Inv2 s -> Inv2 (handleVideoSelect url s).
Proof.
  intros H. unfold handleVideoSelect, loadVideoMetadata, truthy, run_cont,
    console_error.
  destruct (negb (negb (String.eqb url EmptyString))); exact H.
Qed.

Lemma Inv2_connect (s : State) :
  conn s = None -> Inv2 s -> Inv2 (connectToMotherDuck s).
Proof.
  intros Hc (H1 & H2 & H3 & H4).
  unfold Inv2, slider_max, chain, connectToMotherDuck, suspend in *. simpl.
  repeat split; try assumption.
  - intros p Hp. apply in_app_or in Hp. destruct Hp as [Hp|[<-|[]]].
    + exact (H3 p Hp).
    + exact Hc.
  - intros _. rewrite filter_app. simpl. intro E.
    apply app_eq_nil in E. destruct E as [_ E]. discriminate.
Qed.

Lemma count_distinct_nonneg (l : list Z) : 0 <= count_distinct l.
Proof. unfold count_distinct. lia. Qed.

Lemma Inv2_settle (n : nat) (p : Pending) (o : Outcome) (s : State) :
  nth_error (inflight s) n = Some p -> Inv s -> Inv2 s ->
  Inv2 (settle p o (set_inflight (remove_nth n (inflight s)) s)).
Proof.
  intros Hn (_ & _ & _ & _ & I5 & _) (H1 & H2 & H3 & H4).
  assert (Hp : pending_ok s p) by (apply H3; eapply nth_error_In; eassumption).
  assert (Hrest : forall q, In q (remove_nth n (inflight s)) ->
                            pending_ok s q).
  { intros q Hq. apply H3. eapply In_remove_nth; eassumption. }
  destruct (is_chain p) eqn:Ech.
  - destruct (chain_remove_chain n (inflight s) p Hn Ech I5) as [Hrem _].
    assert (Hfr : forall q, In q (remove_nth n (inflight s)) ->
                            is_chain q = false).
    { intros q Hq. destruct (is_chain q) eqn:E; [|reflexivity].
      assert (In q (filter is_chain (remove_nth n (inflight s))))
        by (apply filter_In; tauto).
      rewrite Hrem in H. destruct H. }
    destruct p as [c|c|c url k|c f url]; [| | |discriminate Ech];
      simpl in Hp; destruct o; simpl;
      unfold connectToMotherDuck_settled, loadAvailableVideos_settled,
        loadVideoMetadata_settled, loadAvailableVideos, loadVideoMetadata,
        run_cont, suspend, console_error;
      try destruct (videos_query (store s)) as [|u us];
      try (match type of Hp with _ /\ _ => destruct Hp as [Hp ->] end);
      simpl;
      unfold Inv2, slider_max, chain; simpl;
      rewrite ?filter_app, ?Hrem; simpl;
      (split; [try assumption; try apply count_distinct_nonneg|]);
      (split; [try assumption; try lia|]);
      (split; [|try discriminate; try (intros _; discriminate)]);
      try (intros q Hq; try (apply in_app_or in Hq;
             destruct Hq as [Hq|[<-|[]]]; [|simpl; try split; congruence]);
           pose proof (Hfr q Hq) as Eq; pose proof (Hrest q Hq) as Hok;
           destruct q; try discriminate Eq; simpl in *;
           try exact Hok; destruct Hok; congruence).
    all: try (pose proof (count_distinct_nonneg
                (map frame_id (where_video url (store s)))); lia).
  - destruct p as [c|c|c url k|c f url]; try discriminate Ech.
    assert (Hch : filter is_chain (remove_nth n (inflight s))
                  = filter is_chain (inflight s))
      by (now apply chain_remove_frame with (PFrame c f url)).
    destruct o; simpl; unfold loadFrame_settled, console_error;
      unfold Inv2, slider_max, chain in *; simpl; rewrite Hch;
      repeat split; assumption.
Qed.

Lemma Inv2_step (s : State) (e : Event) : Inv s -> Inv2 s -> Inv2 (step s e).
Proof.
  intros HI H. destruct e as [tk| |n o|url| | | |n|id]; unfold step.
  - destruct (connected s); exact H.
  - unfold connected. destruct (conn s) eqn:Ec; [exact H|].
    destruct (isLoading s); [exact H|].
    destruct (String.eqb (token s) EmptyString); [exact H|].
    cbv beta iota delta [orb]. apply Inv2_commit, Inv2_connect; assumption.
  - destruct (nth_error (inflight s) n) as [p|] eqn:En; [|exact H].
    apply Inv2_commit, Inv2_settle; assumption.
  - destruct (connected s && existsb (String.eqb url) (videoUrls s)
              && negb (String.eqb url (selectedVideo s))); [|exact H].
    apply Inv2_commit, Inv2_handleVideoSelect, H.
  - destruct (connected s && negb (totalFrames s =? 0)); [|exact H].
    apply Inv2_commit. destruct (isPlaying s); apply Inv2_playback, H.
  - apply Inv2_commit, Inv2_playback, H.
  - apply Inv2_commit, Inv2_playback, H.
  - destruct (connected s && negb (totalFrames s =? 0) && (0 <=? n)
              && (n <=? Z.max 0 (totalFrames s - 1))) eqn:G; [|exact H].
    rewrite !andb_true_iff in G. destruct G as [_ G]. apply Z.leb_le in G.
    apply Inv2_commit, Inv2_set_currentFrame; assumption.
  - destruct (find (fun t => Pos.eqb (timer_id t) id) (timers s)) as [t|] eqn:F;
      [|exact H].
    apply find_some in F. apply Inv2_commit, Inv2_tick; tauto.
Qed.

Lemma Inv2_reachable (t : Table) (es : list Event) :
  Inv2 (run (initial t) es).
Proof.
  assert (H : forall es s, Inv s -> Inv2 s -> Inv2 (run s es)).
  { induction es0 as [|e es0 IH]; intros s HI Hs; [exact Hs|].
    simpl. apply IH; [apply Inv_step, HI|apply Inv2_step; assumption]. }
  apply H; [apply Inv_initial|apply Inv2_initial].
Qed.

(** ** The frame index *)


(** X2.  Playback loops: in every reachable state with playback on, after
    as many ticks as the video has frames the frame index is what it
    was. *)
Theorem playback_loops (t : Table) (es : list Event) :
  isPlaying (run (initial t) es) = true ->
  let s := run (initial t) es in
  exists tm,
    timers s = [tm]
    /\ currentFrame
         (run s (repeat (Tick (timer_id tm)) (Z.to_nat (totalFrames s))))
       = currentFrame s.
Proof.
  intros Hplay s.
  destruct (Inv_reachable t es) as (H1 & H2 & H3 & H4 & _).
  destruct (Inv2_reachable t es) as (G1 & G2 & _).
  fold s in H1, H2, H3, H4, G1, G2, Hplay.
  unfold single_timer in H1. apply H2 in Hplay.
  destruct (frameInterval s); [|congruence].
  destruct H1 as [tm [Ht _]]. exists tm. split; [exact Ht|].
  destruct (H4 tm) as [Etot Hnz]; [rewrite Ht; now left|].
  unfold slider_max in G2.
  assert (Hpos : 0 < totalFrames s) by lia.
  destruct (Z.to_nat (totalFrames s)) as [|k] eqn:Ek; [lia|].
  rewrite ticks_iter by (assumption || lia).
  rewrite <- Ek, Z2Nat.id, Etot by lia.
  rewrite <- (Z.mod_small (currentFrame s) (totalFrames s)) at 2 by lia.
  rewrite <- Z.add_mod_idemp_r, Z.mod_same, Z.add_0_r by lia. reflexivity.
Qed.

Lemma playback_loops_witness :
  exists tm,
    timers (run (initial three_frames) playing_three) = [tm]
    /\ currentFrame
         (run (run (initial three_frames) playing_three)
            (repeat (Tick (timer_id tm))
               (Z.to_nat (totalFrames
                            (run (initial three_frames) playing_three)))))
       = currentFrame (run (initial three_frames) playing_three).
Proof.
  assert (Hplay : isPlaying (run (initial three_frames) playing_three) = true)
    by (vm_compute; reflexivity).
  exact (playback_loops three_frames playing_three Hplay).
Defined.

(** ** Play and pause *)

(** X3.  In every state the component reaches, playback is on exactly when
    an interval runs, and the button then reads "Pause". *)
Theorem playing_iff_timer (t : Table) (es : list Event) :
  let s := run (initial t) es in
  (isPlaying s = true <-> timers s <> [])
  /\ (button_label s = "Pause" <-> frameInterval s <> None).
Proof.
  intros s. destruct (Inv_reachable t es) as (H1 & H2 & _).
  fold s in H1, H2. unfold single_timer, button_label in *. split.
  - rewrite H2. destruct (frameInterval s).
    + destruct H1 as [tm [-> _]]. split; intros _; discriminate.
    + rewrite H1. split; intro H; now elim H.
  - rewrite <- H2. destruct (isPlaying s); split; intro H;
      try reflexivity; discriminate.
Qed.

(** X4.  Pausing stops playback: from every reachable state, after
    [pauseVideo] no interval is left, the frame index is as it was, and a
    tick that was already due changes nothing. *)
Theorem pause_stops_ticks (t : Table) (es : list Event) (id : positive) :
  let s := run (initial t) es in
  let s' := step s Pause in
  timers s' = [] /\ frameInterval s' = None /\ isPlaying s' = false
  /\ currentFrame s' = currentFrame s
  /\ step s' (Tick id) = s'.
Proof.
  intros s s'. destruct (Inv_reachable t es) as (H1 & _). fold s in H1.
  assert (Hc : core s' = core (pauseVideo s)) by apply commit_view.
  assert (Hp : timers (pauseVideo s) = []
               /\ frameInterval (pauseVideo s) = None
               /\ isPlaying (pauseVideo s) = false
               /\ currentFrame (pauseVideo s) = currentFrame s).
  { unfold pauseVideo, clearInterval, single_timer in *.
    destruct (frameInterval s) eqn:Ef.
    - destruct H1 as [tm [Ht Hid]]. simpl. rewrite Ht. simpl.
      rewrite Hid, Pos.eqb_refl. repeat split.
    - simpl. rewrite H1. repeat split. exact Ef. }
  apply core_fields in Hc.
  destruct Hc as (_ & _ & E1 & E2 & _ & _ & _ & _ & _ & _ & _ & E3 & E4 & _).
  destruct Hp as (P1 & P2 & P3 & P4).
  assert (Ht : timers s' = []) by congruence.
  repeat split; try congruence.
  unfold step at 1. rewrite Ht. reflexivity.
Qed.

(** X5.  Play then pause is a round trip: on a state with frames and no
    interval running, it changes nothing but the id the next interval will
    get. *)
Theorem play_pause_round_trip (s : State) :
  frameInterval s = None -> timers s = [] -> isPlaying s = false ->
  totalFrames s <> 0 ->
  pauseVideo (playVideo s) = set_next_timer (Pos.succ (next_timer s)) s.
Proof.
  intros Hf Ht Hp Hn. unfold playVideo. rewrite Hf.
  destruct (totalFrames s =? 0) eqn:E; [apply Z.eqb_eq in E; contradiction|].
  unfold pauseVideo, clearInterval. destruct s. simpl in *. subst.
  simpl. rewrite Pos.eqb_refl. reflexivity.
Qed.

Lemma play_pause_round_trip_witness :
  pauseVideo (playVideo (ready three_frames))
  = set_next_timer (Pos.succ (next_timer (ready three_frames)))
      (ready three_frames).
Proof.
  apply play_pause_round_trip.
  - vm_compute. reflexivity.
  - vm_compute. reflexivity.
  - vm_compute. reflexivity.
  - assert (H : totalFrames (ready three_frames) = 3)
      by (vm_compute; reflexivity).
    rewrite H. discriminate.
Defined.

(** ** Exact steps *)

Lemma set_canvas_id (s : State) : set_canvas (canvas s) s = s.
Proof. destruct s. reflexivity. Qed.

Lemma set_currentFrame_id (s : State) : set_currentFrame (currentFrame s) s = s.
Proof. destruct s. reflexivity. Qed.

(** A render of a state whose canvas is in step leaves the canvas alone. *)
Lemma sync_canvas_id (s : State) : synced s -> sync_canvas s = s.
Proof.
  unfold synced, sync_canvas. destruct (conn s).
  - intros [cv (Hc & Hw & Hh)]. rewrite Hc, <- Hw, <- Hh, !Z.eqb_refl.
    reflexivity.
  - intros H. rewrite <- H. apply set_canvas_id.
Qed.

Lemma synced_core (s1 s2 : State) :
  core s1 = core s2 -> canvas s1 = canvas s2 -> synced s2 -> synced s1.
Proof.
  intros Hc Hcv. apply core_fields in Hc.
  apply synced_ext; [tauto|tauto|now left].
Qed.

(** The step of an event whose handler left the canvas cells alone, when no
    fetch is due. *)
Lemma commit_quiet (old new : State) :
  synced new -> loadFrame_deps_changed old new = false ->
  commit false old new = new.
Proof.
  intros Hs Hd. unfold commit. rewrite (sync_canvas_id new Hs), Hd.
  reflexivity.
Qed.

Lemma commit_fetching (old new : State) (c : MDConnection) :
  synced new -> loadFrame_deps_changed old new = true ->
  conn new = Some c -> selectedVideo new <> EmptyString ->
  commit false old new
  = suspend (PFrame c (currentFrame new) (selectedVideo new)) new.
Proof.
  intros Hs Hd Hc Hv. unfold commit. rewrite (sync_canvas_id new Hs), Hd.
  unfold loadFrame. rewrite Hc.
  destruct (String.eqb (selectedVideo new) EmptyString) eqn:E; [|reflexivity].
  apply String.eqb_eq in E. contradiction.
Qed.

Lemma deps_changed_frame (s : State) (n : Z) :
  loadFrame_deps_changed s (set_currentFrame n s)
  = negb (currentFrame s =? n).
Proof.
  unfold loadFrame_deps_changed. simpl.
  rewrite conn_eqb_refl, String.eqb_refl, !andb_true_r. reflexivity.
Qed.

(** ** Ticks and seeks fetch *)

(** X6.  In every reachable state with playback on and a video selected, a
    tick of a video of more than one frame issues exactly one fetch, for the
    next frame index of the selected video, and changes nothing else but
    the frame index; a tick of a one-frame video changes nothing at all. *)
Theorem tick_fetches_next_frame (t : Table) (es : list Event) :
  isPlaying (run (initial t) es) = true ->
  selectedVideo (run (initial t) es) <> EmptyString ->
  let s := run (initial t) es in
  exists tm c,
    timers s = [tm] /\ conn s = Some c
    /\ (totalFrames s = 1 -> step s (Tick (timer_id tm)) = s)
    /\ (1 < totalFrames s ->
        step s (Tick (timer_id tm))
        = suspend
            (PFrame c ((currentFrame s + 1) mod totalFrames s)
               (selectedVideo s))
            (set_currentFrame ((currentFrame s + 1) mod totalFrames s) s)).
Proof.
  intros Hplay Hv s.
  destruct (Inv_reachable t es) as (H1 & H2 & H3 & H4 & _ & _ & H7 & _).
  destruct (Inv2_reachable t es) as (G1 & G2 & _).
  pose proof (synced_reachable t es) as Hs.
  fold s in H1, H2, H3, H4, H7, G1, G2, Hs, Hplay, Hv.
  unfold single_timer in H1. apply H2 in Hplay.
  destruct (frameInterval s); [|congruence].
  destruct H1 as [tm [Ht _]].
  destruct (H4 tm) as [Etot Hnz]; [rewrite Ht; now left|].
  destruct (conn s) as [c|] eqn:Ec; [|destruct (H7 eq_refl); congruence].
  exists tm, c. split; [exact Ht|]. split; [reflexivity|].
  unfold slider_max in G2.
  assert (Estep : step s (Tick (timer_id tm))
                  = commit false s (tick tm s)).
  { unfold step. rewrite Ht. simpl find. rewrite Pos.eqb_refl. reflexivity. }
  assert (Erem : Z.rem (currentFrame s + 1) (timer_total tm)
                 = (currentFrame s + 1) mod totalFrames s).
  { rewrite Etot. apply Z.rem_mod_nonneg; lia. }
  assert (Hsy : forall n, synced (set_currentFrame n s)).
  { intro n. apply (synced_ext _ s); [reflexivity|reflexivity|now left|exact Hs]. }
  rewrite Estep. unfold tick. rewrite Erem. split.
  - intros E1. rewrite E1 in *. rewrite Z.mod_1_r.
    assert (E0 : currentFrame s = 0) by lia.
    rewrite commit_quiet.
    + rewrite <- E0. apply set_currentFrame_id.
    + apply Hsy.
    + rewrite deps_changed_frame, E0. reflexivity.
  - intros Hgt.
    apply (commit_fetching s
             (set_currentFrame ((currentFrame s + 1) mod totalFrames s) s) c).
    + apply Hsy.
    + rewrite deps_changed_frame. apply negb_true_iff, Z.eqb_neq.
      destruct (Z.eq_dec (currentFrame s + 1) (totalFrames s)) as [E|E].
      * rewrite E, Z.mod_same by lia. lia.
      * rewrite Z.mod_small by lia. lia.
    + exact Ec.
    + exact Hv.
Qed.

Lemma tick_fetches_next_frame_witness :
  exists tm c,
    timers playing = [tm] /\ conn playing = Some c
    /\ step playing (Tick (timer_id tm))
       = suspend (PFrame c ((currentFrame playing + 1)
                            mod totalFrames playing)
                    (selectedVideo playing))
           (set_currentFrame ((currentFrame playing + 1)
                              mod totalFrames playing) playing).
Proof.
  assert (Hplay : isPlaying (run (initial six_frames)
                               (connect_events ++ [ClickPlayPause])) = true)
    by (vm_compute; reflexivity).
  assert (Hv : selectedVideo (run (initial six_frames)
                                (connect_events ++ [ClickPlayPause]))
               <> EmptyString).
  { assert (E : selectedVideo (run (initial six_frames)
                                 (connect_events ++ [ClickPlayPause])) = "a")
      by (vm_compute; reflexivity).
    rewrite E. discriminate. }
  destruct (tick_fetches_next_frame six_frames
              (connect_events ++ [ClickPlayPause]) Hplay Hv)
    as (tm & c & Ht & Hc & _ & Hstep).
  assert (Hgt : 1 < totalFrames (run (initial six_frames)
                                   (connect_events ++ [ClickPlayPause]))).
  { assert (E : totalFrames (run (initial six_frames)
                               (connect_events ++ [ClickPlayPause])) = 6)
      by (vm_compute; reflexivity).
    rewrite E. lia. }
  exists tm, c. unfold playing, ready. rewrite <- run_app.
  split; [exact Ht|]. split; [exact Hc|]. exact (Hstep Hgt).
Defined.

(** X7.  In every reachable state with a connection, frames and a video
    selected, moving the slider to another frame sets the frame index and
    issues exactly one fetch, for that frame of the selected video; moving
    it to the current frame, or to a value outside its range, changes
    nothing. *)
Theorem seek_fetches_target (t : Table) (es : list Event) (c : MDConnection)
    (n : Z) :
  conn (run (initial t) es) = Some c ->
  totalFrames (run (initial t) es) <> 0 ->
  selectedVideo (run (initial t) es) <> EmptyString ->
  let s := run (initial t) es in
  (0 <= n <= slider_max s -> n <> currentFrame s ->
   step s (Seek n)
   = suspend (PFrame c n (selectedVideo s)) (set_currentFrame n s))
  /\ (n = currentFrame s -> step s (Seek n) = s)
  /\ (n < 0 \/ slider_max s < n -> step s (Seek n) = s).
Proof.
  intros Hc Hn Hv s. pose proof (synced_reachable t es) as Hs.
  destruct (Inv_reachable t es) as (_ & _ & H3 & _).
  destruct (Inv2_reachable t es) as (_ & G2 & _).
  fold s in Hc, Hn, Hv, Hs, H3, G2.
  assert (Hsy : synced (set_currentFrame n s)).
  { apply (synced_ext _ s); [reflexivity|reflexivity|now left|exact Hs]. }
  unfold step, connected, slider_max in *. rewrite Hc.
  destruct (totalFrames s =? 0) eqn:E0; [apply Z.eqb_eq in E0; contradiction|].
  simpl. split; [|split].
  - intros [Hlo Hhi] Hne.
    destruct (0 <=? n) eqn:E1; [|apply Z.leb_gt in E1; lia].
    destruct (n <=? Z.max 0 (totalFrames s - 1)) eqn:E2;
      [|apply Z.leb_gt in E2; lia].
    simpl. apply (commit_fetching s (set_currentFrame n s) c);
      try assumption.
    rewrite deps_changed_frame. apply negb_true_iff, Z.eqb_neq. congruence.
  - intros ->.
    destruct ((0 <=? currentFrame s)
              && (currentFrame s <=? Z.max 0 (totalFrames s - 1)));
      [|reflexivity].
    unfold seek. rewrite set_currentFrame_id. apply commit_quiet; [exact Hs|].
    unfold loadFrame_deps_changed.
    rewrite Z.eqb_refl, conn_eqb_refl, String.eqb_refl. reflexivity.
  - intros Hout. destruct (0 <=? n) eqn:E1; [|reflexivity].
    destruct (n <=? Z.max 0 (totalFrames s - 1)) eqn:E2; [|reflexivity].
    apply Z.leb_le in E1, E2. lia.
Qed.

Lemma seek_fetches_target_witness :
  step (run (initial six_frames) connect_events) (Seek 3)
  = suspend (PFrame {| mdToken := "token" |} 3 "a")
      (set_currentFrame 3 (run (initial six_frames) connect_events)).
Proof.
  assert (Hc : conn (run (initial six_frames) connect_events)
               = Some {| mdToken := "token" |}) by (vm_compute; reflexivity).
  assert (Et : totalFrames (run (initial six_frames) connect_events) = 6)
    by (vm_compute; reflexivity).
  assert (Ev : selectedVideo (run (initial six_frames) connect_events) = "a")
    by (vm_compute; reflexivity).
  assert (Ef : currentFrame (run (initial six_frames) connect_events) = 0)
    by (vm_compute; reflexivity).
  destruct (seek_fetches_target six_frames connect_events _ 3 Hc) as [H _].
  - rewrite Et. discriminate.
  - rewrite Ev. discriminate.
  - rewrite Ev in H. apply H.
    + unfold slider_max. rewrite Et. lia.
    + rewrite Ef. discriminate.
Defined.

(** ** A failed fetch *)

(** X8.  In every reachable state, when a frame fetch fails the error is
    logged and nothing else changes: the rows held, the picture on the
    canvas and the other pending operations stay as they were. *)
Theorem failed_fetch_keeps_picture (t : Table) (es : list Event) (n : nat)
    (c : MDConnection) (f : Z) (url : string) :
  nth_error (inflight (run (initial t) es)) n = Some (PFrame c f url) ->
  let s := run (initial t) es in
  step s (Settle n Rejected)
  = console_error "Error loading frame:"
      (set_inflight (remove_nth n (inflight s)) s).
Proof.
  intros Hn s. pose proof (synced_reachable t es) as Hs. fold s in Hn, Hs.
  unfold step. rewrite Hn. simpl.
  apply commit_quiet.
  - apply (synced_ext _ s); [reflexivity|reflexivity|now left|exact Hs].
  - unfold loadFrame_deps_changed, loadFrame_settled, console_error. simpl.
    rewrite Z.eqb_refl, conn_eqb_refl, String.eqb_refl. reflexivity.
Qed.

Lemma failed_fetch_keeps_picture_witness :
  step (run (initial six_frames) (connect_events ++ [Seek 3]))
    (Settle 0 Rejected)
  = console_error "Error loading frame:"
      (set_inflight
         (remove_nth 0
            (inflight (run (initial six_frames) (connect_events ++ [Seek 3]))))
         (run (initial six_frames) (connect_events ++ [Seek 3]))).
Proof.
  apply (failed_fetch_keeps_picture six_frames (connect_events ++ [Seek 3])
           0 {| mdToken := "token" |} 3 "a").
  vm_compute. reflexivity.
Defined.

(** ** The connection *)

Lemma settle_conn (p : Pending) (o : Outcome) (s : State) :
  token (settle p o s) = token s
  /\ conn (settle p o s)
     = match p, o with
       | PInit c, Fulfilled => Some c
       | _, _ => conn s
       end.
Proof.
  destruct p as [c|c|c url k|c f url], o; simpl;
    unfold connectToMotherDuck_settled, loadAvailableVideos_settled,
      loadVideoMetadata_settled, loadFrame_settled, loadAvailableVideos,
      loadVideoMetadata, run_cont, suspend, console_error;
    try destruct (videos_query (store s)); try destruct k; simpl;
    split; reflexivity.
Qed.

Lemma step_conn (s : State) (e : Event) (c : MDConnection) :
  Inv2 s -> conn s = Some c ->
  conn (step s e) = Some c /\ token (step s e) = token s.
Proof.
  intros (_ & _ & H3 & _) Hc.
  assert (Hcon : connected s = true) by (unfold connected; now rewrite Hc).
  destruct e as [tk| |n o|url| | | |n|id]; unfold step;
    rewrite ?Hcon; try (split; [exact Hc|reflexivity]).
  - destruct (nth_error (inflight s) n) as [p|] eqn:En;
      [|split; [exact Hc|reflexivity]].
    destruct (commit_view (settles_fresh p o) s
                (settle p o (set_inflight (remove_nth n (inflight s)) s)))
      as [Hv _].
    apply core_fields in Hv.
    destruct Hv as (-> & _ & _ & _ & _ & _ & _ & _ & _ & _ & -> & _).
    destruct (settle_conn p o (set_inflight (remove_nth n (inflight s)) s))
      as [-> ->].
    simpl. split; [|reflexivity].
    assert (Hp : pending_ok s p)
      by (apply H3; eapply nth_error_In; eassumption).
    destruct p, o; try exact Hc. simpl in Hp. congruence.
  - destruct (true && existsb (String.eqb url) (videoUrls s)
              && negb (String.eqb url (selectedVideo s)));
      [|split; [exact Hc|reflexivity]].
    destruct (commit_view false s (handleVideoSelect url s)) as [Hv _].
    apply core_fields in Hv.
    destruct Hv as (-> & _ & _ & _ & _ & _ & _ & _ & _ & _ & -> & _).
    unfold handleVideoSelect, loadVideoMetadata, truthy, run_cont,
      console_error.
    destruct (negb (negb (String.eqb url EmptyString))); simpl;
      split; (exact Hc || reflexivity).
  - destruct (true && negb (totalFrames s =? 0));
      [|split; [exact Hc|reflexivity]].
    destruct (commit_view false s
                (if isPlaying s then pauseVideo s else playVideo s))
      as [Hv _].
    apply core_fields in Hv.
    destruct Hv as (-> & _ & _ & _ & _ & _ & _ & _ & _ & _ & -> & _).
    unfold playVideo, pauseVideo, clearInterval.
    destruct (isPlaying s), (frameInterval s), (totalFrames s =? 0); simpl;
      split; (exact Hc || reflexivity).
  - destruct (commit_view false s (playVideo s)) as [Hv _].
    apply core_fields in Hv.
    destruct Hv as (-> & _ & _ & _ & _ & _ & _ & _ & _ & _ & -> & _).
    unfold playVideo.
    destruct (frameInterval s), (totalFrames s =? 0); simpl;
      split; (exact Hc || reflexivity).
  - destruct (commit_view false s (pauseVideo s)) as [Hv _].
    apply core_fields in Hv.
    destruct Hv as (-> & _ & _ & _ & _ & _ & _ & _ & _ & _ & -> & _).
    unfold pauseVideo, clearInterval.
    destruct (frameInterval s); simpl; split; (exact Hc || reflexivity).
  - destruct (true && negb (totalFrames s =? 0) && (0 <=? n)
              && (n <=? Z.max 0 (totalFrames s - 1)));
      [|split; [exact Hc|reflexivity]].
    destruct (commit_view false s (seek n s)) as [Hv _].
    apply core_fields in Hv.
    destruct Hv as (-> & _ & _ & _ & _ & _ & _ & _ & _ & _ & -> & _).
    simpl. split; (exact Hc || reflexivity).
  - destruct (find (fun t => Pos.eqb (timer_id t) id) (timers s));
      [|split; [exact Hc|reflexivity]].
    destruct (commit_view false s (tick t s)) as [Hv _].
    apply core_fields in Hv.
    destruct Hv as (-> & _ & _ & _ & _ & _ & _ & _ & _ & _ & -> & _).
    simpl. split; (exact Hc || reflexivity).
Qed.

(** X9.  The connection is for good: once the component is connected,
    whatever happens next the connection and the token stay the same and
    the form is never shown again. *)
Theorem connection_permanent (t : Table) (es1 es2 : list Event)
    (c : MDConnection) :
  conn (run (initial t) es1) = Some c ->
  conn (run (initial t) (es1 ++ es2)) = Some c
  /\ token (run (initial t) (es1 ++ es2)) = token (run (initial t) es1)
  /\ form_shown (run (initial t) (es1 ++ es2)) = false.
Proof.
  intros Hc. rewrite run_app.
  assert (H : forall es s, Inv s -> Inv2 s -> conn s = Some c ->
                conn (run s es) = Some c /\ token (run s es) = token s).
  { induction es as [|e es IH]; intros s HI H2 Hs; [split; auto|].
    simpl. destruct (step_conn s e c H2 Hs) as [E1 E2].
    destruct (IH (step s e)) as [E3 E4];
      [apply Inv_step, HI|apply Inv2_step; assumption|exact E1|].
    split; congruence. }
  destruct (H es2 (run (initial t) es1) (Inv_reachable t es1)
              (Inv2_reachable t es1) Hc) as [E1 E2].
  unfold form_shown, connected. rewrite E1. tauto.
Qed.

Lemma connection_permanent_witness :
  conn (run (initial two_videos)
          (connect_events ++ [TypeToken "other"; Submit]))
  = Some {| mdToken := "token" |}.
Proof.
  apply (connection_permanent two_videos connect_events
           [TypeToken "other"; Submit] {| mdToken := "token" |}).
  vm_compute. reflexivity.
Defined.

(** X10.  In every state the component reaches, [isLoading] is set exactly
    while an operation of the connect chain (initialisation, the video
    list, the metadata of the first video) is pending; and then no frame
    count is in effect yet. *)
Theorem loading_iff_connecting (t : Table) (es : list Event) :
  let s := run (initial t) es in
  (isLoading s = true <-> chain s <> [])
  /\ (isLoading s = false \/ totalFrames s = 0).
Proof.
  intros s.
  destruct (Inv_reachable t es) as (_ & _ & _ & _ & _ & H6 & _).
  destruct (Inv2_reachable t es) as (_ & _ & _ & G4).
  fold s in H6, G4. split.
  - split; [exact G4|]. intro H. apply H6, H.
  - destruct (isLoading s) eqn:E; [right|now left].
    apply H6, G4. reflexivity.
Qed.

(** ** The size of the canvas *)

(** X11.  In every state the component reaches, there is a canvas element
    exactly when there is a connection, and it is four times as wide and
    as high as the video. *)
Theorem canvas_four_times_video (t : Table) (es : list Event) (w h : Z) :
  canvasSize (run (initial t) es) = {| width := Some w; height := Some h |} ->
  0 <= w -> 0 <= h ->
  let s := run (initial t) es in
  (canvas s = None <-> conn s = None)
  /\ forall cv, canvas s = Some cv -> cwidth cv = w * 4 /\ cheight cv = h * 4.
Proof.
  intros Hsz Hw Hh s. pose proof (synced_reachable t es) as Hs.
  fold s in Hs, Hsz. unfold synced in Hs. rewrite Hsz in Hs. simpl in Hs.
  assert (Ew : dom_dim (w * 4) 300 = w * 4).
  { unfold dom_dim. destruct (w * 4 <? 0) eqn:E; [|reflexivity].
    apply Z.ltb_lt in E. lia. }
  assert (Eh : dom_dim (h * 4) 150 = h * 4).
  { unfold dom_dim. destruct (h * 4 <? 0) eqn:E; [|reflexivity].
    apply Z.ltb_lt in E. lia. }
  destruct (conn s).
  - destruct Hs as [cv (Hc & Hcw & Hch)]. split.
    + rewrite Hc. split; discriminate.
    + intros cv' E. rewrite Hc in E. injection E as <-. split; congruence.
  - split; [tauto|]. intros cv E. congruence.
Qed.

Lemma canvas_four_times_video_witness :
  (canvas (run (initial two_videos) connect_events) = None
   <-> conn (run (initial two_videos) connect_events) = None)
  /\ forall cv, canvas (run (initial two_videos) connect_events) = Some cv ->
                cwidth cv = 2 * 4 /\ cheight cv = 1 * 4.
Proof.
  apply (canvas_four_times_video two_videos connect_events 2 1);
    [vm_compute; reflexivity|lia|lia].
Defined.

(** ** More on painting *)

Lemma draw_pixel_gen (md : string) (ps : Num) (c : Canvas2D) (p : Pixel) :
  cwidth (draw_pixel md ps c p) = cwidth c
  /\ cheight (draw_pixel md ps c p) = cheight c
  /\ fillStyle (draw_pixel md ps c p)
     = match row_color md p with Some col => col | None => fillStyle c end
  /\ forall cx cy,
       bitmap (draw_pixel md ps c p) cx cy
       = match ps with
         | Some k =>
             if covers k p cx cy && on_bitmap c cx cy
             then match row_color md p with
                  | Some col => col
                  | None => fillStyle c
                  end
             else bitmap c cx cy
         | None => bitmap c cx cy
         end.
Proof.
  destruct (set_fillStyle_view md p c) as (Hw & Hh & Hb & Hs).
  destruct ps as [k|].
  - destruct (draw_pixel_view md k c p) as (Hw' & Hh' & Hb').
    repeat split; try assumption;
      try (unfold draw_pixel; simpl; exact Hs).
  - unfold draw_pixel. simpl. rewrite Hb.
    repeat split; try assumption; try (unfold draw_pixel; simpl; exact Hs).
Qed.

Lemma same_paint_on_bitmap (c1 c2 : Canvas2D) (cx cy : Z) :
  same_paint c1 c2 -> on_bitmap c2 cx cy = on_bitmap c1 cx cy.
Proof.
  intros [(Hw & Hh & _) _]. unfold on_bitmap. now rewrite Hw, Hh.
Qed.

Lemma draw_pixel_same_paint (md : string) (ps : Num) (c1 c2 : Canvas2D)
    (p : Pixel) :
  same_paint c1 c2 ->
  same_paint (draw_pixel md ps c1 p) (draw_pixel md ps c2 p).
Proof.
  intros H. pose proof (same_paint_on_bitmap c1 c2) as Hon.
  destruct H as [(Hw & Hh & Hb) Hs].
  destruct (draw_pixel_gen md ps c1 p) as (W1 & H1 & S1 & B1).
  destruct (draw_pixel_gen md ps c2 p) as (W2 & H2 & S2 & B2).
  split; [split; [congruence|split; [congruence|]]|].
  - intros cx cy Hcv.
    assert (Hc1 : on_bitmap c1 cx cy = true).
    { unfold on_bitmap in *. rewrite W1, H1 in Hcv. exact Hcv. }
    rewrite B1, B2. destruct ps as [k|]; [|now apply Hb].
    rewrite (Hon cx cy), Hc1 by (split; [repeat split|]; assumption).
    rewrite Hs, (Hb cx cy Hc1). reflexivity.
  - rewrite S1, S2, Hs. reflexivity.
Qed.

Lemma draw_all_same_paint (md : string) (ps : Num) (rows : list Pixel) :
  forall c1 c2, same_paint c1 c2 ->
    same_paint (fold_left (draw_pixel md ps) rows c1)
               (fold_left (draw_pixel md ps) rows c2).
Proof.
  induction rows as [|p rows IH]; intros c1 c2 H; [exact H|].
  simpl. apply IH, draw_pixel_same_paint, H.
Qed.

(** X12.  A non-empty frame is painted afresh: what [renderFrame] leaves on
    the canvas does not depend on what the canvas showed before, only on
    the rows, the metadata and the sizes. *)
Theorem render_repaints (s1 s2 : State) (c1 c2 : Canvas2D) :
  canvas s1 = Some c1 -> canvas s2 = Some c2 ->
  cwidth c1 = cwidth c2 -> cheight c1 = cheight c2 ->
  pixels s1 = pixels s2 -> metadata s1 = metadata s2 ->
  canvasSize s1 = canvasSize s2 ->
  pixels s1 <> [] -> metadata s1 <> None ->
  exists r1 r2,
    canvas (renderFrame s1) = Some r1 /\ canvas (renderFrame s2) = Some r2
    /\ forall cx cy, getPixel r1 cx cy = getPixel r2 cx cy.
Proof.
  intros E1 E2 Hw Hh Hp Hm Hs Hne Hmeta. unfold renderFrame.
  rewrite E1, E2, <- Hp, <- Hm, <- Hs, <- Hw, <- Hh.
  destruct (pixels s1) as [|p l] eqn:Ep; [congruence|].
  simpl List.length. simpl Nat.eqb. cbv iota.
  destruct (metadata s1) as [meta|]; [|congruence].
  eexists. eexists. split; [reflexivity|]. split; [reflexivity|].
  apply agree_getPixel.
  apply (draw_all_same_paint (mode meta)
           (js_div (cwidth c1) (width (canvasSize s1))) (p :: l)).
  split; [split; [exact Hw|split; [exact Hh|]]|reflexivity].
  intros cx cy Hon. cbn [bitmap fillRect with_fillStyle fillStyle cwidth cheight].
  assert (Hon2 : on_bitmap (with_fillStyle white c2) cx cy
                 = on_bitmap (with_fillStyle white c1) cx cy)
    by (unfold on_bitmap; simpl; now rewrite Hw, Hh).
  rewrite Hon2.
  assert (Hin : on_bitmap (with_fillStyle white c1) cx cy = true)
    by exact Hon.
  rewrite Hin.
  assert (Hsp : in_span 0 (cwidth c1) cx && in_span 0 (cheight c1) cy = true).
  { unfold on_bitmap in Hin. simpl in Hin. unfold in_span.
    rewrite !andb_true_iff, !Z.leb_le, !Z.ltb_lt in *. lia. }
  rewrite Hsp. reflexivity.
Qed.

Lemma render_repaints_witness :
  exists r1 r2,
    canvas (renderFrame (ready six_frames)) = Some r1
    /\ canvas (renderFrame
                 (set_canvas (Some (blank 8 4)) (ready six_frames))) = Some r2
    /\ forall cx cy, getPixel r1 cx cy = getPixel r2 cx cy.
Proof.
  assert (Hcv : match canvas (ready six_frames) with
                | Some cv => (cwidth cv =? 8) && (cheight cv =? 4)
                | None => false
                end = true) by (vm_compute; reflexivity).
  assert (Hlen : List.length (pixels (ready six_frames)) = 2%nat)
    by (vm_compute; reflexivity).
  assert (Hmode : option_map mode (metadata (ready six_frames))
                  = Some "binary") by (vm_compute; reflexivity).
  revert Hcv Hlen Hmode. generalize (ready six_frames). intros s Hcv Hlen Hmode.
  destruct (canvas s) as [cv|] eqn:Ec; [|discriminate].
  apply andb_true_iff in Hcv. rewrite !Z.eqb_eq in Hcv. destruct Hcv as [Hw Hh].
  apply (render_repaints s (set_canvas (Some (blank 8 4)) s) cv (blank 8 4));
    try reflexivity; try assumption.
  - intro H. rewrite H in Hlen. discriminate.
  - intro H. rewrite H in Hmode. discriminate.
Defined.

Lemma covers_same_block (p : Pixel) (cx cy cx' cy' : Z) :
  cx / 4 = cx' / 4 -> cy / 4 = cy' / 4 ->
  covers 4 p cx cy = covers 4 p cx' cy'.
Proof.
  intros Ex Ey. destruct (covers 4 p cx cy) eqn:E1, (covers 4 p cx' cy') eqn:E2;
    try reflexivity.
  - apply covers_position in E1. rewrite Ex, Ey in E1.
    apply covers_position in E1. congruence.
  - apply covers_position in E2. rewrite <- Ex, <- Ey in E2.
    apply covers_position in E2. congruence.
Qed.

Lemma draw_all_blocks (md : string) (rows : list Pixel) (cx cy cx' cy' : Z) :
  cx / 4 = cx' / 4 -> cy / 4 = cy' / 4 ->
  forall c, on_bitmap c cx cy = true -> on_bitmap c cx' cy' = true ->
    bitmap c cx cy = bitmap c cx' cy' ->
    bitmap (fold_left (draw_pixel md (Some 4)) rows c) cx cy
    = bitmap (fold_left (draw_pixel md (Some 4)) rows c) cx' cy'.
Proof.
  intros Ex Ey. induction rows as [|p rows IH]; intros c H1 H2 Hb;
    [exact Hb|].
  simpl. apply IH.
  - now rewrite on_bitmap_draw_pixel.
  - now rewrite on_bitmap_draw_pixel.
  - destruct (draw_pixel_view md 4 c p) as (_ & _ & B). rewrite !B, H1, H2.
    rewrite (covers_same_block p cx cy cx' cy' Ex Ey).
    destruct (covers 4 p cx' cy'); [reflexivity|exact Hb].
Qed.

(** X13.  Each pixel of the video is drawn as one block of 4 x 4 canvas
    pixels: after [renderFrame], canvas pixels of the same block have the
    same colour. *)
Theorem blocks_uniform (s : State) (cv : Canvas2D) (meta : Metadata) (w : Z) :
  canvas s = Some cv -> metadata s = Some meta -> pixels s <> [] ->
  width (canvasSize s) = Some w -> 0 < w -> cwidth cv = w * 4 ->
  exists r,
    canvas (renderFrame s) = Some r
    /\ forall cx cy cx' cy',
         on_bitmap r cx cy = true -> on_bitmap r cx' cy' = true ->
         cx / 4 = cx' / 4 -> cy / 4 = cy' / 4 ->
         getPixel r cx cy = getPixel r cx' cy'.
Proof.
  intros Hc Hm Hp Hw Hpos Hcw.
  rewrite (renderFrame_paints s cv meta w Hc Hm Hp Hw Hpos Hcw).
  set (bg := fillRect (with_fillStyle white cv) 0 0 (cwidth cv) (cheight cv)).
  eexists. split; [reflexivity|].
  intros cx cy cx' cy' H1 H2 Ex Ey. unfold getPixel. rewrite H1, H2. f_equal.
  destruct (draw_all_dims (mode meta) 4 (pixels s) bg) as [Ew Eh].
  assert (G1 : on_bitmap cv cx cy = true)
    by (unfold on_bitmap in *; rewrite Ew, Eh in H1; exact H1).
  assert (G2 : on_bitmap cv cx' cy' = true)
    by (unfold on_bitmap in *; rewrite Ew, Eh in H2; exact H2).
  apply draw_all_blocks; try assumption.
  unfold bg. rewrite !background_white by assumption. reflexivity.
Qed.

Lemma blocks_uniform_witness :
  exists r,
    canvas (renderFrame (ready six_frames)) = Some r
    /\ getPixel r 0 0 = getPixel r 3 3.
Proof.
  assert (Hcv : match canvas (ready six_frames) with
                | Some cv => (cwidth cv =? 8) && (cheight cv =? 4)
                | None => false
                end = true) by (vm_compute; reflexivity).
  assert (Hlen : List.length (pixels (ready six_frames)) = 2%nat)
    by (vm_compute; reflexivity).
  assert (Hmeta : match metadata (ready six_frames) with
                  | Some _ => true | None => false end = true)
    by (vm_compute; reflexivity).
  assert (Hw : width (canvasSize (ready six_frames)) = Some 2)
    by (vm_compute; reflexivity).
  revert Hcv Hlen Hmeta Hw. generalize (ready six_frames).
  intros s Hcv Hlen Hmeta Hw.
  destruct (canvas s) as [cv|] eqn:Ec; [|discriminate].
  destruct (metadata s) as [meta|] eqn:Em; [|discriminate].
  apply andb_true_iff in Hcv. rewrite !Z.eqb_eq in Hcv.
  destruct Hcv as [Ecw Ech].
  assert (Hp : pixels s <> [])
    by (intro H; rewrite H in Hlen; discriminate).
  destruct (blocks_uniform s cv meta 2 Ec Em Hp Hw ltac:(lia) Ecw)
    as (r & Hr & Hblk).
  exists r. split; [exact Hr|].
  assert (Hd : cwidth r = 8 /\ cheight r = 4).
  { rewrite (renderFrame_paints s cv meta 2 Ec Em Hp Hw ltac:(lia) Ecw) in Hr.
    simpl in Hr. injection Hr as <-.
    destruct (draw_all_dims (mode meta) 4 (pixels s)
                (fillRect (with_fillStyle white cv) 0 0 (cwidth cv)
                   (cheight cv))) as [-> ->].
    simpl. split; assumption. }
  destruct Hd as [Dw Dh].
  apply Hblk; try reflexivity; unfold on_bitmap; rewrite Dw, Dh; reflexivity.
Defined.

Lemma last_covering_row (rows : list Pixel) (cx cy : Z) :
  (forall p, In p rows -> covers 4 p cx cy = false)
  \/ exists l1 p l2,
       rows = l1 ++ p :: l2 /\ covers 4 p cx cy = true
       /\ forall q, In q l2 -> covers 4 q cx cy = false.
Proof.
  induction rows as [|a rows IH]; [left; intros p []|].
  destruct IH as [Hnone|(l1 & p & l2 & -> & Hp & Hl2)].
  - destruct (covers 4 a cx cy) eqn:Ea.
    + right. exists [], a, rows. repeat split; assumption.
    + left. intros p [<-|Hp]; [exact Ea|apply Hnone, Hp].
  - right. exists (a :: l1), p, l2. repeat split; assumption.
Qed.

(** X14.  In binary mode a canvas pixel is black exactly when the last row
    at its position has value 1; it is white when there is no row at its
    position or when the last one has another value or none. *)
Theorem binary_pixel_black_iff (s : State) (cv : Canvas2D) (meta : Metadata)
    (w : Z) :
  canvas s = Some cv -> metadata s = Some meta -> mode meta = "binary" ->
  pixels s <> [] ->
  width (canvasSize s) = Some w -> 0 < w -> cwidth cv = w * 4 ->
  exists r,
    canvas (renderFrame s) = Some r
    /\ forall cx cy,
         on_bitmap r cx cy = true ->
         (getPixel r cx cy = Some black
          <-> exists p, last_at (pixels s) p cx cy /\ px_value p = Some 1)
         /\ (getPixel r cx cy = Some black \/ getPixel r cx cy = Some white).
Proof.
  intros Hc Hm Hmode Hp Hw Hpos Hcw.
  rewrite (renderFrame_paints s cv meta w Hc Hm Hp Hw Hpos Hcw).
  set (bg := fillRect (with_fillStyle white cv) 0 0 (cwidth cv) (cheight cv)).
  eexists. split; [reflexivity|].
  intros cx cy Hon. unfold getPixel. rewrite Hon.
  destruct (draw_all_dims (mode meta) 4 (pixels s) bg) as [Ew Eh].
  assert (G : on_bitmap cv cx cy = true)
    by (unfold on_bitmap in *; rewrite Ew, Eh in Hon; exact Hon).
  assert (Gbg : on_bitmap bg cx cy = true) by exact G.
  rewrite Hmode in *.
  destruct (last_covering_row (pixels s) cx cy)
    as [Hnone|(l1 & p & l2 & E & Hcov & Hl2)].
  - rewrite draw_all_uncovered by assumption.
    unfold bg. rewrite background_white by assumption. split; [|now right].
    split; [discriminate|].
    intros [p [(l1 & l2 & E & Hat & _) _]]. apply covers_position in Hat.
    rewrite (Hnone p) in Hat; [discriminate|].
    rewrite E. apply in_or_app. right. now left.
  - assert (Hcol : exists col, row_color "binary" p = Some col
                     /\ (col = black <-> px_value p = Some 1)
                     /\ (col = black \/ col = white)).
    { unfold row_color. simpl.
      destruct (px_value p) as [[|[q|q|]|q]|]; eexists;
        (split; [reflexivity|]); split; try (now left); try (now right);
        split; intro H; try reflexivity; discriminate. }
    destruct Hcol as (col & Hcol & Hiff & Hbw).
    rewrite E. rewrite (draw_all_last "binary" 4 l1 l2 p bg cx cy col Gbg
                          Hcov Hl2 Hcol).
    split; [|destruct Hbw as [->| ->]; [now left|now right]].
    split.
    + intros [= Hb]. exists p. split; [|now apply Hiff].
      exists l1, l2. split; [reflexivity|]. split; [now apply covers_position|].
      intros q Hq Hat. apply covers_position in Hat.
      rewrite (Hl2 q Hq) in Hat. discriminate.
    + intros [p' [(l1' & l2' & E' & Hat' & Hl2') Hv]].
      assert (p' = p).
      { clear - E' Hat' Hl2' Hcov Hl2.
        apply covers_position in Hat'.
        assert (Hl2c : forall q, In q l2' -> covers 4 q cx cy = false).
        { intros q Hq. destruct (covers 4 q cx cy) eqn:Eq; [|reflexivity].
          apply covers_position in Eq. destruct (Hl2' q Hq Eq). }
        clear Hl2'. revert l1' E'.
        induction l1 as [|a l1 IH]; intros [|a' l1'] E'; simpl in E'.
        - now injection E'.
        - injection E' as -> ->. rewrite (Hl2 p') in Hat'; [discriminate|].
          apply in_or_app. right. now left.
        - injection E' as -> <-. rewrite (Hl2c p) in Hcov; [discriminate|].
          apply in_or_app. right. now left.
        - injection E' as -> E'. apply (IH l1' E'). }
      subst p'. f_equal. now apply Hiff.
Qed.

Lemma binary_pixel_black_iff_witness :
  exists r,
    canvas (renderFrame (ready six_frames)) = Some r
    /\ getPixel r 0 0 = Some black.
Proof.
  assert (Hcv : match canvas (ready six_frames) with
                | Some cv => (cwidth cv =? 8) && (cheight cv =? 4)
                | None => false
                end = true) by (vm_compute; reflexivity).
  assert (Hpix : pixels (ready six_frames)
                 = [pixel_of (binary_record "a" 0 0 0);
                    pixel_of (binary_record "a" 0 1 0)])
    by (vm_compute; reflexivity).
  assert (Hmeta : metadata (ready six_frames)
                  = Some {| target_width := Some 2; target_height := Some 1;
                            fps := 25; mode := "binary" |})
    by (vm_compute; reflexivity).
  assert (Hw : width (canvasSize (ready six_frames)) = Some 2)
    by (vm_compute; reflexivity).
  revert Hcv Hpix Hmeta Hw. generalize (ready six_frames).
  intros s Hcv Hpix Hmeta Hw.
  destruct (canvas s) as [cv|] eqn:Ec; [|discriminate].
  apply andb_true_iff in Hcv. rewrite !Z.eqb_eq in Hcv.
  destruct Hcv as [Ecw Ech].
  assert (Hp : pixels s <> []) by (rewrite Hpix; discriminate).
  destruct (binary_pixel_black_iff s cv _ 2 Ec Hmeta eq_refl Hp Hw
              ltac:(lia) Ecw) as (r & Hr & Hall).
  exists r. split; [exact Hr|].
  assert (Hd : cwidth r = 8 /\ cheight r = 4).
  { rewrite (renderFrame_paints s cv _ 2 Ec Hmeta Hp Hw ltac:(lia) Ecw) in Hr.
    simpl in Hr. injection Hr as <-.
    destruct (draw_all_dims "binary" 4 (pixels s)
                (fillRect (with_fillStyle white cv) 0 0 (cwidth cv)
                   (cheight cv))) as [-> ->].
    simpl. split; assumption. }
  destruct Hd as [Dw Dh].
  apply Hall; [unfold on_bitmap; rewrite Dw, Dh; reflexivity|].
  exists (pixel_of (binary_record "a" 0 0 0)). split; [|reflexivity].
  exists [], [pixel_of (binary_record "a" 0 1 0)].
  split; [exact Hpix|]. split; [split; reflexivity|].
  intros q [<-|[]] [Hx _]. discriminate.
Defined.

(** ** The queries *)

Lemma insert_yx_perm (p : Pixel) (l : list Pixel) :
  Permutation (insert_yx p l) (p :: l).
Proof.
  induction l as [|q l IH]; simpl; [reflexivity|].
  destruct (yx_leb p q); [reflexivity|].
  rewrite IH. apply perm_swap.
Qed.

Lemma yx_leb_total (p q : Pixel) : yx_leb p q = false -> yx_leb q p = true.
Proof.
  unfold yx_leb. rewrite orb_false_iff, andb_false_iff, orb_true_iff,
    andb_true_iff, !Z.ltb_ge, !Z.ltb_lt, !Z.leb_le, Z.leb_gt, !Z.eqb_eq,
    Z.eqb_neq. lia.
Qed.

Lemma insert_yx_sorted (p : Pixel) (l : list Pixel) :
  Sorted yx_le l -> Sorted yx_le (insert_yx p l).
Proof.
  induction 1 as [|q l Hl IH Hq]; simpl; [repeat constructor|].
  destruct (yx_leb p q) eqn:E.
  - constructor; [constructor; assumption|constructor; exact E].
  - constructor; [exact IH|].
    destruct l as [|q' l]; simpl.
    + constructor. apply yx_leb_total, E.
    + destruct (yx_leb p q') eqn:E'.
      * constructor. apply yx_leb_total, E.
      * constructor. inversion Hq. assumption.
Qed.

Lemma order_by_yx_spec (l : list Pixel) :
  Permutation (order_by_yx l) l /\ Sorted yx_le (order_by_yx l).
Proof.
  induction l as [|p l [IHp IHs]]; simpl; [split; constructor|].
  split.
  - rewrite insert_yx_perm. now constructor.
  - apply insert_yx_sorted, IHs.
Qed.

(** X15.  For a selected video whose url has no single quote in it, the
    rows [loadFrame] receives are the pixels of exactly the records of that
    frame and that video, each once, in the order of [ORDER BY y, x]. *)
Theorem frame_rows_sorted_and_complete (t : Table) (f : Z) (url : string) :
  quote_free url = true ->
  Permutation (frame_query t f url)
    (map pixel_of
       (filter (fun p => (frame_id p =? f) && String.eqb (video_url p) url) t))
  /\ Sorted yx_le (frame_query t f url)
  /\ forall row,
       In row (frame_query t f url)
       <-> exists p, of_video t url p /\ frame_id p = f /\ row = pixel_of p.
Proof.
  intros _. unfold frame_query.
  destruct (order_by_yx_spec
              (map pixel_of
                 (filter (fun p => (frame_id p =? f)
                                   && String.eqb (video_url p) url) t)))
    as [Hp Hs].
  split; [exact Hp|]. split; [exact Hs|].
  intros row. split.
  - intros H. apply (Permutation_in _ Hp) in H. apply in_map_iff in H.
    destruct H as [p [<- H]]. apply filter_In in H. destruct H as [Hin H].
    apply andb_true_iff in H. rewrite Z.eqb_eq, String.eqb_eq in H.
    exists p. unfold of_video. tauto.
  - intros [p [[Hin Hu] [Hf ->]]]. apply (Permutation_in _ (Permutation_sym Hp)).
    apply in_map, filter_In. split; [exact Hin|].
    apply andb_true_iff. rewrite Z.eqb_eq, String.eqb_eq. tauto.
Qed.

Lemma frame_rows_sorted_and_complete_witness :
  Sorted yx_le (frame_query two_videos 1 "b")
  /\ List.length (frame_query two_videos 1 "b") = 3%nat.
Proof.
  split; [|reflexivity].
  exact (proj1 (proj2 (frame_rows_sorted_and_complete two_videos 1 "b"
                         eq_refl))).
Defined.

Lemma insert_url_perm (u : string) (l : list string) :
  Permutation (insert_url u l) (u :: l).
Proof.
  induction l as [|v l IH]; simpl; [reflexivity|].
  destruct (String.leb u v); [reflexivity|].
  rewrite IH. apply perm_swap.
Qed.

Lemma leb_false_total (u v : string) :
  String.leb u v = false -> String.leb v u = true.
Proof.
  intros H. destruct (String.leb_total u v) as [E|E]; [congruence|exact E].
Qed.

Lemma insert_url_sorted (u : string) (l : list string) :
  Sorted url_le l -> Sorted url_le (insert_url u l).
Proof.
  induction 1 as [|v l Hl IH Hv]; simpl; [repeat constructor|].
  destruct (String.leb u v) eqn:E.
  - constructor; [constructor; assumption|constructor; exact E].
  - constructor; [exact IH|].
    destruct l as [|v' l]; simpl.
    + constructor. apply leb_false_total, E.
    + destruct (String.leb u v') eqn:E'.
      * constructor. apply leb_false_total, E.
      * constructor. inversion Hv. assumption.
Qed.

(** X16.  The list of videos offered in the select holds every video_url
    of the table, each once, in ascending order. *)
Theorem video_list_sorted_distinct (t : Table) :
  NoDup (videos_query t) /\ Sorted url_le (videos_query t)
  /\ forall u, In u (videos_query t) <-> exists p, In p t /\ video_url p = u.
Proof.
  unfold videos_query.
  set (d := nodup string_dec (map video_url t)).
  assert (H : Permutation (fold_right insert_url [] d) d
              /\ Sorted url_le (fold_right insert_url [] d)).
  { induction d as [|u d [IHp IHs]]; simpl; [split; constructor|].
    split.
    - rewrite insert_url_perm. now constructor.
    - apply insert_url_sorted, IHs. }
  destruct H as [Hp Hs]. split; [|split; [exact Hs|]].
  - apply (Permutation_NoDup (Permutation_sym Hp)). apply NoDup_nodup.
  - intros u. split.
    + intros H. apply (Permutation_in _ Hp) in H. apply nodup_In in H.
      apply in_map_iff in H. destruct H as [p [E Hin]]. eauto.
    + intros [p [Hin E]]. apply (Permutation_in _ (Permutation_sym Hp)).
      apply nodup_In. rewrite <- E. apply in_map, Hin.
Qed.

Lemma column_bound (f : PixelRecord -> Z) (t : Table) (url : string) (m : Z) :
  sql_succ (sql_max (map f (where_video url t))) = Some m ->
  forall p, of_video t url p -> f p < m.
Proof.
  intros H p Hp. unfold sql_succ in H.
  destruct (sql_max (map f (where_video url t))) as [mx|] eqn:E;
    [|discriminate].
  injection H as <-.
  destruct (sql_max_is_max (map f (where_video url t))) as [m' [E' [_ Hub]]].
  { intro En. rewrite En in E. discriminate. }
  rewrite E in E'. injection E' as <-.
  apply in_where_video in Hp. specialize (Hub (f p) (in_map f _ _ Hp)). lia.
Qed.

(** X17.  The metadata query and the frame query fit together: for a video
    whose url has no single quote in it and whose coordinates are not
    negative, every row of every frame lies within the width and height
    derived for the video, so that no row is clipped when the frame is drawn
    with the video's own metadata. *)
Theorem frame_rows_within_metadata (t : Table) (url : string) (f w h : Z) :
  quote_free url = true ->
  m_width (metadata_query t url) = Some w ->
  m_height (metadata_query t url) = Some h ->
  (forall p, of_video t url p -> 0 <= x p /\ 0 <= y p) ->
  forall row, In row (frame_query t f url) -> in_range w h row = true.
Proof.
  intros _ Hw Hh Hpos row Hrow. unfold frame_query in Hrow.
  apply (Permutation_in _ (proj1 (order_by_yx_spec _))) in Hrow.
  apply in_map_iff in Hrow. destruct Hrow as [p [<- H]].
  apply filter_In in H. destruct H as [Hin H].
  apply andb_true_iff in H. rewrite String.eqb_eq in H.
  assert (Hp : of_video t url p) by (unfold of_video; tauto).
  pose proof (column_bound x t url w Hw p Hp).
  pose proof (column_bound y t url h Hh p Hp).
  destruct (Hpos p Hp). unfold in_range. simpl.
  rewrite !andb_true_iff, !Z.leb_le, !Z.ltb_lt. lia.
Qed.

Lemma frame_rows_within_metadata_witness :
  Forall (fun row => in_range 3 1 row = true) (frame_query two_videos 1 "b").
Proof.
  apply Forall_forall.
  apply (frame_rows_within_metadata two_videos "b" 1 3 1);
    [reflexivity|reflexivity|reflexivity|].
  intros p Hp. each_record Hp; simpl; lia.
Defined.

(** ** The configuration schema *)

Import ConfigProps.

Lemma match_here_literally (pre : string) (items : list (ascii * bool))
    (str : string) :
  match_here (literally pre ++ items) str = true
  <-> exists rest, str = String.append pre rest
                   /\ match_here items rest = true.
Proof.
  revert str. induction pre as [|c pre IH]; intros str; simpl.
  - split; [intros H; exists str; auto|intros [rest [-> H]]; exact H].
  - rewrite orb_false_r. destruct str as [|d str].
    + split; [discriminate|intros [rest [E _]]; discriminate].
    + rewrite andb_true_iff, Ascii.eqb_eq, IH. split.
      * intros [-> [rest [-> H]]]. exists rest. auto.
      * intros [rest [E H]]. injection E as -> ->. eauto.
Qed.

Lemma prefix_append (pre str : string) :
  prefix pre str = true <-> exists rest, str = String.append pre rest.
Proof.
  revert str. induction pre as [|c pre IH]; intros [|d str]; simpl.
  - split; eauto.
  - split; eauto.
  - split; [discriminate|intros [r E]; discriminate].
  - destruct (ascii_dec c d) as [->|Hne].
    + rewrite IH. split; intros [rest E]; exists rest; congruence.
    + split; [discriminate|]. intros [rest E]. injection E as E _. congruence.
Qed.

Lemma match_here_optional (c : ascii) (items : list (ascii * bool))
    (str : string) :
  match_here ((c, true) :: items) str = true
  <-> (exists rest, str = String c rest /\ match_here items rest = true)
      \/ match_here items str = true.
Proof.
  change (match_here ((c, true) :: items) str)
    with (match str with
          | String d str' => Ascii.eqb c d && match_here items str'
          | EmptyString => false
          end || (true && match_here items str)).
  rewrite orb_true_iff, andb_true_l. destruct str as [|d str].
  - split; [intros [H|H]; [discriminate|now right]|].
    intros [[rest [E _]]|H]; [discriminate|now right].
  - rewrite andb_true_iff, Ascii.eqb_eq. split.
    + intros [[-> H]|H]; [left; eauto|now right].
    + intros [[rest [E H]]|H]; [left|now right].
      injection E as -> ->. auto.
Qed.

Lemma literally_nil (pre : string) (str : string) :
  match_here (literally pre) str = true
  <-> exists rest, str = String.append pre rest.
Proof.
  rewrite <- (app_nil_r (literally pre)), match_here_literally.
  split; [intros [rest [E _]]; eauto|intros [rest E]; exists rest; auto].
Qed.

(** The url pattern of the schema accepts the strings that begin with
    http:// or https://. *)
Lemma url_pattern (str : string) :
  pattern_test "^https?://" str = true
  <-> prefix "http://" str = true \/ prefix "https://" str = true.
Proof.
  change (pattern_test "^https?://" str)
    with (match_here (literally "http" ++ ("s"%char, true) :: literally "://")
            str).
  rewrite match_here_literally, !prefix_append. split.
  - intros [rest [-> H]]. apply match_here_optional in H.
    destruct H as [[r [-> H]]|H]; apply literally_nil in H;
      destruct H as [r' ->]; [right|left]; exists r'; reflexivity.
  - intros [[rest ->]|[rest ->]].
    + exists (String.append "://" rest). split; [reflexivity|].
      apply match_here_optional. right. apply literally_nil. eauto.
    + exists (String.append "s://" rest). split; [reflexivity|].
      apply match_here_optional. left. exists (String.append "://" rest).
      split; [reflexivity|]. apply literally_nil. eauto.
Qed.

Lemma valid_integer_min (dflt lo : Z) (v : Json) :
  valid_value (integer_property dflt (Some lo) None) v = true
  <-> exists z, v = JInt z /\ lo <= z.
Proof.
  unfold valid_value, integer_property, holds. cbn [p_type p_minimum p_maximum].
  destruct v as [| |z| |]; try (split; [discriminate|intros [z' [E _]]; discriminate]).
  rewrite andb_true_r, Z.leb_le. split; [eauto|].
  intros [z' [E H]]. now injection E as ->.
Qed.

Lemma valid_integer_range (dflt lo hi : Z) (v : Json) :
  valid_value (integer_property dflt (Some lo) (Some hi)) v = true
  <-> exists z, v = JInt z /\ lo <= z <= hi.
Proof.
  unfold valid_value, integer_property, holds. cbn [p_type p_minimum p_maximum].
  destruct v as [| |z| |]; try (split; [discriminate|intros [z' [E _]]; discriminate]).
  rewrite andb_true_iff, !Z.leb_le. split; [eauto|].
  intros [z' [E H]]. now injection E as ->.
Qed.

Lemma property_of_cons (key k : string) (p : Property)
    (ps : list (string * Property)) :
  property_of key ((k, p) :: ps)
  = if String.eqb k key then Some p else property_of key ps.
Proof. reflexivity. Qed.

(** What the schema admits for one member. *)
Lemma valid_member_iff (k : string) (v : Json) :
  valid_member connectionSpecification (k, v) = true <-> admissible (k, v).
Proof.
  unfold valid_member, admissible.
  cbv [fst snd connectionSpecification properties additionalProperties].
  rewrite property_of_cons.
  destruct (String.eqb_spec "url" k) as [<-|N1].
  { unfold valid_value, holds. cbn [p_type p_enum p_pattern].
    destruct v as [| |z|str|];
      try (split; [discriminate|];
           intros [[_ [s' [E _]]]|[[E _]|[[E _]|[[E _]|[[E _]|[E _]]]]]];
           discriminate).
    cbv beta iota delta [andb]. rewrite url_pattern. split.
    - intros H. left. split; [reflexivity|]. eauto.
    - intros [[_ [s' [E H]]]|[[E _]|[[E _]|[[E _]|[[E _]|[E _]]]]]];
        try discriminate. now injection E as ->. }
  rewrite property_of_cons.
  destruct (String.eqb_spec "target_width" k) as [<-|N2].
  { rewrite valid_integer_min. split.
    - intros H. right. left. auto.
    - intros [[E _]|[[_ H]|[[E _]|[[E _]|[[E _]|[E _]]]]]];
        try discriminate. exact H. }
  rewrite property_of_cons.
  destruct (String.eqb_spec "target_height" k) as [<-|N3].
  { rewrite valid_integer_min. split.
    - intros H. right. right. left. auto.
    - intros [[E _]|[[E _]|[[_ H]|[[E _]|[[E _]|[E _]]]]]];
        try discriminate. exact H. }
  rewrite property_of_cons.
  destruct (String.eqb_spec "mode" k) as [<-|N4].
  { unfold valid_value, holds. cbn [p_type p_enum p_pattern].
    destruct v as [| |z|str|];
      try (split; [discriminate|];
           intros [[E _]|[[E _]|[[E _]|[[_ [E|[E|E]]]|[[E _]|[E _]]]]]];
           discriminate).
    rewrite andb_true_r. cbn [existsb]. rewrite orb_false_r, !orb_true_iff,
      !String.eqb_eq. split.
    - intros H. do 3 right. left. split; [reflexivity|].
      destruct H as [->|[->| ->]]; auto.
    - intros [[E _]|[[E _]|[[E _]|[[_ H]|[[E _]|[E _]]]]]];
        try discriminate.
      destruct H as [E|[E|E]]; injection E as ->; auto. }
  rewrite property_of_cons.
  destruct (String.eqb_spec "threshold" k) as [<-|N5].
  { rewrite valid_integer_range. split.
    - intros H. do 4 right. left. auto.
    - intros [[E _]|[[E _]|[[E _]|[[E _]|[[_ H]|[E _]]]]]];
        try discriminate. exact H. }
  rewrite property_of_cons.
  destruct (String.eqb_spec "max_duration" k) as [<-|N6].
  { rewrite valid_integer_min. split.
    - intros H. do 5 right. auto.
    - intros [[E _]|[[E _]|[[E _]|[[E _]|[[E _]|[_ H]]]]]];
        try discriminate. exact H. }
  cbn [property_of]. split; [discriminate|].
  intros [[E _]|[[E _]|[[E _]|[[E _]|[[E _]|[E _]]]]]]; congruence.
Qed.

(** X19.  A configuration is valid against spec.json exactly when it has a
    url and each of its members is one of the six options with an
    admissible value: a url that begins with http:// or https://,
    target_width at least 16, target_height at least 9, mode one of binary,
    grayscale and color, threshold from 0 to 255, max_duration at least 1.
    No other member is allowed. *)
Theorem config_valid_iff (cfg : Object) :
  valid connectionSpecification cfg = true
  <-> (exists v, lookup "url" cfg = Some v)
      /\ forall k v, In (k, v) cfg -> admissible (k, v).
Proof.
  unfold valid. change (required connectionSpecification) with ["url"].
  cbn [forallb]. rewrite !andb_true_iff, forallb_forall.
  split.
  - intros [[Hu _] Hall]. split.
    + destruct (lookup "url" cfg) as [v|]; [eauto|discriminate].
    + intros k v Hin. apply valid_member_iff, Hall, Hin.
  - intros [[v Hv] Hall]. split.
    + rewrite Hv. split; reflexivity.
    + intros [k w] Hin. apply valid_member_iff, Hall, Hin.
Qed.

Lemma lookup_app (key : string) (c1 c2 : Object) :
  lookup key (c1 ++ c2)
  = match lookup key c1 with
    | Some v => Some v
    | None => lookup key c2
    end.
Proof.
  induction c1 as [|[k v] c1 IH]; simpl; [reflexivity|].
  destruct (String.eqb k key); [reflexivity|exact IH].
Qed.

(** X20.  Every default that spec.json declares satisfies the constraints
    of its own option: writing a default out in a valid configuration
    leaves it valid. *)
Theorem defaults_admissible (cfg : Object) (key : string) (d : Json) :
  valid connectionSpecification cfg = true ->
  default_of key = Some d ->
  valid connectionSpecification (cfg ++ [(key, d)]) = true.
Proof.
  intros Hv Hd. unfold valid in *.
  change (required connectionSpecification) with ["url"] in *.
  cbn [forallb] in *. rewrite !andb_true_iff in *.
  destruct Hv as [[Hu _] Hall]. split.
  - split; [|reflexivity]. rewrite lookup_app.
    destruct (lookup "url" cfg); [reflexivity|discriminate].
  - rewrite forallb_app, Hall. cbn [forallb andb]. rewrite andb_true_r.
    unfold valid_member. cbn [fst snd]. unfold default_of in Hd.
    revert Hd. cbv [connectionSpecification properties].
    rewrite !property_of_cons.
    repeat match goal with
           | |- context [String.eqb ?a key] =>
               destruct (String.eqb a key);
               [intros [= <-]; reflexivity || discriminate|]
           end.
    discriminate.
Qed.

Lemma defaults_admissible_witness :
  valid connectionSpecification
    ([("url", JStr "https://example.org/v")] ++ [("threshold", JInt 128)])
  = true.
Proof.
  apply (defaults_admissible [("url", JStr "https://example.org/v")]
           "threshold" (JInt 128)); reflexivity.
Defined.

(** ** The select *)

Lemma selection_same (s1 s2 : State) :
  videoUrls s1 = videoUrls s2 -> selectedVideo s1 = selectedVideo s2 ->
  store s1 = store s2 -> selection_ok s2 -> selection_ok s1.
Proof. unfold selection_ok. intros -> -> ->. exact (fun H => H). Qed.

Lemma selection_ext (s1 s2 : State) :
  core s1 = core s2 -> selection_ok s2 -> selection_ok s1.
Proof.
  intros H. apply core_fields in H.
  apply selection_same; tauto.
Qed.

Lemma selection_settle (p : Pending) (o : Outcome) (s : State) :
  selection_ok s -> selection_ok (settle p o s).
Proof.
  intros H. destruct p as [c|c|c url k|c f url]; simpl.
  - apply (selection_same _ s); [| | |exact H];
      destruct o; reflexivity.
  - destruct o.
    + unfold loadAvailableVideos_settled, selection_ok.
      destruct (videos_query (store s)) as [|u us] eqn:E.
      * destruct H as [[_ H]|[H1 H2]].
        -- left. split; [reflexivity|exact H].
        -- rewrite H1, E in H2. simpl in H2. contradiction.
      * right. simpl. rewrite E. split; [reflexivity|now left].
    + apply (selection_same _ s); [| | |exact H]; reflexivity.
  - apply (selection_same _ s); [| | |exact H];
      destruct o, k; reflexivity.
  - apply (selection_same _ s); [| | |exact H];
      destruct o; reflexivity.
Qed.

Lemma selection_playback (s : State) :
  selection_ok s -> selection_ok (playVideo s) /\ selection_ok (pauseVideo s).
Proof.
  intros H. unfold playVideo, pauseVideo, clearInterval.
  destruct (frameInterval s); [split; exact H|].
  destruct (totalFrames s =? 0); split; exact H.
Qed.

Lemma selection_handleVideoSelect (url : string) (s : State) :
  existsb (String.eqb url) (videoUrls s) = true ->
  selection_ok s -> selection_ok (handleVideoSelect url s).
Proof.
  intros He H. apply existsb_exists in He. destruct He as [v [Hin E]].
  apply String.eqb_eq in E. subst v.
  assert (G : selection_ok (set_selectedVideo url s)).
  { unfold selection_ok. simpl. right. split; [|exact Hin].
    destruct H as [[H _]|[H _]]; [|exact H].
    rewrite H in Hin. simpl in Hin. contradiction. }
  revert G. apply selection_same;
    unfold handleVideoSelect, loadVideoMetadata, truthy, run_cont,
      console_error;
    destruct (negb (negb (String.eqb url EmptyString))); reflexivity.
Qed.

Lemma selection_step (s : State) (e : Event) :
  selection_ok s -> selection_ok (step s e).
Proof.
  intros H. destruct e as [tk| |n o|url| | | |n|id]; unfold step.
  - destruct (connected s); exact H.
  - destruct (connected s || isLoading s || String.eqb (token s) EmptyString);
      [exact H|].
    destruct (commit_view false s (connectToMotherDuck s)) as [Hc _].
    apply (selection_ext _ _ Hc). exact H.
  - destruct (nth_error (inflight s) n) as [p|] eqn:En; [|exact H].
    destruct (commit_view (settles_fresh p o) s
                (settle p o (set_inflight (remove_nth n (inflight s)) s)))
      as [Hc _].
    apply (selection_ext _ _ Hc), selection_settle. exact H.
  - destruct (connected s && existsb (String.eqb url) (videoUrls s)
              && negb (String.eqb url (selectedVideo s))) eqn:G; [|exact H].
    rewrite !andb_true_iff in G. destruct G as [[_ G] _].
    destruct (commit_view false s (handleVideoSelect url s)) as [Hc _].
    apply (selection_ext _ _ Hc), selection_handleVideoSelect; assumption.
  - destruct (connected s && negb (totalFrames s =? 0)); [|exact H].
    destruct (selection_playback s H) as [H1 H2].
    destruct (isPlaying s).
    + destruct (commit_view false s (pauseVideo s)) as [Hc _].
      apply (selection_ext _ _ Hc), H2.
    + destruct (commit_view false s (playVideo s)) as [Hc _].
      apply (selection_ext _ _ Hc), H1.
  - destruct (commit_view false s (playVideo s)) as [Hc _].
    apply (selection_ext _ _ Hc), selection_playback, H.
  - destruct (commit_view false s (pauseVideo s)) as [Hc _].
    apply (selection_ext _ _ Hc), selection_playback, H.
  - destruct (connected s && negb (totalFrames s =? 0) && (0 <=? n)
              && (n <=? Z.max 0 (totalFrames s - 1))); [|exact H].
    destruct (commit_view false s (seek n s)) as [Hc _].
    apply (selection_ext _ _ Hc). exact H.
  - destruct (find (fun t => Pos.eqb (timer_id t) id) (timers s)) as [t|];
      [|exact H].
    destruct (commit_view false s (tick t s)) as [Hc _].
    apply (selection_ext _ _ Hc). exact H.
Qed.

(** X21.  In every state the component reaches, either no video is listed
    and none is selected, or the select lists the answer of the video query
    and the selected video is one of the listed ones, a video of the
    table. *)
Theorem selected_video_offered (t : Table) (es : list Event) :
  let s := run (initial t) es in
  (videoUrls s = [] /\ selectedVideo s = EmptyString)
  \/ (videoUrls s = videos_query t /\ In (selectedVideo s) (videoUrls s)
      /\ exists p, In p t /\ video_url p = selectedVideo s).
Proof.
  intros s.
  assert (H : forall es s, selection_ok s -> selection_ok (run s es)).
  { induction es0 as [|e es0 IH]; intros s0 Hs; [exact Hs|].
    simpl. apply IH, selection_step, Hs. }
  assert (Hs : selection_ok s).
  { apply H. left. split; reflexivity. }
  assert (Hst : store s = t).
  { destruct (run_fetch es (initial t) None I) as [E _]. exact E. }
  destruct Hs as [Hs|[H1 H2]]; [left; exact Hs|right].
  rewrite Hst in H1. split; [exact H1|]. split; [exact H2|].
  rewrite H1 in H2.
  assert (G : forall u, In u (videos_query t)
                        -> exists p, In p t /\ video_url p = u).
  { intros u Hu. unfold videos_query in Hu.
    assert (P : forall d, Permutation (fold_right insert_url [] d) d).
    { induction d as [|v d IHd]; simpl; [constructor|].
      rewrite insert_url_perm. now constructor. }
    apply (Permutation_in _ (P _)) in Hu. apply nodup_In in Hu.
    apply in_map_iff in Hu. destruct Hu as [p [E Hin]]. eauto. }
  apply G, H2.
Qed.

(** ** A connection that fails *)

Lemma connecting_alone (s : State) (n : nat) (c : MDConnection) :
  Inv s -> Inv2 s -> nth_error (inflight s) n = Some (PInit c) ->
  conn s = None /\ inflight s = [PInit c] /\ n = 0%nat.
Proof.
  intros (_ & _ & _ & _ & I5 & _) (_ & _ & H3 & _) Hn.
  assert (Hc : conn s = None).
  { apply (H3 (PInit c)). eapply nth_error_In; eassumption. }
  assert (Hall : filter is_chain (inflight s) = inflight s).
  { assert (G : forall l, (forall q, In q l -> pending_ok s q) ->
                          filter is_chain l = l).
    { induction l as [|q l IH]; intros Hl; [reflexivity|]. simpl.
      pose proof (Hl q (or_introl eq_refl)) as Hq.
      destruct q; simpl in *;
        try (rewrite IH; [reflexivity|intros; apply Hl; now right]).
      destruct Hq as [Hq _]. congruence. }
    apply G, H3. }
  destruct (chain_remove_chain n (inflight s) (PInit c) Hn eq_refl I5)
    as [_ E].
  rewrite Hall in E. split; [exact Hc|]. split; [exact E|].
  rewrite E in Hn. destruct n as [|[|n]]; [reflexivity| |]; discriminate.
Qed.

(** X22.  When the connection fails the error is logged and the component
    is not connected and no longer loading, with the form shown, the token
    kept and nothing pending; and if the token is not empty, submitting
    again starts a new connection with it. *)
Theorem failed_connect_allows_retry (t : Table) (es : list Event) (n : nat)
    (c : MDConnection) :
  let s := run (initial t) es in
  nth_error (inflight s) n = Some (PInit c) ->
  let s' := step s (Settle n Rejected) in
  conn s' = None /\ form_shown s' = true /\ isLoading s' = false
  /\ token s' = token s /\ inflight s' = []
  /\ console s' = console s ++ ["Error connecting to MotherDuck:"]
  /\ (token s <> EmptyString ->
      inflight (step s' Submit) = [PInit {| mdToken := token s |}]
      /\ isLoading (step s' Submit) = true).
Proof.
  intros s Hn.
  destruct (connecting_alone s n c (Inv_reachable t es) (Inv2_reachable t es)
              Hn) as (Hc & Hi & ->).
  intros s'.
  set (new := set_isLoading false
                (console_error "Error connecting to MotherDuck:"
                   (set_inflight [] s))).
  assert (Es : s' = commit false s new).
  { unfold s', step. fold s. rewrite Hn. unfold new. rewrite Hi.
    reflexivity. }
  assert (F : conn s' = None /\ isLoading s' = false /\ token s' = token s
              /\ inflight s' = []
              /\ console s'
                 = console s ++ ["Error connecting to MotherDuck:"]).
  { rewrite Es. destruct (commit_view false s new) as [Hv _].
    apply core_fields in Hv.
    destruct Hv as (E1 & _ & _ & _ & _ & _ & E2 & _ & _ & _ & E3 & _ & _ & _
                    & E4 & _).
    rewrite E1, E2, E3, E4, commit_inflight.
    assert (Hcn : conn new = None) by exact Hc. rewrite Hcn.
    destruct (loadFrame_deps_changed s new); repeat split; reflexivity. }
  clearbody s'. clear Es.
  destruct F as (F1 & F2 & F3 & F4 & F5).
  split; [exact F1|]. split; [unfold form_shown, connected; now rewrite F1|].
  split; [exact F2|]. split; [exact F3|]. split; [exact F4|].
  split; [exact F5|].
  intros Htok. apply String.eqb_neq in Htok.
  unfold step, connected. rewrite F1, F2, F3, Htok. cbv beta iota delta [orb].
  destruct (commit_view false s' (connectToMotherDuck s')) as [Hv _].
  apply core_fields in Hv.
  destruct Hv as (_ & _ & _ & _ & _ & _ & E2 & _).
  rewrite E2, commit_inflight.
  assert (Hcn : conn (connectToMotherDuck s') = None) by exact F1.
  rewrite Hcn.
  assert (Ei : inflight (connectToMotherDuck s')
               = [PInit {| mdToken := token s |}]).
  { unfold connectToMotherDuck, suspend. simpl. rewrite F4, F3.
    reflexivity. }
  rewrite Ei.
  destruct (loadFrame_deps_changed s' (connectToMotherDuck s'));
    split; reflexivity.
Qed.

Lemma failed_connect_allows_retry_witness :
  conn (step (run (initial two_videos) [TypeToken "token"; Submit])
          (Settle 0 Rejected))
  = None.
Proof.
  assert (Hn : nth_error
                 (inflight (run (initial two_videos)
                              [TypeToken "token"; Submit])) 0
               = Some (PInit {| mdToken := "token" |}))
    by (vm_compute; reflexivity).
  exact (proj1 (failed_connect_allows_retry two_videos
                  [TypeToken "token"; Submit] 0%nat
                  {| mdToken := "token" |} Hn)).
Defined.

(** ** The urls spliced into queries *)

Lemma all_listed_same (s1 s2 : State) :
  inflight s1 = inflight s2 -> store s1 = store s2 ->
  all_listed s2 -> all_listed s1.
Proof.
  unfold all_listed, pending_listed. intros -> ->. exact (fun H => H).
Qed.

Lemma all_listed_app (s1 s2 : State) (extra : list Pending) :
  inflight s1 = inflight s2 ++ extra -> store s1 = store s2 ->
  (forall q, In q extra -> pending_listed s2 q) ->
  all_listed s2 -> all_listed s1.
Proof.
  unfold all_listed, pending_listed. intros -> -> He H p Hp.
  apply in_app_or in Hp. destruct Hp as [Hp|Hp]; [exact (H p Hp)|].
  exact (He p Hp).
Qed.

Lemma all_listed_commit (fresh : bool) (old new : State) :
  selection_ok new -> all_listed new -> all_listed (commit fresh old new).
Proof.
  intros Hsel H. pose proof (commit_inflight fresh old new) as Ei.
  destruct (commit_view fresh old new) as [Hc _]. apply core_fields in Hc.
  assert (Es : store (commit fresh old new) = store new) by tauto.
  destruct (loadFrame_deps_changed old new);
    [|exact (all_listed_same _ _ Ei Es H)].
  destruct (conn new) as [c|]; [|exact (all_listed_same _ _ Ei Es H)].
  destruct (String.eqb (selectedVideo new) EmptyString) eqn:E;
    [exact (all_listed_same _ _ Ei Es H)|].
  apply (all_listed_app _ new _ Ei Es); [|exact H].
  intros q [<-|[]]. simpl.
  destruct Hsel as [[_ H0]|[H1 H2]].
  - rewrite H0 in E. discriminate.
  - rewrite <- H1. exact H2.
Qed.

Lemma all_listed_settle (n : nat) (p : Pending) (o : Outcome) (s : State) :
  nth_error (inflight s) n = Some p -> all_listed s ->
  all_listed (settle p o (set_inflight (remove_nth n (inflight s)) s)).
Proof.
  intros Hn H.
  assert (H0 : all_listed (set_inflight (remove_nth n (inflight s)) s)).
  { intros q Hq. simpl in Hq. apply (H q).
    eapply In_remove_nth; eassumption. }
  revert H0. generalize (set_inflight (remove_nth n (inflight s)) s).
  clear. intros s H.
  destruct p as [c|c|c url k|c f url]; simpl.
  - destruct o.
    + apply (all_listed_app _ s [PVideos c]); [reflexivity|reflexivity| |exact H].
      intros q [<-|[]]. exact I.
    + apply (all_listed_same _ s); [reflexivity|reflexivity|exact H].
  - destruct o.
    + unfold loadAvailableVideos_settled.
      destruct (videos_query (store s)) as [|u us] eqn:E.
      * apply (all_listed_same _ s); [reflexivity|reflexivity|exact H].
      * apply (all_listed_app _ s [PMeta c u KConnect]);
          [reflexivity|reflexivity| |exact H].
        intros q [<-|[]]. simpl. rewrite E. now left.
    + apply (all_listed_same _ s); [reflexivity|reflexivity|exact H].
  - apply (all_listed_same _ s); [| |exact H]; destruct o, k; reflexivity.
  - apply (all_listed_same _ s); [| |exact H]; destruct o; reflexivity.
Qed.

Lemma all_listed_playback (s : State) :
  all_listed s -> all_listed (playVideo s) /\ all_listed (pauseVideo s).
Proof.
  intros H. unfold playVideo, pauseVideo, clearInterval.
  destruct (frameInterval s); [split; exact H|].
  destruct (totalFrames s =? 0); split; exact H.
Qed.

Lemma all_listed_handleVideoSelect (url : string) (s : State) :
  all_listed s -> all_listed (handleVideoSelect url s).
Proof.
  apply all_listed_same;
    unfold handleVideoSelect, loadVideoMetadata, truthy, run_cont,
      console_error;
    destruct (negb (negb (String.eqb url EmptyString))); reflexivity.
Qed.

Lemma all_listed_step (s : State) (e : Event) :
  selection_ok s -> all_listed s -> all_listed (step s e).
Proof.
  intros Hsel H.
  destruct e as [tk| |n o|url| | | |n|id]; unfold step.
  - destruct (connected s); exact H.
  - destruct (connected s || isLoading s || String.eqb (token s) EmptyString);
      [exact H|].
    apply all_listed_commit.
    + apply (selection_same _ s); [reflexivity..|exact Hsel].
    + apply (all_listed_app _ s [PInit {| mdToken := token s |}]);
        [reflexivity|reflexivity| |exact H].
      intros q [<-|[]]. exact I.
  - destruct (nth_error (inflight s) n) as [p|] eqn:En; [|exact H].
    apply all_listed_commit.
    + apply selection_settle. exact Hsel.
    + apply all_listed_settle; assumption.
  - destruct (connected s && existsb (String.eqb url) (videoUrls s)
              && negb (String.eqb url (selectedVideo s))) eqn:G; [|exact H].
    rewrite !andb_true_iff in G. destruct G as [[_ G] _].
    apply all_listed_commit.
    + apply selection_handleVideoSelect; assumption.
    + apply all_listed_handleVideoSelect, H.
  - destruct (connected s && negb (totalFrames s =? 0)); [|exact H].
    apply all_listed_commit; destruct (isPlaying s);
      (apply selection_playback || apply all_listed_playback); assumption.
  - apply all_listed_commit;
      (apply selection_playback || apply all_listed_playback); assumption.
  - apply all_listed_commit;
      (apply selection_playback || apply all_listed_playback); assumption.
  - destruct (connected s && negb (totalFrames s =? 0) && (0 <=? n)
              && (n <=? Z.max 0 (totalFrames s - 1))); [|exact H].
    apply all_listed_commit.
    + apply (selection_same _ s); [reflexivity..|exact Hsel].
    + apply (all_listed_same _ s); [reflexivity..|exact H].
  - destruct (find (fun t => Pos.eqb (timer_id t) id) (timers s)) as [t|];
      [|exact H].
    apply all_listed_commit.
    + apply (selection_same _ s); [reflexivity..|exact Hsel].
    + apply (all_listed_same _ s); [reflexivity..|exact H].
Qed.

Lemma listed_video (t : Table) (u : string) :
  In u (videos_query t) -> exists p, In p t /\ video_url p = u.
Proof.
  intros Hu. unfold videos_query in Hu.
  assert (P : forall d, Permutation (fold_right insert_url [] d) d).
  { induction d as [|v d IHd]; simpl; [constructor|].
    rewrite insert_url_perm. now constructor. }
  apply (Permutation_in _ (P _)) in Hu. apply nodup_In in Hu.
  apply in_map_iff in Hu. destruct Hu as [p [E Hin]]. eauto.
Qed.

(** X18.  Every query into which the component splices a url is for a video
    of the table: in every state it reaches, the url of each pending
    metadata or frame query is the [video_url] of some record.  So when no
    [video_url] of the table has a single quote in it, no url spliced into
    a query has one. *)
Theorem queries_name_listed_videos (t : Table) (es : list Event)
    (p : Pending) :
  In p (inflight (run (initial t) es)) ->
  match p with
  | PMeta _ url _ | PFrame _ _ url =>
      (exists rec, In rec t /\ video_url rec = url)
      /\ ((forall rec, In rec t -> quote_free (video_url rec) = true) ->
          quote_free url = true)
  | _ => True
  end.
Proof.
  assert (H : forall es s, selection_ok s -> all_listed s ->
                all_listed (run s es)).
  { induction es0 as [|e es0 IH]; intros s Hs Hl; [exact Hl|].
    simpl. apply IH; [apply selection_step, Hs|apply all_listed_step];
      assumption. }
  assert (Hl : all_listed (run (initial t) es)).
  { apply H; [left; split; reflexivity|]. intros q []. }
  assert (Hst : store (run (initial t) es) = t).
  { destruct (run_fetch es (initial t) None I) as [E _]. exact E. }
  intros Hp. specialize (Hl p Hp). unfold pending_listed in Hl.
  rewrite Hst in Hl.
  destruct p as [c|c|c url k|c f url]; try exact I;
    destruct (listed_video t url Hl) as [rec [Hin E]];
    (split; [eauto|]); intros Hq; rewrite <- E; apply Hq, Hin.
Qed.

Lemma queries_name_listed_videos_witness :
  (exists rec, In rec six_frames /\ video_url rec = "a")
  /\ ((forall rec, In rec six_frames -> quote_free (video_url rec) = true) ->
      quote_free "a" = true).
Proof.
  apply (queries_name_listed_videos six_frames (connect_events ++ [Seek 3])
           (PFrame {| mdToken := "token" |} 3 "a")).
  vm_compute. left. reflexivity.
Defined.
